(** * fastproxy: header scanner and CONNECT handler, embedded in Rocq

    The development follows the Go sources:

    - [header/header.go]: [Header], [ParseHeaderFields], [tryRead],
      [readHeaders] and the header-name predicates;
    - the proxy handler ([do], [tunnelConnect], [decryptConnect]), and the
      earlier [handler] with its own [tunnelConnect] and [decryptConnect].

    Go slices of bytes are lists of [byte]; Go [int] and [int64] values are
    integers in [Z] (the only arithmetic that can overflow, the one of
    [strconv.ParseUint], has its wrap-around written out).  The pieces of the
    Go standard library the code calls ([bytes], [strings], [strconv],
    [bufio]) are transcribed from the library's sources. *)

From Stdlib Require Import Strings.String Strings.Byte List ZArith Lia Bool.
Import ListNotations.

Set Implicit Arguments.
Open Scope Z_scope.

(** ** Byte slices *)

Abbreviation byteslice := (list byte).

(** A Go string literal used as [[]byte("...")]. *)
Definition bs (s : string) : byteslice := list_byte_of_string s.

Definition CR : byte := x0d.
Definition LF : byte := x0a.
Definition crlf : byteslice := [CR; LF].

(** [len(b)] as a Go [int]. *)
Definition len (b : byteslice) : Z := Z.of_nat (length b).

(** [b[:n]] and [b[m:]]; the code only slices within bounds. *)
Definition slice_to (b : byteslice) (n : Z) : byteslice := firstn (Z.to_nat n) b.
Definition slice_from (b : byteslice) (m : Z) : byteslice := skipn (Z.to_nat m) b.

(** ** Errors

    Go compares error values by identity ([errParse == errNeedMore]); each
    sentinel is a constructor, [fmt.Errorf] with one [%s] argument builds a
    new value around the error it prints.

    Modelled from the spec: [util.ErrWrapper] is not among the sources.
    "Sub-component errors are wrapped with a static message prefix
    identifying the phase": [ErrWrapper e msg] is the error [e] under the
    message [msg]. *)

Inductive error : Type :=
| errNeedMore                 (* header: "need more data: cannot find trailing lf" *)
| io_EOF
| io_ErrShortBuffer
| io_ErrNoProgress
| bufio_ErrBufferFull
| bufio_ErrNegativeCount
| conn_error (code : nat)     (* any other error of the underlying connection *)
| Errorf (format : string) (arg : error)
| ErrorfNil (format : string)    (* [fmt.Errorf] printing a nil error *)
| errors_New (text : string)
| ErrSessionUnavailable          (* proxy: "session unavailable" *)
| ErrWrapper (e : error) (msg : string).   (* [util.ErrWrapper(err, msg)] *)

Fixpoint error_eqb (a b : error) : bool :=
  match a, b with
  | errNeedMore, errNeedMore => true
  | io_EOF, io_EOF => true
  | io_ErrShortBuffer, io_ErrShortBuffer => true
  | io_ErrNoProgress, io_ErrNoProgress => true
  | bufio_ErrBufferFull, bufio_ErrBufferFull => true
  | bufio_ErrNegativeCount, bufio_ErrNegativeCount => true
  | conn_error x, conn_error y => Nat.eqb x y
  | Errorf f e, Errorf g e' => String.eqb f g && error_eqb e e'
  | ErrorfNil f, ErrorfNil g => String.eqb f g
  | errors_New s, errors_New t => String.eqb s t
  | ErrSessionUnavailable, ErrSessionUnavailable => true
  | ErrWrapper e m, ErrWrapper e' m' => error_eqb e e' && String.eqb m m'
  | _, _ => false
  end.

(** ** Package [bytes] of the Go library *)

Module bytes.

(** Index of the first [c] in [b], or [-1]. *)
Fixpoint IndexByte (b : byteslice) (c : byte) : Z :=
  match b with
  | [] => -1
  | x :: b' =>
      if Byte.eqb x c then 0
      else let i := IndexByte b' c in
           if i <? 0 then -1 else i + 1
  end.

Fixpoint HasPrefix (s prefix : byteslice) {struct prefix} : bool :=
  match prefix with
  | [] => true
  | p :: prefix' =>
      match s with
      | [] => false
      | x :: s' => Byte.eqb x p && HasPrefix s' prefix'
      end
  end.

Fixpoint Contains (b subslice : byteslice) : bool :=
  HasPrefix b subslice
  || match b with
     | [] => false
     | _ :: b' => Contains b' subslice
     end.

End bytes.

(** ** Package [strings]: [TrimSpace]

    [TrimSpace] removes the leading and the trailing runes that
    [unicode.IsSpace] accepts.  Decoding is UTF-8: a rune is a space exactly
    when its bytes are one of the encodings below (the six ASCII spaces,
    U+0085, U+00A0, U+1680, U+2000..U+200A, U+2028, U+2029, U+202F, U+205F,
    U+3000); a byte that starts no valid encoding decodes to the error rune,
    which is not a space. *)

Module strings.

Definition spaces : list byteslice :=
  [ [x09]; [x0a]; [x0b]; [x0c]; [x0d]; [x20];
    [xc2; x85]; [xc2; xa0];
    [xe1; x9a; x80];
    [xe2; x80; x80]; [xe2; x80; x81]; [xe2; x80; x82]; [xe2; x80; x83];
    [xe2; x80; x84]; [xe2; x80; x85]; [xe2; x80; x86]; [xe2; x80; x87];
    [xe2; x80; x88]; [xe2; x80; x89]; [xe2; x80; x8a];
    [xe2; x80; xa8]; [xe2; x80; xa9]; [xe2; x80; xaf];
    [xe2; x81; x9f];
    [xe3; x80; x80] ].

(** Width of the space rune [s] starts with, [0] when it starts with none. *)
Definition leadingSpace (table : list byteslice) (s : byteslice) : nat :=
  match find (bytes.HasPrefix s) table with
  | Some enc => length enc
  | None => 0%nat
  end.

Fixpoint trimLeft (fuel : nat) (table : list byteslice) (s : byteslice) : byteslice :=
  match fuel with
  | O => s
  | S fuel' =>
      match leadingSpace table s with
      | O => s
      | w => trimLeft fuel' table (skipn w s)
      end
  end.

Definition TrimLeftSpace (s : byteslice) : byteslice :=
  trimLeft (length s) spaces s.

(** From the end, a rune is found by its last bytes: the same table, each
    encoding reversed, on the reversed string. *)
Definition TrimRightSpace (s : byteslice) : byteslice :=
  rev (trimLeft (length s) (map (@rev byte) spaces) (rev s)).

Definition TrimSpace (s : byteslice) : byteslice :=
  TrimRightSpace (TrimLeftSpace s).

End strings.

(** ** Package [strconv]: [ParseInt(s, 10, 64)] *)

Module strconv.

Inductive NumError := ErrSyntax | ErrRange.

Definition maxUint64 : Z := 2 ^ 64 - 1.

Definition digit (d : byte) : option Z :=
  let c := Z.of_N (Byte.to_N d) in
  if (48 <=? c) && (c <=? 57) then Some (c - 48)
  else if (97 <=? c) && (c <=? 122) then Some (c - 97 + 10)
  else if (65 <=? c) && (c <=? 90) then Some (c - 65 + 10)
  else None.

(** The loop of [ParseUint] for base 10 and 64 bits, [n] the value so far. *)
Fixpoint parseUintLoop (s : byteslice) (n : Z) : Z * option NumError :=
  match s with
  | [] => (n, None)
  | d :: s' =>
      match digit d with
      | None => (0, Some ErrSyntax)
      | Some v =>
          if v >=? 10 then (0, Some ErrSyntax)
          else if n >=? maxUint64 / 10 + 1 then (maxUint64, Some ErrRange)
          else
            let n := n * 10 in
            let n1 := (n + v) mod 2 ^ 64 in
            if (n1 <? n) || (n1 >? maxUint64) then (maxUint64, Some ErrRange)
            else parseUintLoop s' n1
      end
  end.

Definition ParseUint (s : byteslice) : Z * option NumError :=
  match s with
  | [] => (0, Some ErrSyntax)
  | _ => parseUintLoop s 0
  end.

(** [int64(u)] for an unsigned 64-bit [u]. *)
Definition int64 (u : Z) : Z :=
  let m := u mod 2 ^ 64 in
  if m <? 2 ^ 63 then m else m - 2 ^ 64.

Definition ParseInt (s : byteslice) : Z * option NumError :=
  match s with
  | [] => (0, Some ErrSyntax)
  | c :: rest =>
      let '(neg, s1) :=
        if Byte.eqb c "+"%byte then (false, rest)
        else if Byte.eqb c "-"%byte then (true, rest)
        else (false, s) in
      let '(un, err) := ParseUint s1 in
      match err with
      | Some ErrSyntax => (0, Some ErrSyntax)
      | _ =>
          let cutoff := 2 ^ 63 in
          if negb neg && (un >=? cutoff) then (cutoff - 1, Some ErrRange)
          else if neg && (un >? cutoff) then (- cutoff, Some ErrRange)
          else
            let n := int64 un in
            ((if neg then int64 (- n) else n), None)
      end
  end.

End strconv.

(** ** Package [bufio]: the [Reader]

    The underlying [io.Reader] is a script: the results of its successive
    [Read] calls, each a chunk of bytes and possibly an error.  A call with
    less room than the chunk takes what fits and leaves the rest for the next
    call.  After the script the reader is at end of file and says so at
    every call, as a closed connection does. *)

Module bufio.

Definition Source : Type := list (byteslice * option error).

Definition srcRead (rd : Source) (room : nat)
  : byteslice * option error * Source :=
  match rd with
  | [] => ([], Some io_EOF, [])
  | (d, e) :: rd' =>
      if (length d <=? room)%nat then (d, e, rd')
      else (firstn room d, None, (skipn room d, e) :: rd')
  end.

(** [buffered] is [b.buf[b.r:b.w]], [size] is [len(b.buf)]. *)
Record Reader : Type :=
  { rd : Source; size : nat; buffered : byteslice; err : option error }.

Definition Buffered (b : Reader) : Z := len (buffered b).

Definition setErr (b : Reader) (e : option error) : Reader :=
  {| rd := rd b; size := size b; buffered := buffered b; err := e |}.

Definition setBuffered (b : Reader) (w : byteslice) : Reader :=
  {| rd := rd b; size := size b; buffered := w; err := err b |}.

Definition maxConsecutiveEmptyReads : nat := 100.

(** The loop of [fill]: [i] tries left. *)
Fixpoint fillTries (i : nat) (b : Reader) : Reader :=
  match i with
  | O => setErr b (Some io_ErrNoProgress)
  | S i' =>
      let '(d, e, rd') := srcRead (rd b) (size b - length (buffered b)) in
      let b := {| rd := rd'; size := size b;
                  buffered := buffered b ++ d; err := err b |} in
      match e with
      | Some e => setErr b (Some e)
      | None => if (0 <? length d)%nat then b else fillTries i' b
      end
  end.

Definition fill (b : Reader) : Reader := fillTries maxConsecutiveEmptyReads b.

Arguments fill : simpl never.

Definition readErr (b : Reader) : Reader * option error :=
  (setErr b None, err b).

(** The loop of [Peek]: fill while fewer than [n] bytes are buffered, the
    buffer is not full and no error is pending.  Every round that leaves
    no error adds a byte, so [size b + 1] rounds are enough. *)
Fixpoint peekFill (fuel : nat) (b : Reader) (n : Z) : Reader :=
  match fuel with
  | O => b
  | S fuel' =>
      if (Buffered b <? n) && (Buffered b <? Z.of_nat (size b))
         && match err b with None => true | Some _ => false end
      then peekFill fuel' (fill b) n
      else b
  end.

Definition Peek (b : Reader) (n : Z) : Reader * byteslice * option error :=
  if n <? 0 then (b, [], Some bufio_ErrNegativeCount)
  else
    let b := peekFill (S (size b)) b n in
    if n >? Z.of_nat (size b) then (b, buffered b, Some bufio_ErrBufferFull)
    else if Buffered b <? n then
      let '(b, e) := readErr b in
      (b, buffered b,
       Some (match e with Some e => e | None => bufio_ErrBufferFull end))
    else (b, slice_to (buffered b) n, None).

(** The loop of [Discard]; [None] when the rounds given do not suffice
    (none is needed beyond the first when [n] bytes are buffered). *)
Fixpoint discardLoop (fuel : nat) (b : Reader) (n remain : Z)
  : option (Reader * Z * option error) :=
  match fuel with
  | O => None
  | S fuel' =>
      let b := if Buffered b =? 0 then fill b else b in
      let skip := Buffered b in
      let skip := if skip >? remain then remain else skip in
      let b := setBuffered b (slice_from (buffered b) skip) in
      let remain := remain - skip in
      if remain =? 0 then Some (b, n, None)
      else
        match err b with
        | Some _ => let '(b, e) := readErr b in Some (b, n - remain, e)
        | None => discardLoop fuel' b n remain
        end
  end.

Definition Discard (b : Reader) (n : Z) : option (Reader * Z * option error) :=
  if n <? 0 then Some (b, 0, Some bufio_ErrNegativeCount)
  else if n =? 0 then Some (b, 0, None)
  else discardLoop (Z.to_nat n) b n n.

End bufio.

(** ** Package [bytebufferpool]: the fixed-size [ByteBuffer] *)

Module bytebufferpool.

(** Modelled from the spec: the file of [ByteBuffer] is not among the
    sources.  "Capacity is set at construction; writes past capacity fail
    with a distinguished short-buffer error; never reallocates."  What a
    failed write leaves in the buffer is not specified; every caller below
    resets the buffer right after a failed write, so the content kept here
    (the buffer unchanged) is never observed. *)
Record ByteBuffer : Type := { B : byteslice; capacity : nat }.

Definition MakeFixedSizeByteBuffer (size : nat) : ByteBuffer :=
  {| B := []; capacity := size |}.

Definition Reset (b : ByteBuffer) : ByteBuffer :=
  {| B := []; capacity := capacity b |}.

Definition Write (b : ByteBuffer) (p : byteslice) : ByteBuffer * option error :=
  if (length (B b) + length p <=? capacity b)%nat
  then ({| B := B b ++ p; capacity := capacity b |}, None)
  else (b, Some io_ErrShortBuffer).

End bytebufferpool.

(** ** Package [header] *)

Module header.

Import bytebufferpool.

Record Header : Type := { isConnectionClose : bool; contentLength : Z }.

Definition Reset (header : Header) : Header :=
  {| isConnectionClose := false; contentLength := 0 |}.

Definition IsConnectionClose (header : Header) : bool :=
  isConnectionClose header.

Definition ContentLength (header : Header) : Z :=
  if contentLength header >? 0 then contentLength header else 0.

Definition IsBodyChunked (header : Header) : bool :=
  contentLength header =? -1.

Definition IsBodyIdentity (header : Header) : bool :=
  contentLength header =? -2.

Definition setConnectionClose (header : Header) (v : bool) : Header :=
  {| isConnectionClose := v; contentLength := contentLength header |}.

Definition setContentLength (header : Header) (v : Z) : Header :=
  {| isConnectionClose := isConnectionClose header; contentLength := v |}.

(** *** Header-name predicates *)

Definition proxyHeaders : list byteslice :=
  [ bs "Accept-Encoding"; bs "Proxy-Connection";
    bs "Proxy-Authenticate"; bs "Proxy-Authorization" ].

Definition isProxyHeader (header : byteslice) : bool :=
  existsb (fun proxyHeaderKey => bytes.HasPrefix header proxyHeaderKey) proxyHeaders.

Definition connectionHeader : byteslice := bs "Connection".

Definition isConnectionHeader (header : byteslice) : bool :=
  bytes.HasPrefix header connectionHeader.

Definition contentLengthHeader : byteslice := bs "Content-Length".

Definition isContentLengthHeader (header : byteslice) : bool :=
  bytes.HasPrefix header contentLengthHeader.

Definition transferEncoding : byteslice := bs "Transfer-Encoding".

Definition isTransferEncodingHeader (header : byteslice) : bool :=
  bytes.HasPrefix header transferEncoding.

(** Modelled from the spec: [changeToLowerCase] is called by [readHeaders]
    but its body is not among the sources.  "Lowercase the line in place":
    every ASCII capital becomes its small letter, other bytes stay.  The
    call changes the slice it is given, which is a window of the reader's
    buffer; the functions below return the changed bytes. *)
Definition toLower (c : byte) : byte :=
  let n := Byte.to_N c in
  if ((65 <=? n) && (n <=? 90))%N
  then match Byte.of_N (n + 32) with Some c' => c' | None => c end
  else c.

Definition changeToLowerCase (b : byteslice) : byteslice := map toLower b.

(** *** [readHeaders] *)

(** The value of a [Content-Length] line: the decimal after the first [:];
    [strconv.ParseInt]'s error is dropped by the code, its value kept. *)
Definition parseLength (rawHeaderLine : byteslice) (lengthBytesIndex : Z) : Z :=
  let lengthBytes := slice_from rawHeaderLine (lengthBytesIndex + 1) in
  fst (strconv.ParseInt (strings.TrimSpace lengthBytes)).

(** The closure [parseThenWriteBuffer]: the line as the call leaves it, the
    header, the buffer and the error. *)
Definition parseThenWriteBuffer (rawHeaderLine : byteslice)
    (header : Header) (buffer : ByteBuffer)
  : byteslice * Header * ByteBuffer * option error :=
  if isConnectionHeader rawHeaderLine then
    let rawHeaderLine := changeToLowerCase rawHeaderLine in
    let header :=
      if bytes.Contains rawHeaderLine (bs "close")
      then setConnectionClose header true else header in
    (rawHeaderLine, header, buffer, None)
  else
    let header :=
      if isContentLengthHeader rawHeaderLine then
        let lengthBytesIndex := bytes.IndexByte rawHeaderLine ":"%byte in
        if lengthBytesIndex >? 0 then
          let length := parseLength rawHeaderLine lengthBytesIndex in
          if length >? 0 then setContentLength header length else header
        else header
      else if isTransferEncodingHeader rawHeaderLine then
        if bytes.Contains rawHeaderLine (bs "chunked")
        then setContentLength header (-1)
        else if bytes.Contains rawHeaderLine (bs "identity")
        then setContentLength header (-2)
        else header
      else header in
    if negb (isProxyHeader rawHeaderLine) then
      match Write buffer rawHeaderLine with
      | (buffer, Some e) => (rawHeaderLine, header, buffer, Some e)
      | (buffer, None) => (rawHeaderLine, header, buffer, None)
      end
    else (rawHeaderLine, header, buffer, None).

(** [b[0] == c] *)
Definition firstIs (b : byteslice) (c : byte) : bool :=
  match b with
  | x :: _ => Byte.eqb x c
  | [] => false
  end.

(** What [readHeaders] gives back: the bytes of [buf] as the call leaves
    them, the header, the buffer, and the two results. *)
Definition readResult : Type :=
  (byteslice * Header * ByteBuffer * Z * option error)%type.

(** The loop "read rest lines".  It is entered with [b] and [m] as they are
    before [b = b[m:]]; the bytes returned are those of that [b].  Each
    round drops at least one byte of [b], so [length b] rounds are enough
    ([restLines_total]). *)
Fixpoint restLines (fuel : nat) (b : byteslice) (m n : Z)
    (header : Header) (buffer : ByteBuffer) : option readResult :=
  match fuel with
  | O => None
  | S fuel' =>
      let done := slice_to b m in
      let b := slice_from b m in
      let m := bytes.IndexByte b LF in
      if m <? 0 then Some (done ++ b, header, bytebufferpool.Reset buffer, 0, Some errNeedMore)
      else
        let m := m + 1 in
        let '(line, header, buffer, e) :=
          parseThenWriteBuffer (slice_to b m) header buffer in
        let b := line ++ slice_from b m in
        match e with
        | Some e => Some (done ++ b, header, bytebufferpool.Reset buffer, 0, Some e)
        | None =>
            let n := n + m in
            if ((m =? 2) && firstIs b CR) || (m =? 1)
            then Some (done ++ b, header, buffer, n, None)
            else
              match restLines fuel' b m n header buffer with
              | Some (b', header, buffer, n, e) =>
                  Some (done ++ b', header, buffer, n, e)
              | None => None
              end
        end
  end.

Definition readHeaders (buf : byteslice) (header : Header)
    (buffer : ByteBuffer) : option readResult :=
  let n := bytes.IndexByte buf LF in
  if n <? 0 then Some (buf, header, buffer, 0, Some errNeedMore)
  else if ((n =? 1) && firstIs buf CR) || (n =? 0)
  then Some (buf, header, buffer, n + 1, None)
  else
    let n := n + 1 in
    let buffer := bytebufferpool.Reset buffer in
    let '(line, header, buffer, e) :=
      parseThenWriteBuffer (slice_to buf n) header buffer in
    let buf := line ++ slice_from buf n in
    match e with
    | Some e => Some (buf, header, bytebufferpool.Reset buffer, 0, Some e)
    | None => restLines (length buf) buf n n header buffer
    end.

(** *** [tryRead] and [ParseHeaderFields] *)

Import bufio.

(** A call returns or panics. *)
Inductive outcome (A : Type) : Type :=
| Return (a : A)
| Panic.
Arguments Panic {A}.

Definition headersFormat : string := "error when reading http headers: %s".

Definition errWrapper (e : option error) : error :=
  match e with
  | Some e => Errorf headersFormat e
  | None => ErrorfNil headersFormat
  end.

Definition isEOF (e : option error) : bool :=
  match e with
  | Some e => error_eqb e io_EOF
  | None => false
  end.

Definition parseState : Type := (Header * Reader * ByteBuffer)%type.

(** [b] of the second [Peek] is the whole window of the reader, and
    [readHeaders] writes into it: the window is what [readHeaders] leaves.
    [None] only if [readHeaders] or [Discard] ran out of rounds, which they
    do not ([readHeaders_total], [tryRead_round]). *)
Definition tryRead (header : Header) (reader : Reader) (buffer : ByteBuffer)
    (n : Z) : option (outcome (parseState * option error)) :=
  let '(reader, b, e) := Peek reader n in
  if len b =? 0 then
    if (n =? 1) || isEOF e
    then Some (Return (header, reader, buffer, Some (Errorf headersFormat io_EOF)))
    else Some (Return (header, reader, buffer, Some (errWrapper e)))
  else
    let '(reader, b, e) := Peek reader (Buffered reader) in
    if (len b =? 0) || match e with Some _ => true | None => false end
    then Some Panic
    else
      match readHeaders b header buffer with
      | None => None
      | Some (b, header, buffer, headersLen, errParse) =>
          let reader := setBuffered reader b in
          match errParse with
          | Some errParse =>
              if error_eqb errParse errNeedMore
              then Some (Return (header, reader, buffer, Some errNeedMore))
              else Some (Return (header, reader, buffer, Some (errWrapper (Some errParse))))
          | None =>
              match Discard reader headersLen with
              | None => None
              | Some (_, _, Some _) => Some Panic
              | Some (reader, _, None) =>
                  Some (Return (header, reader, buffer, None))
              end
          end
      end.

(** The loop of [ParseHeaderFields], [fuel] rounds of it: [None] when the
    loop is still running after them. *)
Fixpoint parseLoop (fuel : nat) (header : Header) (reader : Reader)
    (buffer : ByteBuffer) (n : Z) : option (outcome (parseState * option error)) :=
  match fuel with
  | O => None
  | S fuel' =>
      match tryRead header reader buffer n with
      | None => None
      | Some Panic => Some Panic
      | Some (Return (st, None)) => Some (Return (st, None))
      | Some (Return ((header, reader, buffer), Some e)) =>
          if negb (error_eqb e errNeedMore)
          then Some (Return ((header, reader, bytebufferpool.Reset buffer), Some e))
          else parseLoop fuel' header reader buffer (Buffered reader + 1)
      end
  end.

Definition ParseHeaderFields (fuel : nat) (header : Header) (reader : Reader)
    (buffer : ByteBuffer) : option (outcome (parseState * option error)) :=
  parseLoop fuel header reader buffer 1.

End header.

(** ** Package [proxy]: the handler

    [do], [tunnelConnect] and [decryptConnect] call into packages that are
    not among the sources ([http], [superproxy], [transport], [usage],
    [util], [hijack], [cert], the pools) and into [net] and [crypto/tls].
    What such a call answers is given by an environment; that the call is
    made is recorded, in order, in a trace.  A function returns its trace
    and its error. *)

Module proxy.

(** Modelled from the spec: [http.HostInfo] is not among the sources.
    "[{ hostWithPort, domain, port, ip? }]"; "if parse fails, [hostWithPort]
    remains empty". *)
Record HostInfo : Type :=
  { hostWithPort : string; domain : string; port : string; ip : option string }.

Definition HostWithPort (hostInfo : HostInfo) : string := hostWithPort hostInfo.
Definition Domain (hostInfo : HostInfo) : string := domain hostInfo.

(** A [*superproxy.SuperProxy] and a [*http.Request], by what the handler
    reads of them. *)
Record SuperProxy : Type := { proxyName : string }.

Record Request : Type :=
  { reqHostInfo : HostInfo; reqMethod : string; reqPath : string }.

(** The usage counters updates go to. *)
Inductive counter : Type :=
| ProxyUsage                      (* the [usage] argument *)
| ClientUsage                     (* [client.Usage] *)
| SuperProxyUsage (p : SuperProxy).  (* [superProxy.Usage] *)

(** The calls the handler makes. *)
Inductive call : Type :=
| ClientWrite (p : byteslice)     (* [util.WriteWithValidation(c, p)] on the client connection *)
| URLProxy (hostInfo : HostInfo)
| LookupIP (domain : string)
| SetIP
| AcquireToken (p : SuperProxy)
| PushBackToken (p : SuperProxy)
| MakeTunnel (p : SuperProxy) (targetWithPort : string)
| Dial (hostWithPort : string)
| CloseTunnelConn
| Forward (toOrigin : bool)       (* [transport.Forward], to the origin or to the client *)
| Wait
| AddIncomingSize (c : counter) (n : Z)
| AddOutgoingSize (c : counter) (n : Z)
| AcquireWriter | ReleaseWriter | Flush
| AcquireResponse | ReleaseResponse | ResponseWriteTo
| GetHijacker | PutHijacker | SetHijacker | HijackResponse
| HijackClientDo
| SetProxy
| ClientDo
| SignFakeCert (host : string)
| TLSHandshake
| CloseTLSConn
| AcquireReader | ReleaseReader
| AcquireRequest | ReleaseRequest
| ReadFrom
| SetTLS (serverName : string)
| SetHostWithPort (hostWithPort : string).

(** A call made in line, or a goroutine started with the calls it makes. *)
Inductive event : Type :=
| Do (c : call)
| Go (body : list call).

(** What the calls answer. *)
Record Env : Type :=
  { ParseHostWithPort : string -> HostInfo;
    urlProxy : HostInfo -> option SuperProxy;        (* [h.URLProxy] *)
    lookupIP : string -> option string;              (* [h.lookupIP], [None] for nil *)
    SplitHostPort : string -> string * string * option error;
    ParseIP : string -> bool;                        (* [net.ParseIP(host) != nil] *)
    makeTunnel : option error;                       (* [err] of [superProxy.MakeTunnel] *)
    dial : option error;                             (* [err] of [transport.Dial] *)
    writeClient : byteslice -> option error;         (* [err] of a write to the client *)
    forwardToOrigin : Z * option error;              (* [transport.Forward(tunnelConn, conn, idle)] *)
    forwardToClient : Z * option error;              (* [transport.Forward(conn, tunnelConn, idle)] *)
    responseWriteTo : option error;                  (* [resp.WriteTo(writer)] *)
    hijackResponse : bool;                           (* [hijacker.HijackResponse() != nil] *)
    hijackClientDo : Z * Z * Z * option error;       (* [h.hijackClient.Do] *)
    clientDo : Z * Z * Z * option error;             (* [client.Do(req, resp)] *)
    GenCert : option error;                          (* [err] of [cert.GenCert] *)
    helloServerName : option string;                 (* [hello.ServerName], if [GetCertificate] was called *)
    handshake : option error;                        (* [conn.Handshake()] *)
    readFrom : Z * option error }.                   (* [req.ReadFrom(reader)] *)

Definition httpTunnelMadeOk : byteslice := bs "HTTP/1.1 200 OK" ++ crlf ++ crlf.
Definition httpTunnelMadeError : byteslice :=
  bs "HTTP/1.1 501 Bad Gateway" ++ crlf ++ crlf.

Definition httpTunnelMadeOkBytes : byteslice := httpTunnelMadeOk.
Definition httpTunnelMadeErrorBytes : byteslice := httpTunnelMadeError.

(** [uint64(x)] *)
Definition uint64 (x : Z) : Z := x mod 2 ^ 64.

Definition httpTunnelMadeOkSize : Z := uint64 (len httpTunnelMadeOkBytes).
Definition httpTunnelMadeErrorSize : Z := uint64 (len httpTunnelMadeErrorBytes).

(** [sendHTTPSProxyStatusOK] and [sendHTTPSProxyStatusBadGateway]: the
    call, and the error it returns. *)
Definition sendHTTPSProxyStatusOK (env : Env) : list event * option error :=
  ([Do (ClientWrite httpTunnelMadeOkBytes)], writeClient env httpTunnelMadeOkBytes).

Definition sendHTTPSProxyStatusBadGateway (env : Env) : list event * option error :=
  ([Do (ClientWrite httpTunnelMadeErrorBytes)],
   writeClient env httpTunnelMadeErrorBytes).

(** The deferred goroutine of [tunnelConnect] that updates the counters. *)
Definition tunnelUsage (usage : bool) (superProxy : option SuperProxy)
    (proxyIncomingSize proxyOutgoingSize
     superProxyIncomingSize superProxyOutgoingSize : Z) : event :=
  Go ((if usage
       then [AddIncomingSize ProxyUsage proxyIncomingSize;
             AddOutgoingSize ProxyUsage proxyOutgoingSize]
       else [])
      ++ match superProxy with
         | Some p => [AddOutgoingSize (SuperProxyUsage p) superProxyOutgoingSize;
                      AddIncomingSize (SuperProxyUsage p) superProxyIncomingSize]
         | None => []
         end).

(** [tunnelConnect]; [usage] tells whether the [usage] argument is not
    nil.  The deferred calls come last, the latest deferred first. *)
Definition tunnelConnect (env : Env) (usage : bool) (hostWithPort : string)
  : list event * option error :=
  let hostInfo := ParseHostWithPort env hostWithPort in
  let superProxy := urlProxy env hostInfo in
  let t0 := [Do (URLProxy hostInfo)] in
  if (String.length (HostWithPort hostInfo) =? 0)%nat
  then (t0, Some ErrSessionUnavailable)
  else
    let hostWithPort := HostWithPort hostInfo in
    let targetWithPort := hostWithPort in
    let '(t1, targetWithPort, pushBack) :=
      match superProxy with
      | Some p =>
          let '(host, port, _) := SplitHostPort env hostWithPort in
          let '(tl, targetWithPort) :=
            if (0 <? String.length host)%nat && negb (ParseIP env host) then
              match lookupIP env host with
              | Some ip => ([Do (LookupIP host)], (ip ++ ":" ++ port)%string)
              | None => ([Do (LookupIP host)], targetWithPort)
              end
            else ([], targetWithPort) in
          (tl ++ [Do (AcquireToken p)], targetWithPort, [Do (PushBackToken p)])
      | None => ([], targetWithPort, [])
      end in
    let '(t2, err) :=
      match superProxy with
      | Some p => ([Do (MakeTunnel p targetWithPort)], makeTunnel env)
      | None => ([Do (Dial hostWithPort)], dial env)
      end in
    match err with
    | Some err =>
        let '(t3, _) := sendHTTPSProxyStatusBadGateway env in
        let proxyOutgoingSize := uint64 (0 + httpTunnelMadeErrorSize) in
        (t0 ++ t1 ++ t2 ++ t3
         ++ [tunnelUsage usage superProxy 0 proxyOutgoingSize 0 0] ++ pushBack,
         Some (ErrWrapper err ("error occurred when dialing to host " ++ hostWithPort)))
    | None =>
        let '(t3, errOk) := sendHTTPSProxyStatusOK env in
        match errOk with
        | Some err =>
            (t0 ++ t1 ++ t2 ++ t3
             ++ [Do CloseTunnelConn; tunnelUsage usage superProxy 0 0 0 0]
             ++ pushBack,
             Some (ErrWrapper err "error occurred when handshaking with client"))
        | None =>
            let proxyOutgoingSize := uint64 (0 + httpTunnelMadeOkSize) in
            let '(superProxyOutgoingTrafficSize, superProxyWriteErr) :=
              forwardToOrigin env in
            let '(superProxyIncomingTrafficSize, superProxyReadErr) :=
              forwardToClient env in
            let t4 := [Go [Forward true]; Go [Forward false]; Do Wait] in
            let proxyIncomingSize := uint64 (0 + uint64 superProxyOutgoingTrafficSize) in
            let proxyOutgoingSize :=
              uint64 (proxyOutgoingSize + uint64 superProxyIncomingTrafficSize) in
            let superProxyIncomingSize := uint64 (0 + uint64 superProxyIncomingTrafficSize) in
            let superProxyOutgoingSize := uint64 (0 + uint64 superProxyOutgoingTrafficSize) in
            let t5 :=
              [Do CloseTunnelConn;
               tunnelUsage usage superProxy proxyIncomingSize proxyOutgoingSize
                 superProxyIncomingSize superProxyOutgoingSize] ++ pushBack in
            match superProxyWriteErr, superProxyReadErr with
            | Some e, _ =>
                (t0 ++ t1 ++ t2 ++ t3 ++ t4 ++ t5,
                 Some (ErrWrapper e "error occurred when tunneling client request to client"))
            | None, Some e =>
                (t0 ++ t1 ++ t2 ++ t3 ++ t4 ++ t5,
                 Some (ErrWrapper e "error occurred when tunneling client response to client"))
            | None, None => (t0 ++ t1 ++ t2 ++ t3 ++ t4 ++ t5, None)
            end
        end
    end.

(** [do]: the request is the one read from the connection. *)
Definition do (env : Env) (req : Request) : list event * option error :=
  let t0 := [Do AcquireWriter; Do AcquireResponse; Do ResponseWriteTo] in
  match responseWriteTo env with
  | Some err => (t0 ++ [Do ReleaseResponse; Do Flush; Do ReleaseWriter], Some err)
  | None =>
      let t1 := [Do GetHijacker; Do SetHijacker; Do SetHijacker; Do HijackResponse] in
      if hijackResponse env then
        let '(reqReadSize, _, respSize, err) := hijackClientDo env in
        (t0 ++ t1
         ++ [Do HijackClientDo;
             Go [AddIncomingSize ClientUsage (uint64 reqReadSize);
                 AddOutgoingSize ClientUsage (uint64 respSize)]]
         ++ [Do PutHijacker; Do ReleaseResponse; Do Flush; Do ReleaseWriter],
         err)
      else
        let superProxy := urlProxy env (reqHostInfo req) in
        let t2 := [Do (URLProxy (reqHostInfo req))] in
        if (String.length (HostWithPort (reqHostInfo req)) =? 0)%nat then
          (t0 ++ t1 ++ t2
           ++ [Do PutHijacker; Do ReleaseResponse; Do Flush; Do ReleaseWriter],
           Some ErrSessionUnavailable)
        else
          let '(t3, pushBack) :=
            match superProxy with
            | Some p =>
                let domain := Domain (reqHostInfo req) in
                ((if (0 <? String.length domain)%nat
                  then [Do (LookupIP domain); Do SetIP] else [])
                 ++ [Do (AcquireToken p)],
                 [Do (PushBackToken p)])
            | None => ([], [])
            end in
          let '(reqReadNum, reqWriteNum, respNum, err) := clientDo env in
          (t0 ++ t1 ++ t2 ++ [Do SetProxy] ++ t3
           ++ [Do ClientDo;
               Go ([AddIncomingSize ClientUsage (uint64 reqReadNum);
                    AddOutgoingSize ClientUsage (uint64 respNum)]
                   ++ match superProxy with
                      | Some p =>
                          [AddIncomingSize (SuperProxyUsage p) (uint64 respNum);
                           AddOutgoingSize (SuperProxyUsage p) (uint64 reqWriteNum)]
                      | None => []
                      end)]
           ++ pushBack
           ++ [Do PutHijacker; Do ReleaseResponse; Do Flush; Do ReleaseWriter],
           err)
  end.

Definition handleHTTPConns (env : Env) (req : Request) : list event * option error :=
  do env req.

(** [signFakeCert]: the error it returns. *)
Definition signFakeCert (env : Env) (host : string) : option error :=
  let '(_, _, err) := SplitHostPort env host in
  match err with
  | Some err => Some err
  | None => GenCert env
  end.

Definition noServerName : error :=
  errors_New "client didn't provide a target server name".

(** The closure [handShake] of [decryptConnect]: its calls, the
    [targetServerName] it leaves (what the [GetCertificate] callback stored
    during the TLS handshake, the empty string if it was not called) and
    its error. *)
Definition handShake (env : Env) (usage : bool)
  : list event * string * option error :=
  let '(tw, errOk) := sendHTTPSProxyStatusOK env in
  match errOk with
  | Some err =>
      (tw, ""%string, Some (ErrWrapper err "proxy fails to handshake with client"))
  | None =>
      let tu := if usage
                then [Go [AddOutgoingSize ProxyUsage httpTunnelMadeOkSize]]
                else [] in
      let targetServerName := match helloServerName env with
                              | Some name => name
                              | None => ""%string
                              end in
      match handshake env with
      | Some err =>
          (tw ++ tu ++ [Do TLSHandshake; Do CloseTLSConn], targetServerName,
           Some (ErrWrapper err "fake tls server fails to handshake with client"))
      | None => (tw ++ tu ++ [Do TLSHandshake], targetServerName, None)
      end
  end.

(** [decryptConnect].  The request read is [req]; [SetHostWithPort] gives
    it the host of the tunnel. *)
Definition decryptConnect (env : Env) (usage : bool) (hostWithPort : string)
    (req : Request) : list event * option error :=
  match signFakeCert env hostWithPort with
  | Some err =>
      let '(t1, _) := sendHTTPSProxyStatusBadGateway env in
      ([Do (SignFakeCert hostWithPort)] ++ t1
       ++ (if usage then [Go [AddOutgoingSize ProxyUsage httpTunnelMadeErrorSize]]
           else []),
       Some (ErrWrapper err "fail to sign fake certificate for client"))
  | None =>
      let t0 := [Do (SignFakeCert hostWithPort)] in
      let '(t1, targetServerName, err) := handShake env usage in
      let err :=
        if (String.length targetServerName =? 0)%nat then Some noServerName
        else err in
      match err with
      | Some err => (t0 ++ t1, Some err)
      | None =>
          let t2 := [Do AcquireReader; Do AcquireRequest; Do ReadFrom] in
          let '(rn, errRead) := readFrom env in
          match errRead with
          | Some err =>
              (t0 ++ t1 ++ t2
               ++ [Do ReleaseRequest; Do ReleaseReader; Do CloseTLSConn],
               Some (ErrWrapper err "fail to read fake tls server request header"))
          | None =>
              let tu := if usage
                        then [Go [AddIncomingSize ProxyUsage (uint64 rn)]]
                        else [] in
              let req :=
                {| reqHostInfo := ParseHostWithPort env hostWithPort;
                   reqMethod := reqMethod req; reqPath := reqPath req |} in
              let '(t3, err) := do env req in
              (t0 ++ t1 ++ t2 ++ tu
               ++ [Do (SetTLS targetServerName); Do (SetHostWithPort hostWithPort)]
               ++ t3
               ++ [Do ReleaseRequest; Do ReleaseReader; Do CloseTLSConn],
               err)
          end
      end
  end.

(** [handleHTTPSConns]; [decrypt] is [h.ShouldDecryptHost(hostWithPort)]. *)
Definition handleHTTPSConns (env : Env) (decrypt : bool) (usage : bool)
    (hostWithPort : string) (req : Request) : list event * option error :=
  if decrypt then decryptConnect env usage hostWithPort req
  else tunnelConnect env usage hostWithPort.

End proxy.

(** ** Package [proxy]: the earlier [handler]

    The sources also hold the handler as it was before routing, hijacking
    and usage counters: the type [handler], with [tunnelConnect],
    [decryptConnect] and [signFakeCert] of its own.  Its calls and what
    they answer are modelled as for [Handler]. *)

Module handler.

(** The errors [handler] returns are made by [fmt.Errorf] with one or two
    [%s] around the error of a call. *)
Inductive herror : Type :=
| Callee (e : error)
| Errorf1 (format : string) (e : herror)                (* [fmt.Errorf(format, err)] *)
| Errorf2 (format : string) (s : string) (e : herror).  (* [fmt.Errorf(format, s, err)] *)

Inductive call : Type :=
| Write (p : byteslice)            (* [c.Write(p)] on the client connection *)
| Dial (host : string)
| CloseTargetConn
| Forward (toTarget : bool)        (* [transport.Forward], to the target or to the client *)
| Wait
| SignFakeCert (host : string)
| TLSHandshake
| CloseTLSConn
| AcquireReader | ReleaseReader
| AcquireRequest | ReleaseRequest
| InitWithTLSClientReader (hostWithPort targetServerName : string)
| AcquireWriter | ReleaseWriter | Flush
| AcquireResponse | ReleaseResponse
| InitWithWriter
| ClientDo.

Inductive event : Type :=
| Do (c : call)
| Go (c : call).

Record Env : Type :=
  { dial : string -> option error;                    (* [err] of [transport.Dial] *)
    write : byteslice -> option error;                (* [err] of [c.Write] *)
    forwardToTarget : option error;                   (* [transport.Forward] to the target *)
    forwardToClient : option error;                   (* [transport.Forward] to the client *)
    SplitHostPort : string -> string * string * option error;
    GenCert : string -> option error;                 (* [err] of [cert.GenCert] for a domain *)
    helloServerName : option string;                  (* [hello.ServerName], if [GetCertificate] was called *)
    handshake : option error;                         (* [conn.Handshake()] *)
    initWithTLSClientReader : option error;
    initWithWriter : option error;
    clientDo : option error }.

Definition statusOK : byteslice := bs "HTTP/1.1 200 OK" ++ crlf ++ crlf.
Definition statusBadGateway : byteslice :=
  bs "HTTP/1.1 501 Bad Gateway" ++ crlf ++ crlf.

Definition sendHTTPSProxyStatusOK (env : Env) : list event * option error :=
  ([Do (Write statusOK)], write env statusOK).

Definition sendHTTPSProxyStatusBadGateway (env : Env) : list event * option error :=
  ([Do (Write statusBadGateway)], write env statusBadGateway).

(** The closure [errorWrapper] of both methods. *)
Definition errorWrapper (msg : string) (err : herror) : herror :=
  Errorf2 "%s: %s" msg err.

Definition tunnelConnect (env : Env) (host : string)
  : list event * option herror :=
  match dial env host with
  | Some err =>
      let '(t1, _) := sendHTTPSProxyStatusBadGateway env in
      ([Do (Dial host)] ++ t1,
       Some (errorWrapper ("error occurred when dialing to host" ++ host)
               (Callee err)))
  | None =>
      let '(t1, errOk) := sendHTTPSProxyStatusOK env in
      match errOk with
      | Some err =>
          ([Do (Dial host)] ++ t1 ++ [Do CloseTargetConn],
           Some (errorWrapper "error occurred when handshaking with client"
                   (Callee err)))
      | None =>
          let t2 := [Go (Forward true); Go (Forward false); Do Wait;
                     Do CloseTargetConn] in
          ([Do (Dial host)] ++ t1 ++ t2,
           match forwardToTarget env, forwardToClient env with
           | Some err1, _ =>
               Some (errorWrapper
                       "error occurred when tunneling client request to client"
                       (Callee err1))
           | None, Some err2 =>
               Some (errorWrapper
                       "error occurred when tunneling client response to client"
                       (Callee err2))
           | None, None => None
           end)
      end
  end.

Definition signFakeCert (env : Env) (host : string) : option herror :=
  let '(domain, _, err) := SplitHostPort env host in
  match err with
  | Some err =>
      Some (Errorf2 "get host's %s domain with error %s" host (Callee err))
  | None =>
      match GenCert env domain with
      | Some err2 =>
          Some (Errorf2 "sign %s fake cert with error %s" domain (Callee err2))
      | None => None
      end
  end.

Definition noServerName : herror :=
  Callee (errors_New "client didn't provide a target server name").

(** The closure [handShake]: its calls, [targetServerName] as the
    [GetCertificate] callback left it, and its error. *)
Definition handShake (env : Env) : list event * string * option herror :=
  let '(tw, errOk) := sendHTTPSProxyStatusOK env in
  match errOk with
  | Some err =>
      (tw, ""%string, Some (Errorf1 "proxy handshaking error: %s" (Callee err)))
  | None =>
      let targetServerName := match helloServerName env with
                              | Some name => name
                              | None => ""%string
                              end in
      match handshake env with
      | Some err =>
          (tw ++ [Do TLSHandshake; Do CloseTLSConn], targetServerName,
           Some (Errorf1 "fake server tls handshaking error: %s" (Callee err)))
      | None => (tw ++ [Do TLSHandshake], targetServerName, None)
      end
  end.

Definition decryptConnect (env : Env) (hostWithPort : string)
  : list event * option herror :=
  match signFakeCert env hostWithPort with
  | Some err =>
      let '(t1, _) := sendHTTPSProxyStatusBadGateway env in
      ([Do (SignFakeCert hostWithPort)] ++ t1,
       Some (errorWrapper "error occurred when signing fake certificate for client"
               err))
  | None =>
      let t0 := [Do (SignFakeCert hostWithPort)] in
      let '(t1, targetServerName, err) := handShake env in
      let err :=
        if (String.length targetServerName =? 0)%nat then Some noServerName
        else err in
      match err with
      | Some err =>
          (t0 ++ t1,
           Some (errorWrapper "error occurred when handshaking with client" err))
      | None =>
          let t2 := [Do AcquireReader; Do AcquireRequest;
                     Do (InitWithTLSClientReader hostWithPort targetServerName)] in
          match initWithTLSClientReader env with
          | Some err =>
              (t0 ++ t1 ++ t2
               ++ [Do ReleaseRequest; Do ReleaseReader; Do CloseTLSConn],
               Some (errorWrapper "fail to read MITMed https request header"
                       (Callee err)))
          | None =>
              let t3 := [Do AcquireWriter; Do AcquireResponse; Do InitWithWriter] in
              let released :=
                [Do ReleaseResponse; Do Flush; Do ReleaseWriter;
                 Do ReleaseRequest; Do ReleaseReader; Do CloseTLSConn] in
              match initWithWriter env with
              | Some err =>
                  (t0 ++ t1 ++ t2 ++ t3 ++ released,
                   Some (errorWrapper "fail to init MITMed https response header"
                           (Callee err)))
              | None =>
                  (t0 ++ t1 ++ t2 ++ t3 ++ [Do ClientDo] ++ released,
                   match clientDo env with
                   | Some e =>
                       Some (errorWrapper
                               "fail to make MITMed https client request "
                               (Callee e))
                   | None => None
                   end)
              end
          end
      end
  end.

End handler.

(** * Vocabulary of the properties *)

Section Vocabulary.

Import header bytebufferpool.

(** A line as the scanner takes it: bytes without a line feed, then the line
    feed. *)
Definition IsLine (l : byteslice) : Prop :=
  exists body, l = body ++ [LF] /\ ~ In LF body.

(** The test that ends the header block: the line is ["\n"] or ["\r\n"]. *)
Definition endsBlock (l : byteslice) : bool :=
  ((len l =? 2) && header.firstIs l CR) || (len l =? 1).

(** The lines of [b]: cut after each line feed; bytes after the last line
    feed, if any, make a last piece. *)
Fixpoint splitLines (b : byteslice) : list byteslice :=
  match b with
  | [] => []
  | c :: b' =>
      if Byte.eqb c LF then [c] :: splitLines b'
      else match splitLines b' with
           | [] => [[c]]
           | l :: ls => (c :: l) :: ls
           end
  end.

(** A line that is kept: neither a [Connection] line nor a proxy header. *)
Definition kept (x : byteslice) : bool :=
  negb (isConnectionHeader x) && negb (isProxyHeader x).

(** [Scan b h bf ls b' h' bf' e]: from the bytes [b], the header [h] and the
    buffer [bf], the loop "read rest lines" goes through the lines [ls],
    leaves the bytes [b'], the header [h'] and the buffer [bf'], and ends
    with [e]. *)
Inductive Scan :
  byteslice -> Header -> ByteBuffer ->
  list byteslice -> byteslice -> Header -> ByteBuffer -> option error -> Prop :=
| Scan_more b h bf :
    bytes.IndexByte b LF < 0 ->
    Scan b h bf [] b h (bytebufferpool.Reset bf) (Some errNeedMore)
| Scan_fail l rest h bf l' h' bf' e :
    IsLine l ->
    parseThenWriteBuffer l h bf = (l', h', bf', Some e) ->
    Scan (l ++ rest) h bf [l] (l' ++ rest) h' (bytebufferpool.Reset bf') (Some e)
| Scan_done l rest h bf l' h' bf' :
    IsLine l ->
    parseThenWriteBuffer l h bf = (l', h', bf', None) ->
    endsBlock l' = true ->
    Scan (l ++ rest) h bf [l] (l' ++ rest) h' bf' None
| Scan_next l rest h bf l' h' bf' ls rest' h'' bf'' e :
    IsLine l ->
    parseThenWriteBuffer l h bf = (l', h', bf', None) ->
    endsBlock l' = false ->
    Scan rest h' bf' ls rest' h'' bf'' e ->
    Scan (l ++ rest) h bf (l :: ls) (l' ++ rest') h'' bf'' e.

(** The header length a scan returns. *)
Definition scanned (n : Z) (ls : list byteslice) (e : option error) : Z :=
  match e with
  | None => n + len (concat ls)
  | Some _ => 0
  end.

(** The three ways of [readHeaders]: no line yet; an empty first line,
    with header and buffer untouched; or a scan of the lines from a buffer
    reset first. *)
Inductive ReadCase (buf : byteslice) (h : Header) (bf : ByteBuffer)
  : header.readResult -> Prop :=
| Read_more :
    bytes.IndexByte buf LF < 0 ->
    ReadCase buf h bf (buf, h, bf, 0, Some errNeedMore)
| Read_empty l rest :
    buf = l ++ rest -> IsLine l -> endsBlock l = true ->
    ReadCase buf h bf (buf, h, bf, len l, None)
| Read_scan l rest ls b' h' bf' e :
    buf = l ++ rest -> IsLine l -> endsBlock l = false ->
    Scan buf h (bytebufferpool.Reset bf) (l :: ls) b' h' bf' e ->
    ReadCase buf h bf (b', h', bf', scanned 0 (l :: ls) e, e).

(** The header after one line; the buffer has no part in it. *)
Definition headerAfter (l : byteslice) (h : Header) : Header :=
  let '(_, h', _, _) := parseThenWriteBuffer l h (MakeFixedSizeByteBuffer 0) in h'.

(** The bytes of a line after the scanner went over it. *)
Definition lineAfter (l : byteslice) : byteslice :=
  if isConnectionHeader l then changeToLowerCase l else l.

(** The lines of a header block: the last one, and no other, ends it. *)
Fixpoint isBlock (ls : list byteslice) : bool :=
  match ls with
  | [] => false
  | l :: ls' =>
      if endsBlock l then match ls' with [] => true | _ :: _ => false end
      else isBlock ls'
  end.

Definition headersAfter (ls : list byteslice) (h : Header) : Header :=
  fold_left (fun h l => headerAfter l h) ls h.

(** The value a line declares after its first [:], as the code reads it;
    [0] for a line without [:]. *)
Definition declaredLength (l : byteslice) : Z :=
  let i := bytes.IndexByte l ":"%byte in
  if i >? 0 then parseLength l i else 0.

Definition chunked : byteslice := bs "chunked".
Definition identity : byteslice := bs "identity".

(** A [Content-Length] line with a positive value. *)
Definition setsLength (l : byteslice) : bool :=
  isContentLengthHeader l && (declaredLength l >? 0).

(** A [Transfer-Encoding] line that has [identity] and not [chunked]. *)
Definition setsIdentity (l : byteslice) : bool :=
  isTransferEncodingHeader l
  && negb (bytes.Contains l chunked) && bytes.Contains l identity.

(** A [Transfer-Encoding] line that has [chunked]. *)
Definition setsChunked (l : byteslice) : bool :=
  isTransferEncodingHeader l && bytes.Contains l chunked.

(** *** Inputs of the examples *)

(** A header line with its CR LF; a block is its lines, then [crlf]. *)
Definition line (l : string) : byteslice := bs l ++ crlf.

(** A header after [Reset]. *)
Definition freshHeader : Header :=
  {| isConnectionClose := false; contentLength := 0 |}.

(** A [Transfer-Encoding: chunked] line after a [Content-Length] line. *)
Definition chunkedLast : byteslice :=
  line "Content-Length: 5" ++ line "Transfer-Encoding: chunked" ++ line "Host: example.test" ++ crlf.

(** The same two lines the other way round. *)
Definition chunkedFirst : byteslice :=
  line "Transfer-Encoding: chunked" ++ line "Content-Length: 5" ++ crlf.

(** Two [Content-Length] lines. *)
Definition twoLengths : byteslice :=
  line "Content-Length: 5" ++ line "Content-Length: 7" ++ crlf.

Definition oneLength : byteslice :=
  line "Host: example.test" ++ line "Content-Length: 42" ++ line "Content-Length: 0" ++ crlf.

(** [Transfer-Encoding: identity], then a [Content-Length] line. *)
Definition identityFirst : byteslice :=
  line "Transfer-Encoding: identity" ++ line "Content-Length: 7" ++ crlf.

Definition identityLast : byteslice :=
  line "Content-Length: 7" ++ line "Transfer-Encoding: identity" ++ crlf.

(** The header names the scanner strips. *)
Definition strippedNames : list byteslice := connectionHeader :: proxyHeaders.

(** A reader that has read nothing yet from the connection [script]. *)
Definition newReader (size : nat) (script : bufio.Source) : bufio.Reader :=
  {| bufio.rd := script; bufio.size := size;
     bufio.buffered := []; bufio.err := None |}.

(** A buffer that holds [content] from an earlier use. *)
Definition usedBuffer (content : string) (capacity : nat) : ByteBuffer :=
  {| B := bs content; capacity := capacity |}.

(** Scenario 1 of the spec, the header lines of the request. *)
Definition plainRequest : byteslice :=
  line "Host: example.test" ++ line "Proxy-Connection: keep-alive"
  ++ line "Accept-Encoding: gzip" ++ line "Connection: close" ++ crlf.

(** Scenario 6 of the spec. *)
Definition shortScenario : byteslice :=
  line "GET / HTTP/1.1" ++ line "X: y" ++ crlf.

(** [IsLine], decided. *)
Definition isLineb (l : byteslice) : bool :=
  match rev l with
  | c :: body => Byte.eqb c LF && negb (existsb (Byte.eqb LF) body)
  | [] => false
  end.

(** A complete header block: whole lines, the last of which, and no other,
    is empty. *)
Definition completeBlock (blk : byteslice) : bool :=
  forallb isLineb (splitLines blk) && isBlock (splitLines blk).

(** The block that is the empty line alone, and a block with nothing to
    strip. *)
Definition emptyBlock : byteslice := crlf.

Definition cleanBlock : byteslice :=
  line "Host: example.test" ++ line "Content-Length: 2"
  ++ line "User-Agent: curl" ++ crlf.

(** A connection that sends the beginning of a header line and is then
    closed by the peer. *)
Definition truncatedRequest : bufio.Source := [(bs "Host: example.test", None)].

(** A header line longer than the buffer of the reader. *)
Definition longLine : bufio.Source :=
  [(line "Cookie: 0123456789abcdef0123456789abcdef" ++ crlf, None)].

(** The bytes the reader has not given out yet: its window, then what the
    connection still holds. *)
Definition unread (r : bufio.Reader) : byteslice :=
  bufio.buffered r ++ concat (map fst (bufio.rd r)).

(** The same bytes but for the case of letters: [changeToLowerCase] works in
    the window of the reader. *)
Definition sameCase (a b : byteslice) : Prop :=
  map toLower a = map toLower b.

(** The window is within the buffer of the reader. *)
Definition inBuffer (r : bufio.Reader) : Prop :=
  (length (bufio.buffered r) <= bufio.size r)%nat.

(** *** The handler: what a trace shows *)

(** The writes of the handler to the client connection, in order. *)
Definition clientWrites (t : list proxy.event) : list byteslice :=
  flat_map (fun e => match e with
                     | proxy.Do (proxy.ClientWrite p) => [p]
                     | _ => []
                     end) t.

Definition isForward (c : proxy.call) : bool :=
  match c with
  | proxy.Forward _ => true
  | _ => false
  end.

(** The event starts or is a [transport.Forward]: tunneled bytes. *)
Definition forwards (e : proxy.event) : bool :=
  match e with
  | proxy.Do c => isForward c
  | proxy.Go body => existsb isForward body
  end.

Definition outgoingOf (c : proxy.call) : list Z :=
  match c with
  | proxy.AddOutgoingSize proxy.ProxyUsage n => [n]
  | _ => []
  end.

(** What is added to the outgoing counter of [usage], in line or by a
    goroutine. *)
Definition outgoingAdded (t : list proxy.event) : list Z :=
  flat_map (fun e => match e with
                     | proxy.Do c => outgoingOf c
                     | proxy.Go body => flat_map outgoingOf body
                     end) t.

(** The error of opening the origin connection: of [MakeTunnel] when an
    upstream proxy is routed, of [Dial] otherwise. *)
Definition openError (env : proxy.Env) (hostWithPort : string) : option error :=
  match proxy.urlProxy env (proxy.ParseHostWithPort env hostWithPort) with
  | Some _ => proxy.makeTunnel env
  | None => proxy.dial env
  end.

(** Calls that reach the origin, take an upstream token, or write to the
    client ([client.Do] and [hijackClient.Do] write the response). *)
Definition reachesOut (c : proxy.call) : bool :=
  match c with
  | proxy.ClientWrite _ | proxy.Dial _ | proxy.MakeTunnel _ _
  | proxy.AcquireToken _ | proxy.ClientDo | proxy.HijackClientDo
  | proxy.Forward _ => true
  | _ => false
  end.

Definition quiet (t : list proxy.event) : bool :=
  forallb (fun e => match e with
                    | proxy.Do c => negb (reachesOut c)
                    | proxy.Go body => forallb (fun c => negb (reachesOut c)) body
                    end) t.

(** Calls that read the decrypted request or go to the origin. *)
Definition readsOrContacts (c : proxy.call) : bool :=
  match c with
  | proxy.AcquireReader | proxy.ReadFrom | proxy.ClientDo | proxy.HijackClientDo
  | proxy.Dial _ | proxy.MakeTunnel _ _ | proxy.URLProxy _ => true
  | _ => false
  end.

Definition stopsBeforeRequest (t : list proxy.event) : bool :=
  forallb (fun e => match e with
                    | proxy.Do c => negb (readsOrContacts c)
                    | proxy.Go body => forallb (fun c => negb (readsOrContacts c)) body
                    end) t.

(** An environment where nothing fails and no upstream proxy is routed;
    [parse] is [ParseHostWithPort]. *)
Definition plainEnv (parse : string -> proxy.HostInfo) : proxy.Env :=
  {| proxy.ParseHostWithPort := parse;
     proxy.urlProxy := fun _ => None;
     proxy.lookupIP := fun _ => None;
     proxy.SplitHostPort := fun s => (s, "443"%string, None);
     proxy.ParseIP := fun _ => false;
     proxy.makeTunnel := None;
     proxy.dial := None;
     proxy.writeClient := fun _ => None;
     proxy.forwardToOrigin := (0, None);
     proxy.forwardToClient := (0, None);
     proxy.responseWriteTo := None;
     proxy.hijackResponse := false;
     proxy.hijackClientDo := (0, 0, 0, None);
     proxy.clientDo := (0, 0, 0, None);
     proxy.GenCert := None;
     proxy.helloServerName := None;
     proxy.handshake := None;
     proxy.readFrom := (0, None) |}.

Definition parseOk (s : string) : proxy.HostInfo :=
  {| proxy.hostWithPort := s; proxy.domain := s;
     proxy.port := "443"%string; proxy.ip := None |}.

(** A parse that fails: [hostWithPort] stays empty. *)
Definition parseFails (s : string) : proxy.HostInfo :=
  {| proxy.hostWithPort := ""%string; proxy.domain := ""%string;
     proxy.port := ""%string; proxy.ip := None |}.

(** The same environment with a dial that fails. *)
Definition dialFails (env : proxy.Env) : proxy.Env :=
  {| proxy.ParseHostWithPort := proxy.ParseHostWithPort env;
     proxy.urlProxy := proxy.urlProxy env;
     proxy.lookupIP := proxy.lookupIP env;
     proxy.SplitHostPort := proxy.SplitHostPort env;
     proxy.ParseIP := proxy.ParseIP env;
     proxy.makeTunnel := proxy.makeTunnel env;
     proxy.dial := Some (conn_error 111);
     proxy.writeClient := proxy.writeClient env;
     proxy.forwardToOrigin := proxy.forwardToOrigin env;
     proxy.forwardToClient := proxy.forwardToClient env;
     proxy.responseWriteTo := proxy.responseWriteTo env;
     proxy.hijackResponse := proxy.hijackResponse env;
     proxy.hijackClientDo := proxy.hijackClientDo env;
     proxy.clientDo := proxy.clientDo env;
     proxy.GenCert := proxy.GenCert env;
     proxy.helloServerName := proxy.helloServerName env;
     proxy.handshake := proxy.handshake env;
     proxy.readFrom := proxy.readFrom env |}.

(** The same environment with a hijacker that answers the request. *)
Definition hijacks (env : proxy.Env) : proxy.Env :=
  {| proxy.ParseHostWithPort := proxy.ParseHostWithPort env;
     proxy.urlProxy := proxy.urlProxy env;
     proxy.lookupIP := proxy.lookupIP env;
     proxy.SplitHostPort := proxy.SplitHostPort env;
     proxy.ParseIP := proxy.ParseIP env;
     proxy.makeTunnel := proxy.makeTunnel env;
     proxy.dial := proxy.dial env;
     proxy.writeClient := proxy.writeClient env;
     proxy.forwardToOrigin := proxy.forwardToOrigin env;
     proxy.forwardToClient := proxy.forwardToClient env;
     proxy.responseWriteTo := proxy.responseWriteTo env;
     proxy.hijackResponse := true;
     proxy.hijackClientDo := (40, 0, 19, None);
     proxy.clientDo := proxy.clientDo env;
     proxy.GenCert := proxy.GenCert env;
     proxy.helloServerName := proxy.helloServerName env;
     proxy.handshake := proxy.handshake env;
     proxy.readFrom := proxy.readFrom env |}.

(** A request whose host did not parse. *)
Definition hostlessRequest : proxy.Request :=
  {| proxy.reqHostInfo := parseFails ""%string;
     proxy.reqMethod := "GET"%string; proxy.reqPath := "/"%string |}.

(** The events before the first write of the handler to the client. *)
Fixpoint beforeFirstWrite (t : list proxy.event) : list proxy.event :=
  match t with
  | [] => []
  | proxy.Do (proxy.ClientWrite _) :: _ => []
  | e :: t' => e :: beforeFirstWrite t'
  end.

Definition badGateway : byteslice := bs "HTTP/1.1 501 Bad Gateway" ++ crlf ++ crlf.
Definition tunnelOk : byteslice := bs "HTTP/1.1 200 OK" ++ crlf ++ crlf.

(** *** Decimals *)

Definition isDigit (d : byte) : bool :=
  let c := Z.of_N (Byte.to_N d) in (48 <=? c) && (c <=? 57).

(** One of the six ASCII spaces. *)
Definition asciiSpace (c : byte) : bool :=
  existsb (Byte.eqb c) [x09; x0a; x0b; x0c; x0d; x20].

(** The number a string of decimal digits writes, after [n]. *)
Definition decimalFrom (n : Z) (ds : byteslice) : Z :=
  fold_left (fun n d => n * 10 + (Z.of_N (Byte.to_N d) - 48)) ds n.

Definition decimalValue (ds : byteslice) : Z := decimalFrom 0 ds.

(** The test of the loop of [bufio.Peek]. *)
Definition peekMore (b : bufio.Reader) (n : Z) : bool :=
  (bufio.Buffered b <? n) && (bufio.Buffered b <? Z.of_nat (bufio.size b))
  && match bufio.err b with None => true | Some _ => false end.

(** *** More on the header

    The text of a [Content-Length] line that [strconv.ParseInt] is given. *)
Definition lengthText (l : byteslice) : byteslice :=
  strings.TrimSpace (slice_from l (bytes.IndexByte l ":"%byte + 1)).

(** A [Connection] line that has [close] in it, in any case of letters. *)
Definition saysClose (l : byteslice) : bool :=
  isConnectionHeader l && bytes.Contains (changeToLowerCase l) (bs "close").

(** A line that sets the framing of the body. *)
Definition setsFraming (l : byteslice) : bool :=
  setsLength l || setsChunked l || setsIdentity l.

(** The values [contentLength] takes: [-2], [-1], or a length that fits
    [int64]. *)
Definition framed (h : Header) : Prop := -2 <= contentLength h < 2 ^ 63.

(** [contentLength] after a line, from the value before it. *)
Definition framingAfter (v : Z) (l : byteslice) : Z :=
  if setsLength l then declaredLength l
  else if setsChunked l then -1
  else if setsIdentity l then -2
  else v.

(** *** More on the traces of the handler *)

(** The calls made in line, in order, and the goroutines started. *)
Definition inLine (t : list proxy.event) : list proxy.call :=
  flat_map (fun e => match e with
                     | proxy.Do c => [c]
                     | proxy.Go _ => []
                     end) t.

Definition started (t : list proxy.event) : list (list proxy.call) :=
  flat_map (fun e => match e with
                     | proxy.Do _ => []
                     | proxy.Go body => [body]
                     end) t.

(** What is done with the tokens of upstream proxies: [true] for
    [AcquireToken], [false] for [PushBackToken]. *)
Definition tokenCalls (t : list proxy.event) : list (bool * proxy.SuperProxy) :=
  flat_map (fun c => match c with
                     | proxy.AcquireToken p => [(true, p)]
                     | proxy.PushBackToken p => [(false, p)]
                     | _ => []
                     end) (inLine t).

(** The calls made while a token is held. *)
Fixpoint heldCalls (held : bool) (cs : list proxy.call) : list proxy.call :=
  match cs with
  | [] => []
  | proxy.AcquireToken _ :: cs' => heldCalls true cs'
  | proxy.PushBackToken _ :: cs' => heldCalls false cs'
  | c :: cs' => if held then c :: heldCalls held cs' else heldCalls held cs'
  end.

(** Calls that go through the upstream proxy when one is routed. *)
Definition upstream (c : proxy.call) : bool :=
  match c with
  | proxy.MakeTunnel _ _ | proxy.ClientDo => true
  | _ => false
  end.

(** Updates of the counters of [usage], the argument of the handler. *)
Definition proxyUsageOf (c : proxy.call) : bool :=
  match c with
  | proxy.AddIncomingSize proxy.ProxyUsage _
  | proxy.AddOutgoingSize proxy.ProxyUsage _ => true
  | _ => false
  end.

(** The calls of [do] that look for a route or go to the origin. *)
Definition routes (c : proxy.call) : bool :=
  match c with
  | proxy.URLProxy _ | proxy.SetProxy | proxy.LookupIP _ | proxy.SetIP
  | proxy.AcquireToken _ | proxy.PushBackToken _ | proxy.ClientDo => true
  | _ => false
  end.

(** The last [k] events of a trace. *)
Definition lastEvents (k : nat) (t : list proxy.event) : list proxy.event :=
  rev (firstn k (rev t)).

Definition hijackerCall (c : proxy.call) : bool :=
  match c with
  | proxy.GetHijacker | proxy.PutHijacker => true
  | _ => false
  end.

(** Calls that look up an address or open the connection to the origin. *)
Definition contacts (c : proxy.call) : bool :=
  match c with
  | proxy.LookupIP _ | proxy.Dial _ | proxy.MakeTunnel _ _ => true
  | _ => false
  end.

(** The events of the tunnel once it is made. *)
Definition tunnels (e : proxy.event) : bool :=
  match e with
  | proxy.Go [proxy.Forward _] | proxy.Do proxy.Wait
  | proxy.Do proxy.CloseTunnelConn => true
  | _ => false
  end.

(** [targetServerName] after the TLS handshake. *)
Definition serverName (env : proxy.Env) : string :=
  match proxy.helloServerName env with
  | Some name => name
  | None => ""%string
  end.


Definition isTLSHandshake (c : proxy.call) : bool :=
  match c with
  | proxy.TLSHandshake => true
  | _ => false
  end.

(** An upstream proxy, for the examples, and an environment that routes
    through it and resolves every host. *)
Definition upstreamProxy : proxy.SuperProxy := {| proxy.proxyName := "upstream" |}.

Definition routed (env : proxy.Env) : proxy.Env :=
  {| proxy.ParseHostWithPort := proxy.ParseHostWithPort env;
     proxy.urlProxy := fun _ => Some upstreamProxy;
     proxy.lookupIP := fun _ => Some "192.0.2.7"%string;
     proxy.SplitHostPort := fun _ => ("example.test"%string, "443"%string, None);
     proxy.ParseIP := proxy.ParseIP env;
     proxy.makeTunnel := proxy.makeTunnel env;
     proxy.dial := proxy.dial env;
     proxy.writeClient := proxy.writeClient env;
     proxy.forwardToOrigin := (120, None);
     proxy.forwardToClient := (4000, Some (conn_error 104));
     proxy.responseWriteTo := proxy.responseWriteTo env;
     proxy.hijackResponse := proxy.hijackResponse env;
     proxy.hijackClientDo := proxy.hijackClientDo env;
     proxy.clientDo := (40, 60, 500, Some (conn_error 110));
     proxy.GenCert := proxy.GenCert env;
     proxy.helloServerName := proxy.helloServerName env;
     proxy.handshake := proxy.handshake env;
     proxy.readFrom := proxy.readFrom env |}.

(** The same environment with a client that takes no more bytes. *)
Definition writeFails (env : proxy.Env) : proxy.Env :=
  {| proxy.ParseHostWithPort := proxy.ParseHostWithPort env;
     proxy.urlProxy := proxy.urlProxy env;
     proxy.lookupIP := proxy.lookupIP env;
     proxy.SplitHostPort := proxy.SplitHostPort env;
     proxy.ParseIP := proxy.ParseIP env;
     proxy.makeTunnel := proxy.makeTunnel env;
     proxy.dial := proxy.dial env;
     proxy.writeClient := fun _ => Some (conn_error 32);
     proxy.forwardToOrigin := proxy.forwardToOrigin env;
     proxy.forwardToClient := proxy.forwardToClient env;
     proxy.responseWriteTo := proxy.responseWriteTo env;
     proxy.hijackResponse := proxy.hijackResponse env;
     proxy.hijackClientDo := proxy.hijackClientDo env;
     proxy.clientDo := proxy.clientDo env;
     proxy.GenCert := proxy.GenCert env;
     proxy.helloServerName := proxy.helloServerName env;
     proxy.handshake := proxy.handshake env;
     proxy.readFrom := proxy.readFrom env |}.

(** The same environment with a certificate that cannot be made. *)
Definition certFails (env : proxy.Env) : proxy.Env :=
  {| proxy.ParseHostWithPort := proxy.ParseHostWithPort env;
     proxy.urlProxy := proxy.urlProxy env;
     proxy.lookupIP := proxy.lookupIP env;
     proxy.SplitHostPort := proxy.SplitHostPort env;
     proxy.ParseIP := proxy.ParseIP env;
     proxy.makeTunnel := proxy.makeTunnel env;
     proxy.dial := proxy.dial env;
     proxy.writeClient := proxy.writeClient env;
     proxy.forwardToOrigin := proxy.forwardToOrigin env;
     proxy.forwardToClient := proxy.forwardToClient env;
     proxy.responseWriteTo := proxy.responseWriteTo env;
     proxy.hijackResponse := proxy.hijackResponse env;
     proxy.hijackClientDo := proxy.hijackClientDo env;
     proxy.clientDo := proxy.clientDo env;
     proxy.GenCert := Some (errors_New "x509: cannot sign");
     proxy.helloServerName := proxy.helloServerName env;
     proxy.handshake := proxy.handshake env;
     proxy.readFrom := proxy.readFrom env |}.

(** A request for a host that parsed. *)
Definition hostRequest : proxy.Request :=
  {| proxy.reqHostInfo := parseOk "example.test:80"%string;
     proxy.reqMethod := "GET"%string; proxy.reqPath := "/"%string |}.

(** The names the scanner knows, in small letters. *)
Definition smallNames : list byteslice :=
  [ bs "connection"; bs "content-length"; bs "transfer-encoding";
    bs "accept-encoding"; bs "proxy-connection"; bs "proxy-authenticate";
    bs "proxy-authorization" ].

(** *** Pooled resources *)

(** What the handlers take from a pool and give back. *)
Inductive resource : Type :=
| Writer | Response | Hijacker | Token | Reader | Request.

Definition resource_eqb (a b : resource) : bool :=
  match a, b with
  | Writer, Writer | Response, Response | Hijacker, Hijacker
  | Token, Token | Reader, Reader | Request, Request => true
  | _, _ => false
  end.

(** A step of a trace: it takes a resource, gives one back, or neither. *)
Inductive step : Type :=
| Takes (r : resource)
| Gives (r : resource)
| Other.

(** Every resource given back is the one taken last and not given back
    yet, and none is left at the end: [held] are the resources taken, the
    last one first. *)
Fixpoint nested (held : list resource) (steps : list step) : bool :=
  match steps with
  | [] => match held with [] => true | _ :: _ => false end
  | Takes r :: steps' => nested (r :: held) steps'
  | Gives r :: steps' =>
      match held with
      | r' :: held' => resource_eqb r r' && nested held' steps'
      | [] => false
      end
  | Other :: steps' => nested held steps'
  end.

Definition stepOf (c : proxy.call) : step :=
  match c with
  | proxy.AcquireWriter => Takes Writer
  | proxy.ReleaseWriter => Gives Writer
  | proxy.AcquireResponse => Takes Response
  | proxy.ReleaseResponse => Gives Response
  | proxy.GetHijacker => Takes Hijacker
  | proxy.PutHijacker => Gives Hijacker
  | proxy.AcquireToken _ => Takes Token
  | proxy.PushBackToken _ => Gives Token
  | proxy.AcquireReader => Takes Reader
  | proxy.ReleaseReader => Gives Reader
  | proxy.AcquireRequest => Takes Request
  | proxy.ReleaseRequest => Gives Request
  | _ => Other
  end.

(** *** The traces of the earlier handler *)

Definition handlerLine (t : list handler.event) : list handler.call :=
  flat_map (fun e => match e with
                     | handler.Do c => [c]
                     | handler.Go _ => []
                     end) t.



Definition handlerStepOf (c : handler.call) : step :=
  match c with
  | handler.AcquireWriter => Takes Writer
  | handler.ReleaseWriter => Gives Writer
  | handler.AcquireResponse => Takes Response
  | handler.ReleaseResponse => Gives Response
  | handler.AcquireReader => Takes Reader
  | handler.ReleaseReader => Gives Reader
  | handler.AcquireRequest => Takes Request
  | handler.ReleaseRequest => Gives Request
  | _ => Other
  end.

(** Calls that read the decrypted request or answer it. *)
Definition handlerServes (c : handler.call) : bool :=
  match c with
  | handler.AcquireReader | handler.AcquireRequest
  | handler.InitWithTLSClientReader _ _ | handler.AcquireWriter
  | handler.AcquireResponse | handler.InitWithWriter | handler.ClientDo => true
  | _ => false
  end.

Definition handlerClosesTLS (c : handler.call) : bool :=
  match c with
  | handler.CloseTLSConn => true
  | _ => false
  end.

(** The phases [decryptConnect] of the earlier handler names in its
    errors. *)
Definition handlerPhases : list string :=
  [ "error occurred when signing fake certificate for client";
    "error occurred when handshaking with client";
    "fail to read MITMed https request header";
    "fail to init MITMed https response header";
    "fail to make MITMed https client request " ]%string.

(** An environment of the earlier handler where nothing fails and the
    client names no server. *)
Definition handlerEnv : handler.Env :=
  {| handler.dial := fun _ => None;
     handler.write := fun _ => None;
     handler.forwardToTarget := None;
     handler.forwardToClient := None;
     handler.SplitHostPort := fun s => (s, "443"%string, None);
     handler.GenCert := fun _ => None;
     handler.helloServerName := None;
     handler.handshake := None;
     handler.initWithTLSClientReader := None;
     handler.initWithWriter := None;
     handler.clientDo := None |}.

End Vocabulary.

(** * Properties *)

(** ** Slices and lines *)

Section Slices.

Lemma len_nonneg (b : byteslice) : 0 <= len b.
Proof. unfold len. lia. Qed.

Lemma len_app (a b : byteslice) : len (a ++ b) = len a + len b.
Proof. unfold len. rewrite length_app. lia. Qed.

Lemma slice_join (b : byteslice) (n : Z) : slice_to b n ++ slice_from b n = b.
Proof. apply firstn_skipn. Qed.

Lemma IndexByte_lower (b : byteslice) (c : byte) : -1 <= bytes.IndexByte b c.
Proof.
  induction b as [|x b IH]; simpl; [lia|].
  destruct (Byte.eqb x c); [lia|].
  destruct (bytes.IndexByte b c <? 0) eqn:E; [lia|].
  apply Z.ltb_ge in E. lia.
Qed.

Lemma IndexByte_absent (b : byteslice) (c : byte) :
  bytes.IndexByte b c < 0 <-> ~ In c b.
Proof.
  induction b as [|x b IH]; simpl.
  - split; [tauto | lia].
  - destruct (Byte.eqb x c) eqn:Ex.
    + apply byte_dec_bl in Ex. subst. split; [lia | tauto].
    + apply Byte.eqb_false in Ex.
      destruct (bytes.IndexByte b c <? 0) eqn:E.
      * apply Z.ltb_lt in E. split; [|lia].
        intros _ [H|H]; [congruence | tauto].
      * apply Z.ltb_ge in E. split; [lia|].
        intros H. assert (bytes.IndexByte b c < 0) by (apply IH; tauto). lia.
Qed.

(** The first [c] of [b] cuts it in two. *)
Lemma IndexByte_cut (b : byteslice) (c : byte) (i : Z) :
  bytes.IndexByte b c = i -> 0 <= i ->
  exists body rest,
    b = body ++ c :: rest /\ ~ In c body /\ len body = i.
Proof.
  revert i. induction b as [|x b IH]; simpl; intros i Hi Hpos.
  - lia.
  - destruct (Byte.eqb x c) eqn:Ex.
    + apply byte_dec_bl in Ex. subst x.
      exists [], b. repeat split; [tauto | unfold len; simpl; lia].
    + apply Byte.eqb_false in Ex.
      destruct (bytes.IndexByte b c <? 0) eqn:E; [lia|].
      apply Z.ltb_ge in E.
      destruct (IH _ eq_refl E) as (body & rest & -> & Hn & Hl).
      exists (x :: body), rest. repeat split.
      * intros [H|H]; [congruence | tauto].
      * unfold len in *. simpl length. lia.
Qed.

Lemma IndexByte_first (body rest : byteslice) (c : byte) :
  ~ In c body -> bytes.IndexByte (body ++ c :: rest) c = len body.
Proof.
  induction body as [|x body IH]; simpl; intros Hn.
  - rewrite (byte_dec_lb eq_refl). reflexivity.
  - destruct (Byte.eqb x c) eqn:Ex.
    + apply byte_dec_bl in Ex. tauto.
    + rewrite IH by tauto.
      pose proof (len_nonneg body).
      destruct (len body <? 0) eqn:E; [apply Z.ltb_lt in E; lia|].
      unfold len. simpl length. lia.
Qed.

Lemma slice_to_app (a b : byteslice) : slice_to (a ++ b) (len a) = a.
Proof.
  unfold slice_to, len. rewrite Nat2Z.id.
  rewrite firstn_app, Nat.sub_diag, firstn_all. simpl. apply app_nil_r.
Qed.

Lemma slice_from_app (a b : byteslice) : slice_from (a ++ b) (len a) = b.
Proof.
  unfold slice_from, len. rewrite Nat2Z.id.
  rewrite skipn_app, Nat.sub_diag, skipn_all. reflexivity.
Qed.

Lemma HasPrefix_app (p t : byteslice) : bytes.HasPrefix (p ++ t) p = true.
Proof.
  induction p as [|x p IH]; simpl; [reflexivity|].
  rewrite (byte_dec_lb eq_refl). exact IH.
Qed.

Lemma HasPrefix_inv (s p : byteslice) :
  bytes.HasPrefix s p = true -> exists t, s = p ++ t.
Proof.
  revert s. induction p as [|x p IH]; intros s H.
  - exists s. reflexivity.
  - destruct s as [|y s]; simpl in H; [discriminate|].
    apply andb_true_iff in H. destruct H as [Hxy H].
    apply byte_dec_bl in Hxy. subst y.
    destruct (IH _ H) as [t ->]. exists t. reflexivity.
Qed.

End Slices.

Section Lines.

Lemma IsLine_len (l : byteslice) : IsLine l -> 1 <= len l.
Proof.
  intros (body & -> & _). rewrite len_app. pose proof (len_nonneg body).
  unfold len at 2. simpl. lia.
Qed.

Lemma IsLine_nonempty (l : byteslice) : IsLine l -> l <> [].
Proof. intros (body & -> & _). destruct body; discriminate. Qed.

(** Where the first line feed is, the first line ends. *)
Lemma first_line (b : byteslice) (i : Z) :
  bytes.IndexByte b LF = i -> 0 <= i ->
  IsLine (slice_to b (i + 1)) /\ len (slice_to b (i + 1)) = i + 1.
Proof.
  intros Hi Hpos.
  destruct (IndexByte_cut b LF Hi Hpos) as (body & rest & -> & Hn & Hl).
  assert (E : slice_to (body ++ LF :: rest) (i + 1) = body ++ [LF]).
  { replace (body ++ LF :: rest) with ((body ++ [LF]) ++ rest)
      by (rewrite <- app_assoc; reflexivity).
    replace (i + 1) with (len (body ++ [LF]))
      by (rewrite len_app; unfold len at 2; simpl; lia).
    apply slice_to_app. }
  rewrite E. split.
  - exists body. tauto.
  - rewrite len_app. unfold len at 2. simpl. lia.
Qed.

Lemma IndexByte_line (l rest : byteslice) :
  IsLine l -> bytes.IndexByte (l ++ rest) LF = len l - 1.
Proof.
  intros (body & -> & Hn). rewrite <- app_assoc. simpl.
  rewrite IndexByte_first by exact Hn.
  rewrite len_app. unfold len at 3. simpl. lia.
Qed.

Lemma splitLines_line (l rest : byteslice) :
  IsLine l -> splitLines (l ++ rest) = l :: splitLines rest.
Proof.
  intros (body & -> & Hn). rewrite <- app_assoc. simpl.
  induction body as [|x body IH]; simpl.
  - reflexivity.
  - destruct (Byte.eqb x LF) eqn:Ex.
    + apply byte_dec_bl in Ex. subst. exfalso. apply Hn. left. reflexivity.
    + rewrite IH; [reflexivity|]. intros H. apply Hn. right. exact H.
Qed.

Lemma splitLines_concat (ls : list byteslice) :
  Forall IsLine ls -> splitLines (concat ls) = ls.
Proof.
  induction 1 as [|l ls Hl _ IH]; simpl; [reflexivity|].
  rewrite splitLines_line by exact Hl. rewrite IH. reflexivity.
Qed.

End Lines.

(** ** One line through [parseThenWriteBuffer] *)

Section OneLine.

Import header bytebufferpool.

Variables (l : byteslice) (h : Header) (bf : ByteBuffer).
Variables (l' : byteslice) (h' : Header) (bf' : ByteBuffer) (e : option error).
Hypothesis Hrun : parseThenWriteBuffer l h bf = (l', h', bf', e).

Lemma line_bytes :
  l' = if isConnectionHeader l then changeToLowerCase l else l.
Proof using Hrun.
  unfold parseThenWriteBuffer in Hrun.
  destruct (isConnectionHeader l); [congruence|].
  destruct (negb (isProxyHeader l)); [|congruence].
  destruct (Write _ l) as [b1 [e1|]]; congruence.
Qed.

Lemma line_length : length l' = length l.
Proof using Hrun.
  rewrite line_bytes. destruct (isConnectionHeader l); [|reflexivity].
  apply length_map.
Qed.

Lemma line_len : len l' = len l.
Proof using Hrun. unfold len. rewrite line_length. reflexivity. Qed.

Lemma line_buffer_ok :
  e = None ->
  B bf' = B bf ++ (if kept l then l else []) /\ capacity bf' = capacity bf.
Proof using Hrun.
  intros ->. unfold parseThenWriteBuffer, kept in *.
  destruct (isConnectionHeader l); simpl.
  - inversion Hrun; subst. rewrite app_nil_r. tauto.
  - destruct (isProxyHeader l); simpl in *.
    + inversion Hrun; subst. rewrite app_nil_r. tauto.
    + unfold Write in Hrun.
      destruct (length (B bf) + length l <=? capacity bf)%nat;
        inversion Hrun; subst; simpl; tauto.
Qed.

Lemma line_buffer_err (err : error) :
  e = Some err ->
  err = io_ErrShortBuffer /\ kept l = true
  /\ (capacity bf < length (B bf) + length l)%nat.
Proof using Hrun.
  intros ->. unfold parseThenWriteBuffer, kept in *.
  destruct (isConnectionHeader l); simpl; [discriminate|].
  destruct (isProxyHeader l); simpl in *; [discriminate|].
  unfold Write in Hrun.
  destruct (length (B bf) + length l <=? capacity bf)%nat eqn:E;
    inversion Hrun; subst.
  apply Nat.leb_gt in E. tauto.
Qed.

End OneLine.

Arguments line_bytes {l h bf l' h' bf' e} Hrun.
Arguments line_length {l h bf l' h' bf' e} Hrun.
Arguments line_len {l h bf l' h' bf' e} Hrun.
Arguments line_buffer_ok {l h bf l' h' bf' e} Hrun _.
Arguments line_buffer_err {l h bf l' h' bf' e} Hrun {err} _.

(** ** The scan of [readHeaders], line by line *)

Section Scanning.

Import header bytebufferpool.

Lemma firstIs_app (a b : byteslice) (c : byte) :
  a <> [] -> firstIs (a ++ b) c = firstIs a c.
Proof. destruct a; [congruence | reflexivity]. Qed.

Lemma restLines_Scan (fuel : nat) :
  forall b m n h bf b' h' bf' n' e,
    restLines fuel b m n h bf = Some (b', h', bf', n', e) ->
    exists ls b1,
      Scan (slice_from b m) h bf ls b1 h' bf' e
      /\ b' = slice_to b m ++ b1
      /\ n' = scanned n ls e.
Proof.
  induction fuel as [|fuel IH]; intros b m n h bf b' h' bf' n' e H;
    simpl in H; [discriminate|].
  set (b1 := slice_from b m) in *.
  destruct (bytes.IndexByte b1 LF <? 0) eqn:Ei.
  - apply Z.ltb_lt in Ei. inversion H; subst.
    exists [], b1. repeat split. constructor. exact Ei.
  - apply Z.ltb_ge in Ei.
    set (m1 := bytes.IndexByte b1 LF + 1) in *.
    destruct (first_line b1 eq_refl Ei) as [Hline Hlen]. fold m1 in Hline, Hlen.
    assert (Hb1 : b1 = slice_to b1 m1 ++ slice_from b1 m1)
      by (symmetry; apply slice_join).
    set (l := slice_to b1 m1) in *. set (rest := slice_from b1 m1) in *.
    destruct (parseThenWriteBuffer l h bf) as [[[l1 h1] bf1] e1] eqn:Ep.
    pose proof (line_len Ep) as Hl1.
    assert (Hne : l1 <> []).
    { intros ->. pose proof (IsLine_len Hline). unfold len in *. simpl in *. lia. }
    destruct e1 as [e1|].
    + inversion H; subst. exists [l], (l1 ++ rest). repeat split.
      rewrite Hb1. apply Scan_fail; assumption.
    + assert (Et : ((m1 =? 2) && firstIs (l1 ++ rest) CR) || (m1 =? 1)
                   = endsBlock l1).
      { unfold endsBlock. rewrite firstIs_app by exact Hne.
        rewrite Hl1, Hlen. reflexivity. }
      rewrite Et in H. destruct (endsBlock l1) eqn:Eend.
      * inversion H; subst. exists [l], (l1 ++ rest). repeat split.
        -- rewrite Hb1. apply Scan_done; assumption.
        -- simpl. rewrite app_nil_r. rewrite Hlen. reflexivity.
      * destruct (restLines fuel (l1 ++ rest) m1 (n + m1) h1 bf1)
          as [[[[[b2 h2] bf2] n2] e2]|] eqn:Er; [|discriminate].
        inversion H; subst.
        destruct (IH _ _ _ _ _ _ _ _ _ _ Er) as (ls & b3 & Hs & Hb & Hn).
        assert (Hcut1 : slice_from (l1 ++ rest) m1 = rest)
          by (rewrite <- Hlen, <- Hl1; apply slice_from_app).
        assert (Hcut2 : slice_to (l1 ++ rest) m1 = l1)
          by (rewrite <- Hlen, <- Hl1; apply slice_to_app).
        rewrite Hcut1 in Hs. rewrite Hcut2 in Hb.
        exists (l :: ls), (l1 ++ b3). repeat split.
        -- rewrite Hb1. apply Scan_next with (h' := h1) (bf' := bf1); assumption.
        -- rewrite Hb. reflexivity.
        -- rewrite Hn. unfold scanned. destruct e; [reflexivity|].
           simpl concat. rewrite len_app, Hlen. lia.
Qed.

End Scanning.

(** ** [readHeaders] as a scan *)

Section ReadHeaders.

Import header bytebufferpool.

Lemma prefix_len (x p : byteslice) :
  bytes.HasPrefix x p = true -> len p <= len x.
Proof.
  intros H. destruct (HasPrefix_inv _ _ H) as [t ->].
  rewrite len_app. pose proof (len_nonneg t). lia.
Qed.

(** A line that ends the block is too short to carry a header name. *)
Lemma endsBlock_short (x : byteslice) : endsBlock x = true -> len x <= 2.
Proof.
  unfold endsBlock. intros H. apply orb_true_iff in H. destruct H as [H|H].
  - apply andb_true_iff in H. destruct H as [H _]. apply Z.eqb_eq in H. lia.
  - apply Z.eqb_eq in H. lia.
Qed.

Lemma endsBlock_not_prefixed (x p : byteslice) :
  endsBlock x = true -> 2 < len p -> bytes.HasPrefix x p = false.
Proof.
  intros H Hp. destruct (bytes.HasPrefix x p) eqn:E; [|reflexivity].
  apply prefix_len in E. apply endsBlock_short in H. lia.
Qed.

Lemma endsBlock_lower (x : byteslice) :
  isConnectionHeader x = true ->
  endsBlock x = false /\ endsBlock (changeToLowerCase x) = false.
Proof.
  intros H. apply prefix_len in H.
  assert (Hc : len connectionHeader = 10) by reflexivity.
  assert (Hl : len (changeToLowerCase x) = len x)
    by (unfold len, changeToLowerCase; rewrite length_map; reflexivity).
  unfold endsBlock. rewrite Hl.
  destruct (len x =? 2) eqn:E2; [apply Z.eqb_eq in E2; lia|].
  destruct (len x =? 1) eqn:E1; [apply Z.eqb_eq in E1; lia|].
  split; reflexivity.
Qed.

Lemma line_endsBlock l h bf l' h' bf' e :
  parseThenWriteBuffer l h bf = (l', h', bf', e) ->
  endsBlock l' = endsBlock l.
Proof.
  intros H. rewrite (line_bytes H).
  destruct (isConnectionHeader l) eqn:E; [|reflexivity].
  destruct (endsBlock_lower _ E) as [-> ->]. reflexivity.
Qed.

Lemma restLines_total (fuel : nat) :
  forall b m n h bf,
    0 <= m -> (length (slice_from b m) < fuel)%nat ->
    exists r, restLines fuel b m n h bf = Some r.
Proof.
  induction fuel as [|fuel IH]; intros b m n h bf Hm Hf; [lia|].
  simpl. set (b1 := slice_from b m) in *.
  destruct (bytes.IndexByte b1 LF <? 0) eqn:Ei; [eexists; reflexivity|].
  apply Z.ltb_ge in Ei.
  set (m1 := bytes.IndexByte b1 LF + 1) in *.
  destruct (first_line b1 eq_refl Ei) as [Hline Hlen]. fold m1 in Hline, Hlen.
  pose proof (slice_join b1 m1) as Hb1.
  set (l := slice_to b1 m1) in *. set (rest := slice_from b1 m1) in *.
  destruct (parseThenWriteBuffer l h bf) as [[[l1 h1] bf1] e1] eqn:Ep.
  pose proof (line_len Ep) as Hl1.
  destruct e1 as [e1|]; [eexists; reflexivity|].
  destruct (((m1 =? 2) && firstIs (l1 ++ rest) CR) || (m1 =? 1));
    [eexists; reflexivity|].
  assert (Hcut : slice_from (l1 ++ rest) m1 = rest)
    by (rewrite <- Hlen, <- Hl1; apply slice_from_app).
  destruct (IH (l1 ++ rest) m1 (n + m1) h1 bf1) as [[[[[b2 h2] bf2] n2] e2] ->].
  - subst m1. lia.
  - rewrite Hcut. pose proof (IsLine_len Hline) as H1.
    assert (length b1 = length l + length rest)%nat
      by (rewrite <- Hb1; apply length_app).
    unfold len in H1. lia.
  - eexists; reflexivity.
Qed.

Theorem readHeaders_total (buf : byteslice) (h : Header) (bf : ByteBuffer) :
  exists r, readHeaders buf h bf = Some r.
Proof.
  unfold readHeaders.
  destruct (bytes.IndexByte buf LF <? 0) eqn:Ei; [eexists; reflexivity|].
  apply Z.ltb_ge in Ei.
  destruct (((bytes.IndexByte buf LF =? 1) && firstIs buf CR)
            || (bytes.IndexByte buf LF =? 0)); [eexists; reflexivity|].
  set (n := bytes.IndexByte buf LF + 1) in *.
  destruct (first_line buf eq_refl Ei) as [Hline Hlen]. fold n in Hline, Hlen.
  pose proof (slice_join buf n) as Hb.
  destruct (parseThenWriteBuffer (slice_to buf n) h (bytebufferpool.Reset bf))
    as [[[l1 h1] bf1] e1] eqn:Ep.
  pose proof (line_len Ep) as Hl1. pose proof (line_length Ep) as Hl2.
  destruct e1 as [e1|]; [eexists; reflexivity|].
  apply restLines_total.
  - subst n. lia.
  - replace (slice_from (l1 ++ slice_from buf n) n) with (slice_from buf n)
      by (rewrite <- Hlen, <- Hl1; symmetry; apply slice_from_app).
    rewrite length_app, Hl2.
    pose proof (IsLine_len Hline) as H1. unfold len in H1. lia.
Qed.

Lemma readHeaders_cases (buf : byteslice) (h : Header) (bf : ByteBuffer) r :
  readHeaders buf h bf = Some r -> ReadCase buf h bf r.
Proof.
  unfold readHeaders. intros H.
  destruct (bytes.IndexByte buf LF <? 0) eqn:Ei.
  { apply Z.ltb_lt in Ei. inversion H; subst. constructor. exact Ei. }
  apply Z.ltb_ge in Ei.
  set (n := bytes.IndexByte buf LF + 1) in *.
  destruct (first_line buf eq_refl Ei) as [Hline Hlen]. fold n in Hline, Hlen.
  pose proof (slice_join buf n) as Hb. symmetry in Hb.
  set (l := slice_to buf n) in *. set (rest := slice_from buf n) in *.
  assert (Hne : l <> []) by (apply IsLine_nonempty; exact Hline).
  assert (Et : ((bytes.IndexByte buf LF =? 1) && firstIs buf CR)
               || (bytes.IndexByte buf LF =? 0) = endsBlock l).
  { unfold endsBlock. rewrite Hlen.
    rewrite Hb at 2. rewrite firstIs_app by exact Hne.
    replace (n =? 2) with (bytes.IndexByte buf LF =? 1)
      by (subst n; destruct (bytes.IndexByte buf LF =? 1) eqn:E;
          symmetry; [apply Z.eqb_eq in E; apply Z.eqb_eq; lia
                    | apply Z.eqb_neq in E; apply Z.eqb_neq; lia]).
    replace (n =? 1) with (bytes.IndexByte buf LF =? 0)
      by (subst n; destruct (bytes.IndexByte buf LF =? 0) eqn:E;
          symmetry; [apply Z.eqb_eq in E; apply Z.eqb_eq; lia
                    | apply Z.eqb_neq in E; apply Z.eqb_neq; lia]).
    reflexivity. }
  rewrite Et in H. destruct (endsBlock l) eqn:Eend.
  { inversion H; subst r. rewrite <- Hlen.
    apply Read_empty with (rest := rest); assumption. }
  destruct (parseThenWriteBuffer l h (bytebufferpool.Reset bf))
    as [[[l1 h1] bf1] e1] eqn:Ep.
  pose proof (line_len Ep) as Hl1.
  destruct e1 as [e1|].
  - inversion H; subst r.
    apply (@Read_scan buf h bf l rest [] (l1 ++ rest) h1
             (bytebufferpool.Reset bf1) (Some e1)); try assumption.
    rewrite Hb. apply Scan_fail; assumption.
  - destruct r as [[[[b' h'] bf'] n'] e].
    destruct (restLines_Scan _ _ _ _ _ _ H) as (ls & b3 & Hs & Hb3 & Hn).
    assert (Hcut1 : slice_from (l1 ++ rest) n = rest)
      by (rewrite <- Hlen, <- Hl1; apply slice_from_app).
    assert (Hcut2 : slice_to (l1 ++ rest) n = l1)
      by (rewrite <- Hlen, <- Hl1; apply slice_to_app).
    rewrite Hcut1 in Hs. rewrite Hcut2 in Hb3.
    replace n' with (scanned 0 (l :: ls) e).
    + apply Read_scan with (rest := rest); try assumption.
      rewrite Hb3. rewrite Hb at 1.
      apply Scan_next with (h' := h1) (bf' := bf1); try assumption.
      rewrite (line_endsBlock _ _ _ Ep). exact Eend.
    + rewrite Hn. unfold scanned. destruct e; [reflexivity|].
      simpl concat. rewrite len_app, Hlen. lia.
Qed.

End ReadHeaders.

(** ** What a scan leaves *)

Section ScanResults.

Import header bytebufferpool.

Lemma line_header l h bf l' h' bf' e :
  parseThenWriteBuffer l h bf = (l', h', bf', e) -> h' = headerAfter l h.
Proof.
  unfold headerAfter, parseThenWriteBuffer.
  destruct (isConnectionHeader l).
  - intros H. inversion H. reflexivity.
  - destruct (negb (isProxyHeader l)).
    + destruct (Write bf l) as [b1 [e1|]];
        destruct (Write (MakeFixedSizeByteBuffer 0) l) as [b2 [e2|]];
        intros H; inversion H; reflexivity.
    + intros H. inversion H. reflexivity.
Qed.

Lemma Scan_bytes b h bf ls b' h' bf' e :
  Scan b h bf ls b' h' bf' e ->
  Forall IsLine ls
  /\ exists rest, b = concat ls ++ rest /\ b' = concat (map lineAfter ls) ++ rest.
Proof.
  induction 1 as [b h bf Hi
                 | l rest h bf l' h' bf' e Hl Hp
                 | l rest h bf l' h' bf' Hl Hp He
                 | l rest h bf l' h' bf' ls rest' h'' bf'' e Hl Hp He Hs IH].
  - split; [constructor|]. exists b. split; reflexivity.
  - split; [repeat constructor; exact Hl|]. exists rest. simpl.
    rewrite !app_nil_r. rewrite (line_bytes Hp). split; reflexivity.
  - split; [repeat constructor; exact Hl|]. exists rest. simpl.
    rewrite !app_nil_r. rewrite (line_bytes Hp). split; reflexivity.
  - destruct IH as [Hall (r & -> & ->)].
    split; [constructor; assumption|]. exists r. simpl.
    rewrite <- !app_assoc. rewrite (line_bytes Hp). split; reflexivity.
Qed.

Lemma Scan_ok b h bf ls b' h' bf' :
  Scan b h bf ls b' h' bf' None ->
  isBlock ls = true
  /\ h' = headersAfter ls h
  /\ B bf' = B bf ++ concat (filter kept ls)
  /\ capacity bf' = capacity bf.
Proof.
  intros H. remember None as e eqn:Ee.
  induction H as [b h bf Hi
                 | l rest h bf l' h' bf' e Hl Hp
                 | l rest h bf l' h' bf' Hl Hp He
                 | l rest h bf l' h' bf' ls rest' h'' bf'' e Hl Hp He Hs IH];
    try discriminate.
  - rewrite (line_endsBlock _ _ _ Hp) in He.
    destruct (line_buffer_ok Hp eq_refl) as [HB Hc].
    simpl. rewrite He. repeat split; try assumption.
    + unfold headersAfter. simpl. apply (line_header _ _ _ Hp).
    + rewrite HB. destruct (kept l); simpl; rewrite ?app_nil_r; reflexivity.
  - rewrite (line_endsBlock _ _ _ Hp) in He.
    destruct (line_buffer_ok Hp eq_refl) as [HB Hc].
    destruct (IH Ee) as (Hb & Hh & HB' & Hc').
    simpl. rewrite He. repeat split.
    + exact Hb.
    + unfold headersAfter in *. simpl. rewrite <- (line_header _ _ _ Hp). exact Hh.
    + rewrite HB', HB. destruct (kept l); simpl;
        rewrite ?app_nil_r, <- ?app_assoc; reflexivity.
    + congruence.
Qed.

Lemma Scan_err b h bf ls b' h' bf' e :
  Scan b h bf ls b' h' bf' (Some e) ->
  B bf' = [] /\ capacity bf' = capacity bf
  /\ (e = errNeedMore \/ e = io_ErrShortBuffer).
Proof.
  intros H. remember (Some e) as oe eqn:Ee. revert e Ee.
  induction H as [b h bf Hi
                 | l rest h bf l' h' bf' e0 Hl Hp
                 | l rest h bf l' h' bf' Hl Hp He
                 | l rest h bf l' h' bf' ls rest' h'' bf'' e0 Hl Hp He Hs IH];
    intros e Ee; try discriminate.
  - inversion Ee; subst. simpl. tauto.
  - inversion Ee; subst. simpl.
    destruct (line_buffer_err Hp eq_refl) as (-> & _ & _).
    unfold parseThenWriteBuffer in Hp.
    destruct (isConnectionHeader l); [discriminate|].
    destruct (negb (isProxyHeader l)); [|discriminate].
    unfold Write in Hp.
    destruct (length (B bf) + length l <=? capacity bf)%nat;
      inversion Hp; subst. tauto.
  - destruct (IH _ Ee) as (HB & Hc & He').
    destruct (line_buffer_ok Hp eq_refl) as [_ Hc1].
    repeat split; [exact HB | congruence | exact He'].
Qed.

(** The first line of some bytes is one line only. *)
Lemma line_unique (l1 l2 r1 r2 : byteslice) :
  IsLine l1 -> IsLine l2 -> l1 ++ r1 = l2 ++ r2 -> l1 = l2 /\ r1 = r2.
Proof.
  intros H1 H2 E.
  pose proof (splitLines_line r1 H1) as S1.
  pose proof (splitLines_line r2 H2) as S2.
  rewrite E in S1. rewrite S1 in S2. inversion S2; subst.
  split; [reflexivity|]. apply app_inv_head in E. exact E.
Qed.

End ScanResults.

(** ** The header block [readHeaders] consumes *)

Section HeaderBlock.

Import header bytebufferpool.

(** [contentLength] after one line. *)
Lemma headerAfter_contentLength (l : byteslice) (h : Header) :
  contentLength (headerAfter l h) =
    if isConnectionHeader l then contentLength h
    else if isContentLengthHeader l then
      if declaredLength l >? 0 then declaredLength l else contentLength h
    else if isTransferEncodingHeader l then
      if bytes.Contains l chunked then -1
      else if bytes.Contains l identity then -2
      else contentLength h
    else contentLength h.
Proof.
  unfold headerAfter, parseThenWriteBuffer, declaredLength, chunked, identity.
  destruct (isConnectionHeader l).
  { destruct (bytes.Contains _ _); reflexivity. }
  assert (E : forall (hd : Header) (w : ByteBuffer * option error),
             (let '(_, h', _, _) :=
                (if negb (isProxyHeader l)
                 then match w with
                      | (buffer, Some e) => (l, hd, buffer, Some e)
                      | (buffer, None) => (l, hd, buffer, None)
                      end
                 else (l, hd, MakeFixedSizeByteBuffer 0, None)) in h') = hd).
  { intros hd [w [e|]]; destruct (negb (isProxyHeader l)); reflexivity. }
  rewrite E.
  destruct (isContentLengthHeader l).
  - destruct (bytes.IndexByte l ":"%byte >? 0); [|reflexivity].
    destruct (parseLength l _ >? 0); reflexivity.
  - destruct (isTransferEncodingHeader l); [|reflexivity].
    destruct (bytes.Contains l (bs "chunked")); [reflexivity|].
    destruct (bytes.Contains l (bs "identity")); reflexivity.
Qed.

Lemma headerAfter_short (l : byteslice) (h : Header) :
  endsBlock l = true -> headerAfter l h = h.
Proof.
  intros He.
  assert (H1 : isConnectionHeader l = false)
    by (apply endsBlock_not_prefixed; [exact He | reflexivity]).
  assert (H2 : isContentLengthHeader l = false)
    by (apply endsBlock_not_prefixed; [exact He | reflexivity]).
  assert (H3 : isTransferEncodingHeader l = false)
    by (apply endsBlock_not_prefixed; [exact He | reflexivity]).
  unfold headerAfter, parseThenWriteBuffer. rewrite H1, H2, H3.
  destruct (negb (isProxyHeader l)); [|reflexivity].
  destruct (Write _ l) as [b1 [e1|]]; reflexivity.
Qed.

(** A successful [readHeaders]: the bytes begin with a header block; its
    length is returned, its lines make the header; the buffer holds the
    lines kept, unless the block is one empty line, when header and buffer
    are as they were. *)
Lemma readHeaders_ok buf h bf b' h' bf' n :
  readHeaders buf h bf = Some (b', h', bf', n, None) ->
  exists ls rest,
    buf = concat ls ++ rest
    /\ Forall IsLine ls /\ isBlock ls = true
    /\ n = len (concat ls)
    /\ b' = concat (map lineAfter ls) ++ rest
    /\ h' = headersAfter ls h
    /\ ((length ls = 1%nat /\ bf' = bf)
        \/ (B bf' = concat (filter kept ls) /\ capacity bf' = capacity bf)).
Proof.
  intros H. apply readHeaders_cases in H.
  inversion H as [Hi | l rest Hb Hl He | l rest ls b1 h1 bf1 e Hb Hl He Hs]; subst.
  - exists [l], rest. simpl. rewrite !app_nil_r, He.
    assert (Hla : lineAfter l = l).
    { unfold lineAfter, isConnectionHeader.
      rewrite (endsBlock_not_prefixed _ connectionHeader He eq_refl). reflexivity. }
    rewrite Hla. unfold headersAfter. simpl. rewrite headerAfter_short by exact He.
    repeat split; auto.
  - destruct (Scan_bytes Hs) as [Hall (r & Hbuf & Hb')].
    destruct (Scan_ok Hs) as (Hblk & Hh & HB & Hc).
    exists (l :: ls), r. unfold scanned. simpl in HB.
    repeat split; try assumption; try lia.
    right. split; assumption.
Qed.

Lemma readHeaders_lines buf h bf b' h' bf' n :
  readHeaders buf h bf = Some (b', h', bf', n, None) ->
  h' = headersAfter (splitLines (slice_to buf n)) h.
Proof.
  intros H. destruct (readHeaders_ok _ _ _ H)
    as (ls & rest & -> & Hall & _ & -> & _ & -> & _).
  rewrite slice_to_app, splitLines_concat by exact Hall. reflexivity.
Qed.

End HeaderBlock.

(** ** Body framing: [Content-Length] and [Transfer-Encoding] *)

Section Framing.

Import header bytebufferpool.

Lemma contentLength_not_connection (l : byteslice) :
  isContentLengthHeader l = true -> isConnectionHeader l = false.
Proof.
  intros H. destruct (HasPrefix_inv _ _ H) as [t ->]. reflexivity.
Qed.

Lemma transferEncoding_not_others (l : byteslice) :
  isTransferEncodingHeader l = true ->
  isConnectionHeader l = false /\ isContentLengthHeader l = false.
Proof.
  intros H. destruct (HasPrefix_inv _ _ H) as [t ->]. split; reflexivity.
Qed.

Lemma headersAfter_app (a b : list byteslice) (h : Header) :
  headersAfter (a ++ b) h = headersAfter b (headersAfter a h).
Proof. apply fold_left_app. Qed.

Lemma headerAfter_chunked (l : byteslice) (h : Header) :
  setsChunked l = true -> contentLength (headerAfter l h) = -1.
Proof.
  unfold setsChunked. intros H. apply andb_true_iff in H. destruct H as [Ht Hc].
  destruct (transferEncoding_not_others _ Ht) as [H1 H2].
  rewrite headerAfter_contentLength, H1, H2, Ht, Hc. reflexivity.
Qed.

Lemma headerAfter_identity (l : byteslice) (h : Header) :
  setsIdentity l = true -> contentLength (headerAfter l h) = -2.
Proof.
  unfold setsIdentity. intros H.
  apply andb_true_iff in H. destruct H as [H Hi].
  apply andb_true_iff in H. destruct H as [Ht Hc].
  apply negb_true_iff in Hc.
  destruct (transferEncoding_not_others _ Ht) as [H1 H2].
  rewrite headerAfter_contentLength, H1, H2, Ht, Hc, Hi. reflexivity.
Qed.

Lemma headerAfter_length (l : byteslice) (h : Header) :
  setsLength l = true -> contentLength (headerAfter l h) = declaredLength l.
Proof.
  unfold setsLength. intros H. apply andb_true_iff in H. destruct H as [Hl Hv].
  rewrite headerAfter_contentLength, (contentLength_not_connection _ Hl), Hl, Hv.
  reflexivity.
Qed.

(** A line that sets nothing leaves [contentLength] as it is. *)
Lemma headerAfter_keeps (l : byteslice) (h : Header) :
  setsLength l = false -> setsIdentity l = false -> setsChunked l = false ->
  contentLength (headerAfter l h) = contentLength h.
Proof.
  unfold setsLength, setsIdentity, setsChunked. intros Hl Hi Hc.
  rewrite headerAfter_contentLength.
  destruct (isConnectionHeader l); [reflexivity|].
  destruct (isContentLengthHeader l); simpl in Hl.
  { rewrite Hl. reflexivity. }
  destruct (isTransferEncodingHeader l); [|reflexivity]. simpl in Hi, Hc.
  rewrite Hc in *. simpl in Hi. rewrite Hi. reflexivity.
Qed.

Lemma headersAfter_stay (v : Z) (ls : list byteslice) :
  (forall l h, In l ls -> contentLength h = v ->
               contentLength (headerAfter l h) = v) ->
  forall h, contentLength h = v -> contentLength (headersAfter ls h) = v.
Proof.
  induction ls as [|l ls IH]; intros Hstep h Hh; [exact Hh|].
  unfold headersAfter. simpl. apply IH.
  - intros l0 h0 Hin. apply Hstep. right. exact Hin.
  - apply Hstep; [left; reflexivity | exact Hh].
Qed.

(** C1 as the code has it: the last line that sets the framing decides.
    When a [Transfer-Encoding] line with [chunked] is followed by no
    [Content-Length] line of positive value and by no [Transfer-Encoding]
    line with [identity] and without [chunked], [contentLength] is [-1],
    whatever stands before it. *)
Theorem readHeaders_chunked_last buf h bf b' h' bf' n pre te post :
  readHeaders buf h bf = Some (b', h', bf', n, None) ->
  splitLines (slice_to buf n) = pre ++ te :: post ->
  isTransferEncodingHeader te = true ->
  bytes.Contains te chunked = true ->
  forallb (fun l => negb (setsLength l) && negb (setsIdentity l)) post = true ->
  contentLength h' = -1.
Proof.
  intros Hrun Hls Ht Hc Hpost.
  rewrite (readHeaders_lines _ _ _ Hrun), Hls.
  rewrite headersAfter_app.
  change (te :: post) with ([te] ++ post). rewrite headersAfter_app.
  apply headersAfter_stay.
  - intros l h0 Hin Hh0.
    rewrite forallb_forall in Hpost. specialize (Hpost _ Hin).
    apply andb_true_iff in Hpost. destruct Hpost as [Hl Hi].
    apply negb_true_iff in Hl. apply negb_true_iff in Hi.
    destruct (setsChunked l) eqn:Ech.
    + apply headerAfter_chunked. exact Ech.
    + rewrite headerAfter_keeps by assumption. exact Hh0.
  - unfold headersAfter at 1. simpl. apply headerAfter_chunked.
    unfold setsChunked. rewrite Ht, Hc. reflexivity.
Qed.

End Framing.

Section FramingExamples.

Import header bytebufferpool.

Lemma readHeaders_chunked_last_witness :
  exists b' h' bf' n,
    readHeaders chunkedLast freshHeader (MakeFixedSizeByteBuffer 128)
      = Some (b', h', bf', n, None)
    /\ contentLength h' = -1.
Proof.
  eexists _, _, _, _. split; [vm_compute; reflexivity|].
  eapply (@readHeaders_chunked_last chunkedLast freshHeader
            (MakeFixedSizeByteBuffer 128) _ _ _ _
            [line "Content-Length: 5"] (line "Transfer-Encoding: chunked")
            [line "Host: example.test"; crlf]);
    [vm_compute; reflexivity | reflexivity ..].
Defined.

(** C1 as stated fails: a [Content-Length] line after the
    [Transfer-Encoding: chunked] line replaces the [-1]. *)
Lemma chunked_then_length_counterexample :
  exists b' h' bf' n,
    readHeaders chunkedFirst freshHeader (MakeFixedSizeByteBuffer 128)
      = Some (b', h', bf', n, None)
    /\ In (line "Transfer-Encoding: chunked") (splitLines (slice_to chunkedFirst n))
    /\ setsChunked (line "Transfer-Encoding: chunked") = true
    /\ contentLength h' = 5
    /\ contentLength h' <> -1.
Proof.
  eexists _, _, _, _. split; [vm_compute; reflexivity|].
  split; [vm_compute; tauto|].
  split; [vm_compute; reflexivity|].
  split; [vm_compute; reflexivity | vm_compute; discriminate].
Qed.

End FramingExamples.

Section FramingLength.

Import header bytebufferpool.

Lemma headersAfter_cons (l : byteslice) (ls : list byteslice) (h : Header) :
  headersAfter (l :: ls) h = headersAfter ls (headerAfter l h).
Proof. reflexivity. Qed.

(** C4 as the code has it: in a block without [Transfer-Encoding] line,
    [contentLength] is the value [N > 0] of the last [Content-Length] line
    whose value is positive: the decimal after its first [:], trimmed, as
    [strconv.ParseInt] reads it. *)
Theorem readHeaders_length_last buf h bf b' h' bf' n pre cl post N :
  readHeaders buf h bf = Some (b', h', bf', n, None) ->
  splitLines (slice_to buf n) = pre ++ cl :: post ->
  isContentLengthHeader cl = true ->
  declaredLength cl = N -> 0 < N ->
  forallb (fun l => negb (isTransferEncodingHeader l)) (pre ++ cl :: post) = true ->
  forallb (fun l => negb (setsLength l)) post = true ->
  contentLength h' = N.
Proof.
  intros Hrun Hls Hcl HN Hpos Hte Hpost.
  rewrite (readHeaders_lines _ _ _ Hrun), Hls.
  rewrite headersAfter_app, headersAfter_cons.
  rewrite forallb_app in Hte. apply andb_true_iff in Hte. destruct Hte as [_ Hte].
  simpl in Hte. apply andb_true_iff in Hte. destruct Hte as [_ Hte].
  apply headersAfter_stay.
  - intros l h0 Hin Hh0.
    rewrite forallb_forall in Hpost, Hte.
    specialize (Hpost _ Hin). specialize (Hte _ Hin).
    apply negb_true_iff in Hpost. apply negb_true_iff in Hte.
    rewrite headerAfter_keeps; [exact Hh0 | exact Hpost | |];
      unfold setsIdentity, setsChunked; rewrite Hte; reflexivity.
  - rewrite headerAfter_length; [exact HN|].
    unfold setsLength. rewrite Hcl. simpl. apply Z.gtb_lt. lia.
Qed.

Lemma readHeaders_length_last_witness :
  exists b' h' bf' n,
    readHeaders oneLength freshHeader (MakeFixedSizeByteBuffer 128)
      = Some (b', h', bf', n, None)
    /\ contentLength h' = 42.
Proof.
  eexists _, _, _, _. split; [vm_compute; reflexivity|].
  eapply (@readHeaders_length_last oneLength freshHeader
            (MakeFixedSizeByteBuffer 128) _ _ _ _
            [line "Host: example.test"] (line "Content-Length: 42")
            [line "Content-Length: 0"; crlf] 42);
    [vm_compute; reflexivity | reflexivity .. ].
Defined.

(** C4 as stated fails: of two [Content-Length] lines the second one stays,
    so the block has a [Content-Length: 5] line, no [Transfer-Encoding]
    line, and [contentLength] is not [5]. *)
Lemma two_lengths_counterexample :
  exists b' h' bf' n,
    readHeaders twoLengths freshHeader (MakeFixedSizeByteBuffer 128)
      = Some (b', h', bf', n, None)
    /\ In (line "Content-Length: 5") (splitLines (slice_to twoLengths n))
    /\ declaredLength (line "Content-Length: 5") = 5
    /\ forallb (fun l => negb (isTransferEncodingHeader l))
         (splitLines (slice_to twoLengths n)) = true
    /\ contentLength h' = 7
    /\ contentLength h' <> 5.
Proof.
  eexists _, _, _, _. split; [vm_compute; reflexivity|].
  split; [vm_compute; tauto|].
  split; [vm_compute; reflexivity|].
  split; [vm_compute; reflexivity|].
  split; [vm_compute; reflexivity | vm_compute; discriminate].
Qed.

(** C10 as the code has it.  The accessor: [ContentLength()] is never
    negative, it is the stored value when that is positive and [0]
    otherwise.  After parsing: when the last line that sets the framing is a
    [Transfer-Encoding] line with [chunked] (or with [identity] and without
    [chunked]), [ContentLength()] is [0] and [IsBodyChunked()] (or
    [IsBodyIdentity()]) alone is true. *)
Theorem ContentLength_accessor :
  (forall header : Header,
      0 <= ContentLength header
      /\ (0 < contentLength header -> ContentLength header = contentLength header)
      /\ (contentLength header <= 0 -> ContentLength header = 0))
  /\ (forall buf h bf b' h' bf' n pre te post,
         readHeaders buf h bf = Some (b', h', bf', n, None) ->
         splitLines (slice_to buf n) = pre ++ te :: post ->
         setsChunked te = true \/ setsIdentity te = true ->
         forallb (fun l => negb (setsLength l) && negb (setsIdentity l)
                           && negb (setsChunked l)) post = true ->
         ContentLength h' = 0
         /\ IsBodyChunked h' = setsChunked te
         /\ IsBodyIdentity h' = negb (setsChunked te)).
Proof.
  split.
  - intros header. unfold ContentLength.
    destruct (contentLength header >? 0) eqn:E.
    + apply Z.gtb_lt in E. repeat split; lia.
    + assert (contentLength header <= 0)
        by (destruct (Z.gtb_spec (contentLength header) 0); [discriminate | lia]).
      repeat split; lia.
  - intros buf h bf b' h' bf' n pre te post Hrun Hls Hte Hpost.
    assert (Hv : contentLength h' = if setsChunked te then -1 else -2).
    { rewrite (readHeaders_lines _ _ _ Hrun), Hls.
      rewrite headersAfter_app, headersAfter_cons.
      apply headersAfter_stay.
      - intros l h0 Hin Hh0.
        rewrite forallb_forall in Hpost. specialize (Hpost _ Hin).
        apply andb_true_iff in Hpost. destruct Hpost as [Hpost Hc].
        apply andb_true_iff in Hpost. destruct Hpost as [Hl Hi].
        apply negb_true_iff in Hl. apply negb_true_iff in Hi.
        apply negb_true_iff in Hc.
        rewrite headerAfter_keeps by assumption. exact Hh0.
      - destruct (setsChunked te) eqn:Ec.
        + apply headerAfter_chunked. exact Ec.
        + destruct Hte as [Hte|Hte]; [discriminate|].
          apply headerAfter_identity. exact Hte. }
    unfold ContentLength, IsBodyChunked, IsBodyIdentity. rewrite Hv.
    destruct (setsChunked te); repeat split; reflexivity.
Qed.

Lemma ContentLength_accessor_witness :
  exists b' h' bf' n,
    readHeaders identityLast freshHeader (MakeFixedSizeByteBuffer 128)
      = Some (b', h', bf', n, None)
    /\ ContentLength h' = 0
    /\ IsBodyChunked h' = false
    /\ IsBodyIdentity h' = true.
Proof.
  eexists _, _, _, _. split; [vm_compute; reflexivity|].
  eapply (proj2 ContentLength_accessor identityLast freshHeader
            (MakeFixedSizeByteBuffer 128) _ _ _ _
            [line "Content-Length: 7"] (line "Transfer-Encoding: identity")
            [crlf]);
    [vm_compute; reflexivity | reflexivity | right; reflexivity | reflexivity].
Defined.

(** C10 as stated fails after parsing: the block has a
    [Transfer-Encoding: identity] line, and a [Content-Length] line after it
    makes [ContentLength()] return [7] and [IsBodyIdentity()] false. *)
Lemma identity_then_length_counterexample :
  exists b' h' bf' n,
    readHeaders identityFirst freshHeader (MakeFixedSizeByteBuffer 128)
      = Some (b', h', bf', n, None)
    /\ In (line "Transfer-Encoding: identity")
         (splitLines (slice_to identityFirst n))
    /\ ContentLength h' = 7
    /\ ContentLength h' <> 0
    /\ IsBodyIdentity h' = false.
Proof.
  eexists _, _, _, _. split; [vm_compute; reflexivity|].
  split; [vm_compute; tauto|].
  split; [vm_compute; reflexivity|].
  split; [vm_compute; discriminate | vm_compute; reflexivity].
Qed.

End FramingLength.

(** ** [tryRead] and the loop of [ParseHeaderFields] *)

Section TryRead.

Import header bytebufferpool bufio.

Lemma needMore_eqb (e : error) : error_eqb e errNeedMore = true <-> e = errNeedMore.
Proof. destruct e; simpl; split; intros H; congruence. Qed.

Lemma peekFill_enough (fuel : nat) (b : Reader) (n : Z) :
  n <= Buffered b -> peekFill fuel b n = b.
Proof.
  intros H. destruct fuel; simpl; [reflexivity|].
  destruct (Buffered b <? n) eqn:E; [apply Z.ltb_lt in E; lia | reflexivity].
Qed.

Lemma peekFill_full (fuel : nat) (b : Reader) (n : Z) :
  Z.of_nat (size b) <= Buffered b -> peekFill fuel b n = b.
Proof.
  intros H. destruct fuel; simpl; [reflexivity|].
  destruct (Buffered b <? Z.of_nat (size b)) eqn:E;
    [apply Z.ltb_lt in E; lia|].
  rewrite andb_false_r. reflexivity.
Qed.

Lemma slice_to_all (b : byteslice) : slice_to b (len b) = b.
Proof. unfold slice_to, len. rewrite Nat2Z.id. apply firstn_all. Qed.

(** What one [tryRead] can do: panic; fail on the first [Peek], with header
    and buffer untouched; or run [readHeaders] on the window of the reader
    and, when that succeeds, discard the header bytes. *)
Lemma tryRead_cases h rd bf n r :
  tryRead h rd bf n = Some r ->
  r = Panic
  \/ (exists rd' e, r = Return (h, rd', bf, Some e) /\ e <> errNeedMore)
  \/ (exists rd1 b1 h' bf' k pe,
         readHeaders (buffered rd1) h bf = Some (b1, h', bf', k, pe)
         /\ match pe with
            | Some x =>
                r = Return (h', setBuffered rd1 b1, bf',
                            Some (if error_eqb x errNeedMore then errNeedMore
                                  else errWrapper (Some x)))
            | None =>
                exists rd' k',
                  Discard (setBuffered rd1 b1) k = Some (rd', k', None)
                  /\ r = Return (h', rd', bf', None)
            end).
Proof.
  unfold tryRead. intros H.
  destruct (Peek rd n) as [[rd0 b0] e0].
  destruct (len b0 =? 0).
  { right. left.
    destruct ((n =? 1) || isEOF e0); inversion H; subst; eexists _, _;
      (split; [reflexivity|]); [discriminate|].
    destruct e0; discriminate. }
  destruct (Peek rd0 (Buffered rd0)) as [[rd1 b] e1] eqn:Ep.
  destruct ((len b =? 0) || match e1 with Some _ => true | None => false end) eqn:Eg.
  { left. inversion H. reflexivity. }
  assert (Hb : b = buffered rd1).
  { apply orb_false_iff in Eg. destruct Eg as [_ Eg].
    destruct e1; [discriminate|]. unfold Peek in Ep.
    destruct (Buffered rd0 <? 0); [inversion Ep|].
    rewrite peekFill_enough in Ep by lia.
    destruct (Buffered rd0 >? _); [inversion Ep|].
    destruct (Buffered rd0 <? Buffered rd0); [inversion Ep|].
    inversion Ep; subst. apply slice_to_all. }
  subst b.
  destruct (readHeaders (buffered rd1) h bf) as [[[[[b1 h1] bf1] k] pe]|] eqn:Er;
    [|discriminate].
  destruct pe as [x|].
  - right. right. exists rd1, b1, h1, bf1, k, (Some x). split; [exact Er|].
    destruct (error_eqb x errNeedMore); inversion H; reflexivity.
  - destruct (Discard (setBuffered rd1 b1) k) as [[[rd2 k2] [e2|]]|] eqn:Ed;
      inversion H.
    + left. reflexivity.
    + right. right. exists rd1, b1, h1, bf1, k, None. split; [exact Er|].
      exists rd2, k2. split; [exact Ed | reflexivity].
Qed.

(** An error of [readHeaders] leaves the buffer as it was or empty. *)
Lemma readHeaders_err_buffer buf h bf b' h' bf' n e :
  readHeaders buf h bf = Some (b', h', bf', n, Some e) ->
  (bf' = bf \/ B bf' = [])
  /\ (e = errNeedMore \/ e = io_ErrShortBuffer).
Proof.
  intros H. apply readHeaders_cases in H.
  inversion H as [Hi | l rest Hb Hl He | l rest ls b1 h1 bf1 e1 Hb Hl He Hs]; subst.
  - split; left; reflexivity.
  - destruct (Scan_err Hs) as (HB & _ & He'). split; [right; exact HB | exact He'].
Qed.

(** The lines a successful [readHeaders] leaves in the buffer: the buffer
    untouched, or the kept lines of the block and nothing else. *)
Lemma readHeaders_ok_buffer buf h bf b' h' bf' n :
  readHeaders buf h bf = Some (b', h', bf', n, None) ->
  bf' = bf
  \/ Forall (fun l => IsLine l /\ kept l = true) (splitLines (B bf')).
Proof.
  intros H. destruct (readHeaders_ok _ _ _ H)
    as (ls & rest & _ & Hall & _ & _ & _ & _ & [[_ Hbf] | [HB _]]).
  - left. exact Hbf.
  - right. rewrite HB.
    assert (Hf : Forall IsLine (filter kept ls)).
    { apply Forall_forall. intros x Hx. apply filter_In in Hx.
      rewrite Forall_forall in Hall. apply Hall. tauto. }
    rewrite splitLines_concat by exact Hf.
    apply Forall_forall. intros x Hx. split.
    + rewrite Forall_forall in Hf. apply Hf. exact Hx.
    + apply filter_In in Hx. tauto.
Qed.

End TryRead.

Section ParseLoop.

Import header bytebufferpool bufio.

Lemma kept_names (l : byteslice) :
  kept l = true ->
  forall name, In name strippedNames -> bytes.HasPrefix l name = false.
Proof.
  unfold kept, strippedNames. intros H name Hin.
  apply andb_true_iff in H. destruct H as [Hc Hp].
  apply negb_true_iff in Hc. apply negb_true_iff in Hp.
  destruct Hin as [<- | Hin]; [exact Hc|].
  unfold isProxyHeader in Hp.
  destruct (bytes.HasPrefix l name) eqn:E; [|reflexivity].
  assert (existsb (fun k => bytes.HasPrefix l k) proxyHeaders = true)
    by (apply existsb_exists; exists name; tauto).
  congruence.
Qed.

(** C6: when [ParseHeaderFields] returns an error, the target buffer is
    empty: the error is not the internal [errNeedMore], and the buffer was
    reset before the return. *)
Theorem ParseHeaderFields_error_resets fuel h rd bf h' rd' bf' e :
  ParseHeaderFields fuel h rd bf = Some (Return (h', rd', bf', Some e)) ->
  B bf' = [] /\ e <> errNeedMore.
Proof.
  unfold ParseHeaderFields. generalize 1 as n. revert h rd bf.
  induction fuel as [|fuel IH]; intros h rd bf n H; simpl in H; [discriminate|].
  destruct (tryRead h rd bf n) as [[[[[h1 rd1] bf1] [e1|]]|]|];
    try discriminate.
  destruct (error_eqb e1 errNeedMore) eqn:E; simpl in H.
  - apply IH in H. exact H.
  - inversion H; subst. split; [reflexivity|].
    intros ->. discriminate.
Qed.

(** Scenario 6: capacity 5, the block does not fit, the error is the short
    buffer one and what the buffer held before is gone. *)
Lemma ParseHeaderFields_error_resets_witness :
  exists h' rd',
    ParseHeaderFields 1 freshHeader (newReader 4096 [(shortScenario, None)])
      (usedBuffer "old" 5)
    = Some (Return (h', rd', MakeFixedSizeByteBuffer 5,
                    Some (Errorf headersFormat io_ErrShortBuffer)))
    /\ B (MakeFixedSizeByteBuffer 5) = []
    /\ Errorf headersFormat io_ErrShortBuffer <> errNeedMore.
Proof.
  eexists _, _.
  assert (H : ParseHeaderFields 1 freshHeader
                (newReader 4096 [(shortScenario, None)]) (usedBuffer "old" 5)
              = Some (Return (_, _, MakeFixedSizeByteBuffer 5,
                              Some (Errorf headersFormat io_ErrShortBuffer))))
    by (vm_compute; reflexivity).
  split; [exact H|].
  exact (ParseHeaderFields_error_resets _ _ _ _ H).
Defined.

(** An empty first read: the error is the end-of-file one, the buffer is
    reset. *)
Lemma ParseHeaderFields_eof_resets :
  exists h' rd',
    ParseHeaderFields 1 freshHeader (newReader 4096 []) (usedBuffer "old" 64)
    = Some (Return (h', rd', MakeFixedSizeByteBuffer 64,
                    Some (Errorf headersFormat io_EOF))).
Proof. eexists _, _. vm_compute. reflexivity. Qed.

Lemma parseLoop_ok_buffer fuel :
  forall h rd bf0 n h' rd' bf' (bf : ByteBuffer),
    parseLoop fuel h rd bf0 n = Some (Return (h', rd', bf', None)) ->
    B bf0 = B bf \/ B bf0 = [] ->
    B bf' = B bf
    \/ Forall (fun l => IsLine l /\ kept l = true) (splitLines (B bf')).
Proof.
  induction fuel as [|fuel IH]; intros h rd bf0 n h' rd' bf' bf H Hinv;
    simpl in H; [discriminate|].
  destruct (tryRead h rd bf0 n) as [r|] eqn:Et; [|discriminate].
  destruct (tryRead_cases _ _ _ _ Et)
    as [-> | [(rd1 & e1 & -> & Hne)
             | (rd1 & b1 & h1 & bf1 & k & pe & Hr & Hpe)]].
  - discriminate.
  - destruct (error_eqb e1 errNeedMore) eqn:E.
    + apply needMore_eqb in E. contradiction.
    + simpl in H. discriminate.
  - destruct pe as [x|].
    + subst r. destruct (readHeaders_err_buffer _ _ _ Hr) as [Hb _].
      destruct (error_eqb x errNeedMore) eqn:E; simpl in H.
      * apply (IH _ _ _ _ _ _ _ bf H).
        destruct Hb as [-> | Hb]; [exact Hinv | right; exact Hb].
      * discriminate.
    + destruct Hpe as (rd2 & k2 & _ & ->). inversion H; subst.
      destruct (readHeaders_ok_buffer _ _ _ Hr) as [-> | Hk].
      * destruct Hinv as [Hinv | Hinv]; [left; exact Hinv|].
        right. rewrite Hinv. constructor.
      * right. exact Hk.
Qed.

(** C3: after a successful [ParseHeaderFields] the target buffer is as it
    was, nothing having been written to it (the block was the empty line
    alone), or it holds whole lines none of which begins with [Connection],
    [Accept-Encoding], [Proxy-Connection], [Proxy-Authenticate] or
    [Proxy-Authorization]. *)
Theorem ParseHeaderFields_strips fuel h rd bf h' rd' bf' :
  ParseHeaderFields fuel h rd bf = Some (Return (h', rd', bf', None)) ->
  B bf' = B bf
  \/ Forall (fun l => IsLine l
                      /\ forall name, In name strippedNames ->
                                      bytes.HasPrefix l name = false)
       (splitLines (B bf')).
Proof.
  intros H.
  destruct (parseLoop_ok_buffer _ _ _ _ _ bf H (or_introl eq_refl)) as [Hb | Hk].
  - left. exact Hb.
  - right. apply Forall_forall. intros l Hl.
    rewrite Forall_forall in Hk. destruct (Hk _ Hl) as [Hline Hkept].
    split; [exact Hline | apply kept_names; exact Hkept].
Qed.

(** Scenario 1: of the five lines, [Host] and the empty line stay. *)
Lemma ParseHeaderFields_strips_witness :
  exists h' rd' bf',
    ParseHeaderFields 1 freshHeader (newReader 4096 [(plainRequest, None)])
      (usedBuffer "old" 128)
    = Some (Return (h', rd', bf', None))
    /\ B bf' = line "Host: example.test" ++ crlf
    /\ (B bf' = bs "old"
        \/ Forall (fun l => IsLine l
                            /\ forall name, In name strippedNames ->
                                            bytes.HasPrefix l name = false)
             (splitLines (B bf'))).
Proof.
  eexists _, _, _.
  assert (H : ParseHeaderFields 1 freshHeader
                (newReader 4096 [(plainRequest, None)]) (usedBuffer "old" 128)
              = Some (Return (_, _, _, None)))
    by (vm_compute; reflexivity).
  split; [exact H|]. split; [reflexivity|].
  exact (ParseHeaderFields_strips _ _ _ _ H).
Defined.

End ParseLoop.

(** ** A block that is all there: [ParseHeaderFields] copies it *)

Section RoundTrip.

Import header bytebufferpool bufio.

Lemma isLineb_IsLine (l : byteslice) : isLineb l = true -> IsLine l.
Proof.
  unfold isLineb, IsLine. intros H.
  destruct (rev l) as [|c body] eqn:E; [discriminate|].
  apply andb_true_iff in H. destruct H as [Hc Hn].
  apply byte_dec_bl in Hc. subst c. apply negb_true_iff in Hn.
  exists (rev body). split.
  - rewrite <- (rev_involutive l), E. reflexivity.
  - intros Hin. apply in_rev in Hin.
    assert (existsb (Byte.eqb LF) body = true)
      by (apply existsb_exists; exists LF; split;
          [exact Hin | apply byte_dec_lb; reflexivity]).
    congruence.
Qed.

Lemma concat_splitLines (b : byteslice) : concat (splitLines b) = b.
Proof.
  induction b as [|c b IH]; simpl; [reflexivity|].
  destruct (Byte.eqb c LF).
  - simpl. rewrite IH. reflexivity.
  - destruct (splitLines b) as [|l ls]; simpl in *; rewrite <- IH; reflexivity.
Qed.

Lemma completeBlock_lines (blk : byteslice) :
  completeBlock blk = true ->
  blk = concat (splitLines blk)
  /\ Forall IsLine (splitLines blk) /\ isBlock (splitLines blk) = true.
Proof.
  unfold completeBlock. intros H. apply andb_true_iff in H. destruct H as [Hl Hb].
  split; [symmetry; apply concat_splitLines|]. split; [|exact Hb].
  apply Forall_forall. intros l Hin. apply isLineb_IsLine.
  rewrite forallb_forall in Hl. apply Hl. exact Hin.
Qed.

Lemma kept_lineAfter (l : byteslice) : kept l = true -> lineAfter l = l.
Proof.
  unfold kept, lineAfter. intros H. apply andb_true_iff in H.
  destruct H as [H _]. apply negb_true_iff in H. rewrite H. reflexivity.
Qed.

(** The scan of a block of kept lines that fits the buffer goes through
    the whole block and appends it. *)
Lemma Scan_block (ls : list byteslice) :
  forall rest h bf ls' b' h' bf' e,
    Scan (concat ls ++ rest) h bf ls' b' h' bf' e ->
    Forall IsLine ls -> isBlock ls = true -> forallb kept ls = true ->
    (length (B bf) + length (concat ls) <= capacity bf)%nat ->
    e = None /\ ls' = ls /\ b' = concat ls ++ rest
    /\ B bf' = B bf ++ concat ls.
Proof.
  induction ls as [|l ls IH]; intros rest h bf ls' b' h' bf' e Hs Hall Hblk Hk Hcap;
    [discriminate|].
  inversion Hall as [|? ? Hl Hall']; subst.
  simpl in Hk. apply andb_true_iff in Hk. destruct Hk as [Hkl Hk].
  simpl concat in *. rewrite <- app_assoc in Hs. rewrite length_app in Hcap.
  inversion Hs as [b0 h0 bf0 Hi
                  | l2 rest2 h0 bf0 l1 h1 bf1 e1 Hl2 Hp Heq
                  | l2 rest2 h0 bf0 l1 h1 bf1 Hl2 Hp He Heq
                  | l2 rest2 h0 bf0 l1 h1 bf1 ls2 rest3 h2 bf2 e2 Hl2 Hp He Hs2 Heq];
    subst.
  - rewrite IndexByte_line in Hi by exact Hl. pose proof (IsLine_len Hl). lia.
  - destruct (line_unique _ _ Hl2 Hl Heq) as [-> ->].
    destruct (line_buffer_err Hp eq_refl) as (_ & _ & Hc). lia.
  - destruct (line_unique _ _ Hl2 Hl Heq) as [-> ->].
    rewrite (line_endsBlock _ _ _ Hp) in He.
    simpl in Hblk. rewrite He in Hblk.
    destruct ls as [|x ls]; [|discriminate]. simpl.
    destruct (line_buffer_ok Hp eq_refl) as [HB _].
    rewrite (line_bytes Hp), Hkl in *.
    unfold kept in Hkl. apply andb_true_iff in Hkl. destruct Hkl as [Hkl _].
    apply negb_true_iff in Hkl. rewrite Hkl, !app_nil_r.
    repeat split. exact HB.
  - destruct (line_unique _ _ Hl2 Hl Heq) as [-> ->].
    rewrite (line_endsBlock _ _ _ Hp) in He.
    simpl in Hblk. rewrite He in Hblk.
    destruct (line_buffer_ok Hp eq_refl) as [HB Hc1].
    rewrite Hkl in HB.
    destruct (IH _ _ _ _ _ _ _ _ Hs2 Hall' Hblk Hk) as (-> & -> & -> & HB2).
    { rewrite HB, Hc1, length_app. lia. }
    rewrite (line_bytes Hp).
    pose proof Hkl as Hkl'. unfold kept in Hkl'.
    apply andb_true_iff in Hkl'. destruct Hkl' as [Hkl' _].
    apply negb_true_iff in Hkl'. rewrite Hkl'.
    repeat split.
    + rewrite <- app_assoc. reflexivity.
    + rewrite HB2, HB, <- app_assoc. reflexivity.
Qed.

Lemma readHeaders_block (ls : list byteslice) (rest : byteslice) h bf :
  Forall IsLine ls -> isBlock ls = true -> forallb kept ls = true ->
  (1 < length ls)%nat ->
  (length (concat ls) <= capacity bf)%nat ->
  readHeaders (concat ls ++ rest) h bf
  = Some (concat ls ++ rest, headersAfter ls h,
          {| B := concat ls; capacity := capacity bf |},
          len (concat ls), None).
Proof.
  intros Hall Hblk Hk Hlen Hcap.
  destruct (readHeaders_total (concat ls ++ rest) h bf) as [r Hr].
  rewrite Hr. f_equal.
  destruct ls as [|l ls]; [discriminate|].
  inversion Hall as [|? ? Hl Hall']; subst.
  assert (He : endsBlock l = false).
  { simpl in Hblk. destruct (endsBlock l); [|reflexivity].
    destruct ls; [simpl in Hlen; lia | discriminate]. }
  pose proof (readHeaders_cases _ _ _ Hr) as Hc.
  assert (Hbuf : concat (l :: ls) ++ rest = l ++ concat ls ++ rest)
    by (simpl; rewrite <- app_assoc; reflexivity).
  inversion Hc as [Hi | l2 rest2 Hb Hl2 He2 | l2 rest2 ls2 b1 h1 bf1 e1 Hb Hl2 He2 Hs];
    subst.
  - rewrite Hbuf, IndexByte_line in Hi by exact Hl.
    pose proof (IsLine_len Hl). lia.
  - rewrite Hbuf in Hb. destruct (line_unique _ _ Hl Hl2 Hb) as [-> _]. congruence.
  - destruct (Scan_block (ls := l :: ls) rest Hs Hall Hblk Hk)
      as (-> & Els & -> & HB).
    { simpl length at 1. exact Hcap. }
    destruct (Scan_ok Hs) as (_ & -> & _ & Hcp).
    rewrite Els. unfold scanned. simpl in HB, Hcp.
    destruct bf1 as [B1 c1]. simpl in *. subst. reflexivity.
Qed.

Lemma Discard_buffered (rd : Reader) (k : Z) :
  0 < k -> k <= Buffered rd ->
  Discard rd k = Some (setBuffered rd (slice_from (buffered rd) k), k, None).
Proof.
  intros Hk Hb. unfold Discard.
  destruct (k <? 0) eqn:E1; [apply Z.ltb_lt in E1; lia|].
  destruct (k =? 0) eqn:E2; [apply Z.eqb_eq in E2; lia|].
  destruct (Z.to_nat k) as [|f] eqn:Ef; [lia|]. simpl.
  destruct (Buffered rd =? 0) eqn:E3; [apply Z.eqb_eq in E3; lia|].
  assert (Es : (if Buffered rd >? k then k else Buffered rd) = k).
  { destruct (Buffered rd >? k) eqn:E4; [reflexivity|].
    destruct (Z.gtb_spec (Buffered rd) k); [discriminate | lia]. }
  rewrite Es, Z.sub_diag. reflexivity.
Qed.

(** With bytes in the window, the first [tryRead] reads nothing from the
    connection and hands the window to [readHeaders]. *)
Lemma tryRead_buffered h (rd : Reader) bf b1 h1 bf1 k :
  buffered rd <> [] -> (length (buffered rd) <= size rd)%nat ->
  readHeaders (buffered rd) h bf = Some (b1, h1, bf1, k, None) ->
  0 < k -> k <= len b1 ->
  tryRead h rd bf 1
  = Some (Return (h1, setBuffered rd (slice_from b1 k), bf1, None)).
Proof.
  intros Hne Hsz Hr Hk Hkb. unfold tryRead.
  assert (Hb : 1 <= Buffered rd).
  { unfold Buffered, len. destruct (buffered rd); [congruence | simpl; lia]. }
  assert (Hp1 : Peek rd 1 = (rd, slice_to (buffered rd) 1, None)).
  { unfold Peek. simpl (1 <? 0). rewrite peekFill_enough by exact Hb.
    destruct (1 >? Z.of_nat (size rd)) eqn:E1.
    { apply Z.gtb_lt in E1. unfold Buffered, len in Hb. lia. }
    destruct (Buffered rd <? 1) eqn:E2; [apply Z.ltb_lt in E2; lia|].
    reflexivity. }
  rewrite Hp1.
  assert (Hl1 : (len (slice_to (buffered rd) 1) =? 0) = false).
  { destruct (buffered rd); [congruence | reflexivity]. }
  rewrite Hl1.
  assert (Hp2 : Peek rd (Buffered rd) = (rd, buffered rd, None)).
  { unfold Peek.
    destruct (Buffered rd <? 0) eqn:E0; [apply Z.ltb_lt in E0; lia|].
    rewrite peekFill_enough by lia.
    destruct (Buffered rd >? Z.of_nat (size rd)) eqn:E1.
    { apply Z.gtb_lt in E1. unfold Buffered, len in E1. lia. }
    rewrite Z.ltb_irrefl. unfold Buffered. rewrite slice_to_all. reflexivity. }
  rewrite Hp2.
  assert (Hl2 : (len (buffered rd) =? 0) = false)
    by (apply Z.eqb_neq; unfold Buffered in Hb; lia).
  rewrite Hl2. simpl. rewrite Hr.
  rewrite Discard_buffered by (unfold Buffered; simpl; lia).
  reflexivity.
Qed.

(** C5 as the code has it: a complete header block that has a line before
    its empty line and no line to strip, that is in the window of the reader
    and fits the target buffer, is copied: [ParseHeaderFields] returns nil,
    the buffer holds the bytes of the block, whatever it held before, and
    the reader is past the block and nothing else. *)
Theorem ParseHeaderFields_copies_block fuel h (rd : Reader) bf blk rest :
  buffered rd = blk ++ rest -> (length (buffered rd) <= size rd)%nat ->
  completeBlock blk = true ->
  (1 < length (splitLines blk))%nat ->
  forallb kept (splitLines blk) = true ->
  (length blk <= capacity bf)%nat ->
  ParseHeaderFields (S fuel) h rd bf
  = Some (Return (headersAfter (splitLines blk) h,
                  setBuffered rd rest,
                  {| B := blk; capacity := capacity bf |},
                  None)).
Proof.
  intros Hw Hsz Hblk Hlen Hk Hcap.
  destruct (completeBlock_lines _ Hblk) as (Hc & Hall & Hb).
  set (ls := splitLines blk) in *.
  assert (Hr : readHeaders (buffered rd) h bf
               = Some (blk ++ rest, headersAfter ls h,
                       {| B := blk; capacity := capacity bf |}, len blk, None)).
  { rewrite Hw. rewrite Hc at 1 2 3 4.
    apply readHeaders_block; try assumption. rewrite <- Hc. exact Hcap. }
  assert (Hpos : 0 < len blk).
  { rewrite Hc. destruct ls as [|l ls']; [simpl in Hlen; lia|].
    inversion Hall; subst. simpl. rewrite len_app.
    pose proof (IsLine_len H1). pose proof (len_nonneg (concat ls')). lia. }
  assert (Hne : buffered rd <> []).
  { rewrite Hw. intros E. apply (f_equal len) in E. rewrite len_app in E.
    pose proof (len_nonneg rest). unfold len at 3 in E. simpl in E. lia. }
  assert (Hle : len blk <= len (blk ++ rest))
    by (rewrite len_app; pose proof (len_nonneg rest); lia).
  unfold ParseHeaderFields. simpl.
  rewrite (@tryRead_buffered h rd bf _ _ _ _ Hne Hsz Hr Hpos Hle).
  rewrite slice_from_app. reflexivity.
Qed.

Lemma ParseHeaderFields_copies_block_witness :
  ParseHeaderFields 1 freshHeader
    {| rd := []; size := 4096; buffered := cleanBlock ++ bs "hi"; err := None |}
    (usedBuffer "old" 128)
  = Some (Return ({| isConnectionClose := false; contentLength := 2 |},
                  {| rd := []; size := 4096; buffered := bs "hi"; err := None |},
                  {| B := cleanBlock; capacity := 128 |},
                  None)).
Proof.
  apply (@ParseHeaderFields_copies_block 0 freshHeader
           {| rd := []; size := 4096; buffered := cleanBlock ++ bs "hi";
              err := None |}
           (usedBuffer "old" 128) cleanBlock (bs "hi"));
    try reflexivity; vm_compute; lia.
Defined.

(** C5 as stated fails on the block that is the empty line alone: it is
    complete and has no line to strip, [ParseHeaderFields] returns nil past
    its two bytes and writes nothing, the buffer is as it was. *)
Lemma empty_block_counterexample :
  completeBlock emptyBlock = true
  /\ forallb kept (splitLines emptyBlock) = true
  /\ (exists h' rd' bf',
         ParseHeaderFields 1 freshHeader
           {| rd := []; size := 4096; buffered := emptyBlock ++ bs "hi";
              err := None |}
           (MakeFixedSizeByteBuffer 128)
         = Some (Return (h', rd', bf', None))
         /\ buffered rd' = bs "hi"
         /\ B bf' = []
         /\ B bf' <> emptyBlock).
Proof.
  split; [reflexivity|]. split; [reflexivity|].
  eexists _, _, _. split; [vm_compute; reflexivity|].
  split; [reflexivity|]. split; [reflexivity | discriminate].
Qed.

End RoundTrip.

(** ** When the line feed never comes *)

Section Stalled.

Import header bytebufferpool bufio.

Lemma parseLoop_unfold fuel h rd bf n :
  parseLoop (S fuel) h rd bf n =
    match tryRead h rd bf n with
    | None => None
    | Some Panic => Some Panic
    | Some (Return (st, None)) => Some (Return (st, None))
    | Some (Return ((header, reader, buffer), Some e)) =>
        if negb (error_eqb e errNeedMore)
        then Some (Return ((header, reader, bytebufferpool.Reset buffer), Some e))
        else parseLoop fuel header reader buffer (Buffered reader + 1)
    end.
Proof. reflexivity. Qed.

Lemma Peek_window (rd : Reader) :
  (length (buffered rd) <= size rd)%nat ->
  Peek rd (Buffered rd) = (rd, buffered rd, None).
Proof.
  intros Hsz. unfold Peek.
  assert (0 <= Buffered rd) by apply len_nonneg.
  destruct (Buffered rd <? 0) eqn:E0; [apply Z.ltb_lt in E0; lia|].
  rewrite peekFill_enough by lia.
  destruct (Buffered rd >? Z.of_nat (size rd)) eqn:E1.
  { apply Z.gtb_lt in E1. unfold Buffered, len in E1. lia. }
  rewrite Z.ltb_irrefl. unfold Buffered. rewrite slice_to_all. reflexivity.
Qed.

Lemma peekFill_step (fuel : nat) (b : Reader) (n : Z) :
  peekFill (S fuel) b n =
    if (Buffered b <? n) && (Buffered b <? Z.of_nat (size b))
       && match err b with None => true | Some _ => false end
    then peekFill fuel (fill b) n
    else b.
Proof. reflexivity. Qed.

(** With an error pending [Peek] does not fill. *)
Lemma peekFill_pending (fuel : nat) (b : Reader) (n : Z) (e : error) :
  err b = Some e -> peekFill fuel b n = b.
Proof.
  intros He. destruct fuel; [reflexivity|].
  rewrite peekFill_step, He, andb_false_r. reflexivity.
Qed.

(** At the end of the connection [fill] reads nothing and keeps the error. *)
Lemma fillTries_eof (i : nat) (r : Reader) :
  rd r = [] -> fillTries (S i) r = setErr r (Some io_EOF).
Proof.
  intros Hrd. destruct r as [s sz w e]. simpl in Hrd. subst s.
  unfold setErr. simpl. rewrite app_nil_r. reflexivity.
Qed.

(** One byte more than the window is asked for, at the end of the
    connection or with the buffer full: [Peek] gives the window back, with
    an error that [tryRead] does not look at, and leaves the reader as it
    was. *)
Lemma Peek_stalled (r : Reader) :
  err r = None ->
  (rd r = [] /\ (length (buffered r) < size r)%nat)
  \/ length (buffered r) = size r ->
  exists e, Peek r (Buffered r + 1) = (r, buffered r, Some e).
Proof.
  intros He Hc. unfold Peek.
  assert (H0 : 0 <= Buffered r) by apply len_nonneg.
  destruct (Buffered r + 1 <? 0) eqn:E0; [apply Z.ltb_lt in E0; lia|].
  destruct Hc as [[Hrd Hlt] | Hfull].
  - assert (Hf : peekFill (S (size r)) r (Buffered r + 1)
                 = setErr r (Some io_EOF)).
    { assert (E1 : (Buffered r <? Buffered r + 1) = true) by (apply Z.ltb_lt; lia).
      assert (E2 : (Buffered r <? Z.of_nat (size r)) = true)
        by (apply Z.ltb_lt; unfold Buffered, len; lia).
      rewrite peekFill_step, E1, E2, He.
      cbv beta iota delta [andb].
      unfold fill, maxConsecutiveEmptyReads.
      rewrite fillTries_eof by exact Hrd.
      apply peekFill_pending with (e := io_EOF). reflexivity. }
    rewrite Hf. simpl.
    destruct (Buffered r + 1 >? Z.of_nat (size r)) eqn:E3.
    { apply Z.gtb_lt in E3. unfold Buffered, len in E3. lia. }
    change (Buffered (setErr r (Some io_EOF))) with (Buffered r).
    assert (E4 : (Buffered r <? Buffered r + 1) = true) by (apply Z.ltb_lt; lia).
    rewrite E4. exists io_EOF. unfold setErr. simpl.
    destruct r as [s sz w e]. simpl in *. subst. reflexivity.
  - rewrite peekFill_full.
    + assert (E3 : (Buffered r + 1 >? Z.of_nat (size r)) = true)
        by (apply Z.gtb_lt; unfold Buffered, len; lia).
      rewrite E3. exists bufio_ErrBufferFull. reflexivity.
    + unfold Buffered, len. lia.
Qed.

Lemma tryRead_stalled h (r : Reader) bf :
  err r = None ->
  buffered r <> [] -> bytes.IndexByte (buffered r) LF < 0 ->
  (rd r = [] /\ (length (buffered r) < size r)%nat)
  \/ length (buffered r) = size r ->
  tryRead h r bf (Buffered r + 1) = Some (Return (h, r, bf, Some errNeedMore)).
Proof.
  intros He Hne Hlf Hc. unfold tryRead.
  destruct (Peek_stalled r He Hc) as [e ->].
  assert (Hl : (len (buffered r) =? 0) = false).
  { apply Z.eqb_neq. unfold len. destruct (buffered r); [congruence | simpl; lia]. }
  rewrite Hl. rewrite Peek_window by (destruct Hc as [[_ Hc] | Hc]; lia).
  rewrite Hl. simpl.
  unfold readHeaders.
  assert (E : (bytes.IndexByte (buffered r) LF <? 0) = true) by (apply Z.ltb_lt; lia).
  rewrite E. simpl. destruct r. reflexivity.
Qed.

(** From such a state the loop of [ParseHeaderFields] comes back to the
    same state at every round: it returns after no number of rounds. *)
Lemma parseLoop_stalled fuel h (r : Reader) bf :
  err r = None ->
  buffered r <> [] -> bytes.IndexByte (buffered r) LF < 0 ->
  (rd r = [] /\ (length (buffered r) < size r)%nat)
  \/ length (buffered r) = size r ->
  parseLoop fuel h r bf (Buffered r + 1) = None.
Proof.
  intros He Hne Hlf Hc. induction fuel as [|fuel IH]; [reflexivity|].
  rewrite parseLoop_unfold, tryRead_stalled by assumption. exact IH.
Qed.

(** C2: the claim fails on this input.  The peer sends the beginning of a
    header line, [Host: example.test] with no line feed, and closes the connection.
    The reader is to be left past a header block, or an error is to be
    returned with the reader past nothing; the code does neither.  [tryRead]
    looks at the error of [Peek] only when no byte is buffered, so the end
    of file that [Peek] reports beside the 18 buffered bytes is dropped,
    every round ends in [errNeedMore] with the reader where it was, and
    [ParseHeaderFields] makes the next round.  Whatever the number of
    rounds, its loop is still running: the call returns nothing, neither
    nil nor an error. *)
Theorem ParseHeaderFields_truncated_never_returns (fuel : nat) :
  ParseHeaderFields fuel freshHeader (newReader 4096 truncatedRequest)
    (MakeFixedSizeByteBuffer 128) = None.
Proof.
  destruct fuel as [|fuel]; [reflexivity|].
  unfold ParseHeaderFields. rewrite parseLoop_unfold.
  assert (Ht : tryRead freshHeader (newReader 4096 truncatedRequest)
                 (MakeFixedSizeByteBuffer 128) 1
               = Some (Return (freshHeader,
                               {| rd := []; size := 4096;
                                  buffered := bs "Host: example.test";
                                  err := None |},
                               MakeFixedSizeByteBuffer 128, Some errNeedMore)))
    by (vm_compute; reflexivity).
  rewrite Ht. simpl negb. cbv iota.
  apply parseLoop_stalled.
  - reflexivity.
  - discriminate.
  - vm_compute. reflexivity.
  - left. split; [reflexivity | apply Nat.ltb_lt; vm_compute; reflexivity].
Qed.

(** The same with a header line that does not fit the buffer of the reader,
    here of 16 bytes. *)
Lemma ParseHeaderFields_long_line_never_returns (fuel : nat) :
  ParseHeaderFields fuel freshHeader (newReader 16 longLine)
    (MakeFixedSizeByteBuffer 128) = None.
Proof.
  destruct fuel as [|fuel]; [reflexivity|].
  unfold ParseHeaderFields. rewrite parseLoop_unfold.
  assert (Ht : tryRead freshHeader (newReader 16 longLine)
                 (MakeFixedSizeByteBuffer 128) 1
               = Some (Return (freshHeader,
                               {| rd := [(bs "89abcdef0123456789abcdef"
                                          ++ crlf ++ crlf, None)];
                                  size := 16;
                                  buffered := bs "Cookie: 01234567";
                                  err := None |},
                               MakeFixedSizeByteBuffer 128, Some errNeedMore)))
    by (vm_compute; reflexivity).
  rewrite Ht. simpl negb. cbv iota.
  apply parseLoop_stalled.
  - reflexivity.
  - discriminate.
  - vm_compute. reflexivity.
  - right. reflexivity.
Qed.

End Stalled.

(** ** What [ParseHeaderFields] takes from the reader *)

Section Frame.

Import header bytebufferpool bufio.

Lemma toLower_idem (c : byte) : toLower (toLower c) = toLower c.
Proof. destruct c; reflexivity. Qed.

Lemma sameCase_lower (l : byteslice) : sameCase (changeToLowerCase l) l.
Proof.
  unfold sameCase, changeToLowerCase. rewrite map_map.
  apply map_ext. intros c. apply toLower_idem.
Qed.

Lemma sameCase_lines (ls : list byteslice) :
  sameCase (concat (map lineAfter ls)) (concat ls).
Proof.
  unfold sameCase. induction ls as [|l ls IH]; simpl; [reflexivity|].
  rewrite !map_app, IH. f_equal. unfold lineAfter.
  destruct (isConnectionHeader l); [apply sameCase_lower | reflexivity].
Qed.

Lemma sameCase_app (a a' b b' : byteslice) :
  sameCase a a' -> sameCase b b' -> sameCase (a ++ b) (a' ++ b').
Proof. unfold sameCase. intros Ha Hb. rewrite !map_app, Ha, Hb. reflexivity. Qed.

Lemma readHeaders_sameCase buf h bf b' h' bf' n e :
  readHeaders buf h bf = Some (b', h', bf', n, e) ->
  sameCase b' buf /\ length b' = length buf.
Proof.
  intros H. apply readHeaders_cases in H.
  inversion H as [Hi | l rest Hb Hl He | l rest ls b1 h1 bf1 e1 Hb Hl He Hs]; subst;
    try (split; reflexivity).
  destruct (Scan_bytes Hs) as [_ (r & Hbuf & ->)]. rewrite Hbuf. split.
  - apply sameCase_app; [apply sameCase_lines | reflexivity].
  - pose proof (sameCase_lines (l :: ls)) as Hc. unfold sameCase in Hc.
    apply (f_equal (@length byte)) in Hc. rewrite !length_map in Hc.
    rewrite !length_app. rewrite Hc. reflexivity.
Qed.

Lemma srcRead_spec (s : Source) (room : nat) d e s' :
  srcRead s room = (d, e, s') ->
  (length d <= room)%nat /\ concat (map fst s) = d ++ concat (map fst s').
Proof.
  unfold srcRead. destruct s as [|[d0 e0] s0].
  - intros H. inversion H; subst. simpl. split; [lia | reflexivity].
  - destruct (length d0 <=? room)%nat eqn:E; intros H; inversion H; subst.
    + apply Nat.leb_le in E. simpl. split; [lia | reflexivity].
    + simpl. split; [apply firstn_le_length|].
      rewrite app_assoc, firstn_skipn. reflexivity.
Qed.

Lemma fillTries_spec (i : nat) :
  forall r, inBuffer r ->
    inBuffer (fillTries i r) /\ size (fillTries i r) = size r
    /\ unread (fillTries i r) = unread r
    /\ (buffered r <> [] -> buffered (fillTries i r) <> []).
Proof.
  unfold inBuffer, unread.
  induction i as [|i IH]; intros r Hr; simpl; [tauto|].
  destruct (srcRead (rd r) (size r - length (buffered r))) as [[d e] s'] eqn:Es.
  destruct (srcRead_spec _ _ Es) as [Hd Hu].
  assert (Hne : buffered r <> [] -> buffered r ++ d <> [])
    by (destruct (buffered r); [congruence | discriminate]).
  destruct e as [e|]; simpl.
  - rewrite length_app, Hu, <- app_assoc. repeat split; [lia | exact Hne].
  - destruct (0 <? length d)%nat; simpl.
    + rewrite length_app, Hu, <- app_assoc. repeat split; [lia | exact Hne].
    + destruct (IH {| rd := s'; size := size r; buffered := buffered r ++ d;
                      err := err r |}) as (H1 & H2 & H3 & H4).
      { simpl. rewrite length_app. lia. }
      simpl in *. rewrite H3, Hu, <- app_assoc. repeat split; try assumption.
      intros Hb. apply H4, Hne, Hb.
Qed.

Lemma fill_spec (r : Reader) :
  inBuffer r ->
  inBuffer (fill r) /\ size (fill r) = size r
  /\ unread (fill r) = unread r
  /\ (buffered r <> [] -> buffered (fill r) <> []).
Proof. intros Hr. unfold fill. apply fillTries_spec. exact Hr. Qed.

Lemma peekFill_spec (fuel : nat) (n : Z) :
  forall r, inBuffer r ->
    inBuffer (peekFill fuel r n) /\ size (peekFill fuel r n) = size r
    /\ unread (peekFill fuel r n) = unread r
    /\ (buffered r <> [] -> buffered (peekFill fuel r n) <> []).
Proof.
  induction fuel as [|fuel IH]; intros r Hr.
  { simpl. repeat split; [exact Hr | intros H; exact H]. }
  rewrite peekFill_step.
  destruct (_ && _).
  - generalize (fill_spec Hr). generalize (fill r). intros r1 (H1 & H2 & H3 & H4).
    destruct (IH r1 H1) as (G1 & G2 & G3 & G4).
    split; [exact G1|]. split; [rewrite G2; exact H2|].
    split; [rewrite G3; exact H3|].
    intros Hb. apply G4, H4, Hb.
  - repeat split; [exact Hr | intros H; exact H].
Qed.

(** [Peek] takes nothing from the reader; with [1 <= n], what it returns is
    empty exactly when the window is. *)
Lemma Peek_spec (r : Reader) (n : Z) r' w e :
  inBuffer r -> 1 <= n -> Peek r n = (r', w, e) ->
  inBuffer r' /\ size r' = size r /\ unread r' = unread r
  /\ (w = [] <-> buffered r' = [])
  /\ (buffered r <> [] -> w <> []).
Proof.
  intros Hr Hn. unfold Peek.
  destruct (n <? 0) eqn:E0; [apply Z.ltb_lt in E0; lia|].
  destruct (peekFill_spec (S (size r)) n Hr) as (H1 & H2 & H3 & H4).
  generalize dependent (peekFill (S (size r)) r n). intros p H1 H2 H3 H4.
  destruct (n >? Z.of_nat (size p)).
  { intros H. inversion H; subst. tauto. }
  destruct (Buffered p <? n) eqn:E1.
  { intros H. inversion H; subst. unfold inBuffer, unread in *. simpl. tauto. }
  intros H. inversion H; subst r' w e. clear H.
  apply Z.ltb_ge in E1. unfold Buffered, len in E1.
  assert (Hcut : slice_to (buffered p) n = [] <-> buffered p = []).
  { unfold slice_to. split; intros Hw.
    - destruct (buffered p) as [|c t]; [reflexivity|].
      destruct (Z.to_nat n) eqn:En; [lia | discriminate].
    - rewrite Hw. apply firstn_nil. }
  repeat split; try assumption; try apply Hcut.
  intros Hb Hw. apply H4 in Hb. apply Hcut in Hw. contradiction.
Qed.

(** One round of [ParseHeaderFields]: a [tryRead] with [n = 1] or, after
    [errNeedMore], with one more than the bytes buffered.  What it does to
    the reader and to the buffer. *)
Lemma tryRead_round h (r : Reader) bf n :
  inBuffer r ->
  n = 1 \/ (n = Buffered r + 1 /\ buffered r <> []) ->
  exists h' r' bf' e,
    tryRead h r bf n = Some (Return (h', r', bf', e))
    /\ inBuffer r' /\ size r' = size r
    /\ match e with
       | None =>
           exists ls, Forall IsLine ls /\ isBlock ls = true
                      /\ unread r = concat ls ++ unread r'
                      /\ ((length ls = 1%nat /\ bf' = bf)
                          \/ B bf' = concat (filter kept ls))
       | Some x =>
           (x = errNeedMore \/ x = Errorf headersFormat io_EOF
            \/ x = Errorf headersFormat io_ErrShortBuffer)
           /\ sameCase (unread r') (unread r)
           /\ (x = errNeedMore -> buffered r' <> [])
           /\ (bf' = bf \/ B bf' = [])
       end.
Proof.
  intros Hr Hcall.
  assert (Hn : 1 <= n).
  { destruct Hcall as [-> | [-> _]]; [lia|].
    pose proof (len_nonneg (buffered r)). unfold Buffered. lia. }
  unfold tryRead.
  destruct (Peek r n) as [[r0 b0] e0] eqn:Ep.
  destruct (Peek_spec Hr Hn Ep) as (H0 & Hs0 & Hu0 & Hw0 & Hw1).
  destruct (len b0 =? 0) eqn:El.
  { assert (Hb0 : b0 = []).
    { apply Z.eqb_eq in El. unfold len in El. destruct b0; [reflexivity|].
      simpl in El. lia. }
    assert (E1 : (n =? 1) = true).
    { destruct Hcall as [-> | [_ Hne]]; [reflexivity|].
      apply Hw1 in Hne. contradiction. }
    rewrite E1. simpl. eexists _, _, _, _. split; [reflexivity|].
    repeat split; try assumption.
    - right. left. reflexivity.
    - unfold sameCase. rewrite Hu0. reflexivity.
    - discriminate.
    - left. reflexivity. }
  assert (Hne : buffered r0 <> []).
  { intros E. apply Z.eqb_neq in El. apply El.
    apply Hw0 in E. rewrite E. reflexivity. }
  rewrite Peek_window by exact H0.
  assert (El2 : (len (buffered r0) =? 0) = false).
  { apply Z.eqb_neq. unfold len. destruct (buffered r0); [congruence | simpl; lia]. }
  rewrite El2. simpl.
  destruct (readHeaders_total (buffered r0) h bf) as [[[[[b1 h1] bf1] k] pe] Hrh].
  rewrite Hrh.
  destruct (readHeaders_sameCase _ _ _ Hrh) as [Hsame Hlen].
  assert (Hne1 : b1 <> []).
  { destruct b1; [|discriminate]. destruct (buffered r0); [congruence | discriminate]. }
  destruct pe as [x|].
  - exists h1, (setBuffered r0 b1), bf1,
      (Some (if error_eqb x errNeedMore then errNeedMore else errWrapper (Some x))).
    split; [destruct (error_eqb x errNeedMore); reflexivity|].
    unfold inBuffer in *. simpl. repeat split; try lia.
    + destruct (readHeaders_err_buffer _ _ _ Hrh) as [_ [-> | ->]]; simpl; tauto.
    + rewrite <- Hu0. unfold unread. simpl.
      apply sameCase_app; [exact Hsame | reflexivity].
    + intros _. exact Hne1.
    + destruct (readHeaders_err_buffer _ _ _ Hrh) as [Hbf _]. exact Hbf.
  - destruct (readHeaders_ok _ _ _ Hrh)
      as (ls & rest & Hbuf & Hall & Hblk & Hk & Hb1 & _ & Hbuffer).
    assert (Hlk : len (concat (map lineAfter ls)) = len (concat ls)).
    { pose proof (sameCase_lines ls) as Hc. unfold sameCase in Hc.
      apply (f_equal (@length byte)) in Hc. rewrite !length_map in Hc.
      unfold len. rewrite Hc. reflexivity. }
    assert (Hkpos : 0 < k).
    { subst k. destruct ls as [|l ls']; [discriminate|].
      inversion Hall; subst. simpl. rewrite len_app.
      pose proof (IsLine_len H2). pose proof (len_nonneg (concat ls')). lia. }
    rewrite Discard_buffered.
    + exists h1, (setBuffered (setBuffered r0 b1) (slice_from b1 k)), bf1, None.
      split; [reflexivity|].
      assert (Hrest : slice_from b1 k = rest).
      { rewrite Hb1, Hk, <- Hlk. apply slice_from_app. }
      unfold inBuffer in *. simpl. rewrite Hrest. repeat split.
      * rewrite Hbuf, length_app in H0. lia.
      * exact Hs0.
      * exists ls. split; [exact Hall|]. split; [exact Hblk|]. split.
        -- rewrite <- Hu0. unfold unread. simpl. rewrite Hbuf, <- app_assoc.
           reflexivity.
        -- destruct Hbuffer as [Hb | [Hb _]]; [left; exact Hb | right; exact Hb].
    + exact Hkpos.
    + unfold Buffered. simpl. rewrite Hb1, len_app, Hlk, <- Hk.
      pose proof (len_nonneg rest). lia.
Qed.

(** One round.  Every round of [ParseHeaderFields] is a [tryRead], the
    first with [n = 1] and the next ones, after [errNeedMore], with one more
    than the bytes buffered.  On a reader whose window is within its buffer
    such a call returns, without panic, and
    - with nil, the reader is past a header block, its lines up to and
      with the first empty one, and past nothing else: the bytes not read
      yet were that block and then those not read yet now;
    - or with [errNeedMore], with the end-of-file error or with the short
      buffer error, the reader is past nothing: the bytes not read yet are
      those of before, but for the case of the letters that
      [changeToLowerCase] changed in the window.
    [ParseHeaderFields] returns what the round returns, the buffer reset
    when it is an error, but for [errNeedMore], after which it makes the
    next round. *)
Theorem tryRead_consumes_block_or_nothing fuel h (r : Reader) bf n :
  inBuffer r ->
  n = 1 \/ (n = Buffered r + 1 /\ buffered r <> []) ->
  exists h' r' bf' e,
    tryRead h r bf n = Some (Return (h', r', bf', e))
    /\ inBuffer r' /\ size r' = size r
    /\ match e with
       | None =>
           exists ls, Forall IsLine ls /\ isBlock ls = true
                      /\ unread r = concat ls ++ unread r'
       | Some x =>
           (x = errNeedMore \/ x = Errorf headersFormat io_EOF
            \/ x = Errorf headersFormat io_ErrShortBuffer)
           /\ sameCase (unread r') (unread r)
           /\ (x = errNeedMore -> buffered r' <> [])
       end
    /\ parseLoop (S fuel) h r bf n =
         match e with
         | None => Some (Return (h', r', bf', None))
         | Some x =>
             if error_eqb x errNeedMore
             then parseLoop fuel h' r' bf' (Buffered r' + 1)
             else Some (Return (h', r', bytebufferpool.Reset bf', Some x))
         end.
Proof.
  intros Hr Hn.
  destruct (tryRead_round h bf Hr Hn) as (h' & r' & bf' & e & Ht & Hr' & Hs & He).
  exists h', r', bf', e. split; [exact Ht|]. split; [exact Hr'|].
  split; [exact Hs|]. split.
  - destruct e as [x|].
    + destruct He as (Hx & Hsame & Hne & _). repeat split; assumption.
    + destruct He as (ls & Hall & Hblk & Hu & _). exists ls.
      repeat split; assumption.
  - rewrite parseLoop_unfold, Ht. destruct e as [x|]; [|reflexivity].
    destruct (error_eqb x errNeedMore); reflexivity.
Qed.

End Frame.

Section FrameExamples.

Import header bytebufferpool bufio.

Lemma tryRead_consumes_block_or_nothing_witness :
  exists h' r' bf' e,
    tryRead freshHeader (newReader 4096 [(plainRequest ++ bs "hi", None)])
      (MakeFixedSizeByteBuffer 128) 1
    = Some (Return (h', r', bf', e))
    /\ inBuffer r'
    /\ size r' = size (newReader 4096 [(plainRequest ++ bs "hi", None)])
    /\ match e with
       | None =>
           exists ls, Forall IsLine ls /\ isBlock ls = true
                      /\ unread (newReader 4096 [(plainRequest ++ bs "hi", None)])
                         = concat ls ++ unread r'
       | Some x =>
           (x = errNeedMore \/ x = Errorf headersFormat io_EOF
            \/ x = Errorf headersFormat io_ErrShortBuffer)
           /\ sameCase (unread r')
                (unread (newReader 4096 [(plainRequest ++ bs "hi", None)]))
           /\ (x = errNeedMore -> buffered r' <> [])
       end
    /\ parseLoop 1 freshHeader (newReader 4096 [(plainRequest ++ bs "hi", None)])
         (MakeFixedSizeByteBuffer 128) 1 =
         match e with
         | None => Some (Return (h', r', bf', None))
         | Some x =>
             if error_eqb x errNeedMore
             then parseLoop 0 h' r' bf' (Buffered r' + 1)
             else Some (Return (h', r', bytebufferpool.Reset bf', Some x))
         end.
Proof.
  apply tryRead_consumes_block_or_nothing.
  - unfold inBuffer. simpl. lia.
  - left. reflexivity.
Defined.

(** On that input the call is the first case: nil, and the reader is past
    the block and before the body. *)
Lemma tryRead_plainRequest :
  exists h' bf',
    tryRead freshHeader (newReader 4096 [(plainRequest ++ bs "hi", None)])
      (MakeFixedSizeByteBuffer 128) 1
    = Some (Return (h', {| rd := []; size := 4096; buffered := bs "hi";
                           err := None |}, bf', None)).
Proof. eexists _, _. vm_compute. reflexivity. Qed.

Lemma sameCase_trans (a b c : byteslice) :
  sameCase a b -> sameCase b c -> sameCase a c.
Proof. unfold sameCase. congruence. Qed.

(** Whenever [ParseHeaderFields] returns, it has not panicked and the same
    holds of the whole call: with nil the reader is past one header block
    and nothing else, and the buffer holds the kept lines of that block (or
    is as it was, or empty, when the block is the empty line alone); with an
    error (the end-of-file one or the short buffer one) the reader is past
    nothing. *)
Lemma parseLoop_frame (fuel : nat) :
  forall h (r : Reader) bf0 n res (bf : ByteBuffer),
    inBuffer r ->
    n = 1 \/ (n = Buffered r + 1 /\ buffered r <> []) ->
    B bf0 = B bf \/ B bf0 = [] ->
    parseLoop fuel h r bf0 n = Some res ->
    exists h' r' bf' e,
      res = Return (h', r', bf', e)
      /\ match e with
         | None =>
             exists ls, Forall IsLine ls /\ isBlock ls = true
                        /\ sameCase (unread r) (concat ls ++ unread r')
                        /\ ((length ls = 1%nat /\ (B bf' = B bf \/ B bf' = []))
                            \/ B bf' = concat (filter kept ls))
         | Some x =>
             (x = Errorf headersFormat io_EOF
              \/ x = Errorf headersFormat io_ErrShortBuffer)
             /\ sameCase (unread r) (unread r')
         end.
Proof.
  induction fuel as [|fuel IH]; intros h r bf0 n res bf Hr Hn Hinv H;
    [discriminate|].
  rewrite parseLoop_unfold in H.
  destruct (tryRead_round h bf0 Hr Hn)
    as (h1 & r1 & bf1 & e1 & Ht & Hr1 & _ & Hres).
  rewrite Ht in H. destruct e1 as [x|].
  - destruct Hres as (Hx & Hsame & Hne & Hbf).
    destruct (error_eqb x errNeedMore) eqn:E; simpl in H.
    + apply needMore_eqb in E. subst x.
      assert (Hinv1 : B bf1 = B bf \/ B bf1 = []).
      { destruct Hbf as [-> | Hbf]; [exact Hinv | right; exact Hbf]. }
      destruct (IH _ _ _ _ _ bf Hr1
                  (or_intror (conj eq_refl (Hne eq_refl))) Hinv1 H)
        as (h2 & r2 & bf2 & e2 & -> & Hres2).
      exists h2, r2, bf2, e2. split; [reflexivity|].
      assert (Hs : sameCase (unread r) (unread r1))
        by (unfold sameCase in *; congruence).
      destruct e2 as [y|].
      * destruct Hres2 as [Hy Hs2]. split; [exact Hy|].
        exact (sameCase_trans Hs Hs2).
      * destruct Hres2 as (ls & Hall & Hblk & Hs2 & Hb2).
        exists ls. repeat split; try assumption.
        exact (sameCase_trans Hs Hs2).
    + inversion H; subst. eexists _, _, _, _. split; [reflexivity|].
      split.
      * destruct Hx as [-> | Hx]; [discriminate | exact Hx].
      * unfold sameCase in *. congruence.
  - inversion H; subst. destruct Hres as (ls & Hall & Hblk & Hu & Hb).
    eexists _, _, _, _. split; [reflexivity|].
    exists ls. split; [exact Hall|]. split; [exact Hblk|]. split.
    + rewrite Hu. reflexivity.
    + destruct Hb as [[Hl ->] | Hb]; [left; split; assumption | right; exact Hb].
Qed.

Lemma ParseHeaderFields_frame fuel h (r : Reader) bf res :
  inBuffer r ->
  ParseHeaderFields fuel h r bf = Some res ->
  exists h' r' bf' e,
    res = Return (h', r', bf', e)
    /\ match e with
       | None =>
           exists ls, Forall IsLine ls /\ isBlock ls = true
                      /\ sameCase (unread r) (concat ls ++ unread r')
                      /\ ((length ls = 1%nat /\ (B bf' = B bf \/ B bf' = []))
                          \/ B bf' = concat (filter kept ls))
       | Some x =>
           (x = Errorf headersFormat io_EOF
            \/ x = Errorf headersFormat io_ErrShortBuffer)
           /\ sameCase (unread r) (unread r')
       end.
Proof.
  intros Hr H.
  apply (parseLoop_frame _ _ _ bf Hr (or_introl eq_refl) (or_introl eq_refl) H).
Qed.

(** In particular, when the block consumed has a line before its empty line
    and no line to strip, the buffer holds the bytes consumed, however the
    connection delivered them. *)
Lemma ParseHeaderFields_copies_consumed fuel h (r : Reader) bf h' r' bf' :
  inBuffer r ->
  ParseHeaderFields fuel h r bf = Some (Return (h', r', bf', None)) ->
  exists ls,
    Forall IsLine ls /\ isBlock ls = true
    /\ sameCase (unread r) (concat ls ++ unread r')
    /\ ((1 < length ls)%nat -> forallb kept ls = true -> B bf' = concat ls).
Proof.
  intros Hr H.
  destruct (ParseHeaderFields_frame _ _ _ Hr H)
    as (h2 & r2 & bf2 & e2 & Heq & Hres).
  inversion Heq; subst. destruct Hres as (ls & Hall & Hblk & Hs & Hb).
  exists ls. repeat split; try assumption.
  intros Hlen Hk. destruct Hb as [[Hl _] | Hb]; [lia|].
  rewrite Hb. f_equal. clear -Hk.
  induction ls as [|l ls IH]; [reflexivity|].
  simpl in *. apply andb_true_iff in Hk. destruct Hk as [-> Hk].
  rewrite IH by exact Hk. reflexivity.
Qed.

End FrameExamples.

(** ** The handler *)

Section Handler.

Import proxy.

Lemma length_zero_empty (s : string) : (String.length s =? 0)%nat = true <-> s = ""%string.
Proof.
  destruct s; simpl; split; intros H; try reflexivity; discriminate.
Qed.

(** C7: the raw tunnel, once the host is known.  When opening the origin
    connection fails, the handler writes [HTTP/1.1 501 Bad Gateway] with its
    two CR LF to the client and nothing else, forwards nothing, adds the 28
    bytes of that reply, and nothing else, to the outgoing counter of
    [usage] (when there is one), and returns the error wrapped.  When it
    succeeds, the one write of the handler to the client is
    [HTTP/1.1 200 OK] with its two CR LF, and no forwarding is started
    before it. *)
Theorem tunnelConnect_replies env usage hostWithPort :
  HostWithPort (ParseHostWithPort env hostWithPort) <> ""%string ->
  match openError env hostWithPort with
  | Some err =>
      clientWrites (fst (tunnelConnect env usage hostWithPort)) = [badGateway]
      /\ forallb (fun e => negb (forwards e))
           (fst (tunnelConnect env usage hostWithPort)) = true
      /\ (usage = true ->
          outgoingAdded (fst (tunnelConnect env usage hostWithPort)) = [28]
          /\ len badGateway = 28)
      /\ exists msg,
          snd (tunnelConnect env usage hostWithPort) = Some (ErrWrapper err msg)
  | None =>
      clientWrites (fst (tunnelConnect env usage hostWithPort)) = [tunnelOk]
      /\ forallb (fun e => negb (forwards e))
           (beforeFirstWrite (fst (tunnelConnect env usage hostWithPort))) = true
  end.
Proof.
  intros Hhost. unfold openError, tunnelConnect.
  destruct (String.length _ =? 0)%nat eqn:E.
  { apply length_zero_empty in E. contradiction. }
  clear E Hhost.
  destruct (urlProxy env (ParseHostWithPort env hostWithPort)) as [p|].
  - destruct (SplitHostPort env _) as [[host port] e0].
    destruct (makeTunnel env) as [err|].
    + destruct ((0 <? String.length host)%nat && negb (ParseIP env host));
        [destruct (lookupIP env host)|]; destruct usage; simpl;
        (repeat split; try reflexivity; try discriminate; eexists; reflexivity).
    + destruct ((0 <? String.length host)%nat && negb (ParseIP env host));
        [destruct (lookupIP env host)|];
        unfold sendHTTPSProxyStatusOK;
        destruct (writeClient env httpTunnelMadeOkBytes);
        destruct (forwardToOrigin env) as [a [ea|]];
        destruct (forwardToClient env) as [b [eb|]];
        simpl; split; reflexivity.
  - destruct (dial env) as [err|].
    + destruct usage; simpl;
        (repeat split; try reflexivity; try discriminate; eexists; reflexivity).
    + unfold sendHTTPSProxyStatusOK.
      destruct (writeClient env httpTunnelMadeOkBytes);
        destruct (forwardToOrigin env) as [a [ea|]];
        destruct (forwardToClient env) as [b [eb|]];
        simpl; split; reflexivity.
Qed.

Lemma tunnelConnect_replies_witness :
  clientWrites (fst (tunnelConnect (dialFails (plainEnv parseOk)) true
                       "example.test:443"))
  = [badGateway]
  /\ forallb (fun e => negb (forwards e))
       (fst (tunnelConnect (dialFails (plainEnv parseOk)) true
               "example.test:443")) = true
  /\ (true = true ->
      outgoingAdded (fst (tunnelConnect (dialFails (plainEnv parseOk)) true
                            "example.test:443")) = [28]
      /\ len badGateway = 28)
  /\ exists msg,
      snd (tunnelConnect (dialFails (plainEnv parseOk)) true "example.test:443")
      = Some (ErrWrapper (conn_error 111) msg).
Proof.
  apply (@tunnelConnect_replies (dialFails (plainEnv parseOk)) true
           "example.test:443").
  simpl. discriminate.
Defined.

(** The run of that example, call by call. *)
Lemma tunnelConnect_dial_fails_trace :
  tunnelConnect (dialFails (plainEnv parseOk)) true "example.test:443"
  = ([Do (URLProxy (parseOk "example.test:443"));
      Do (Dial "example.test:443");
      Do (ClientWrite badGateway);
      Go [AddIncomingSize ProxyUsage 0; AddOutgoingSize ProxyUsage 28]],
     Some (ErrWrapper (conn_error 111)
             "error occurred when dialing to host example.test:443")).
Proof. reflexivity. Qed.

Lemma tunnelConnect_ok_trace :
  tunnelConnect (plainEnv parseOk) true "example.test:443"
  = ([Do (URLProxy (parseOk "example.test:443"));
      Do (Dial "example.test:443");
      Do (ClientWrite tunnelOk);
      Go [Forward true]; Go [Forward false]; Do Wait;
      Do CloseTunnelConn;
      Go [AddIncomingSize ProxyUsage 0; AddOutgoingSize ProxyUsage 19]],
     None).
Proof. reflexivity. Qed.

End Handler.

Section HandlerHost.

Import proxy.

(** C8 as the code has it.  With an empty [hostWithPort], the raw tunnel
    returns [ErrSessionUnavailable] after the one call to [URLProxy]; [do]
    returns it when the response was set up without error and the hijacker
    gives no response of its own, having dialed nothing, taken no token and
    written nothing to the client.  (When the hijacker answers, [do] hands
    the request to [hijackClient.Do] before it looks at the host.) *)
Theorem empty_host_unavailable :
  (forall env usage hostWithPort,
      HostWithPort (ParseHostWithPort env hostWithPort) = ""%string ->
      tunnelConnect env usage hostWithPort
      = ([Do (URLProxy (ParseHostWithPort env hostWithPort))],
         Some ErrSessionUnavailable)
      /\ quiet (fst (tunnelConnect env usage hostWithPort)) = true)
  /\ (forall env req,
         HostWithPort (reqHostInfo req) = ""%string ->
         responseWriteTo env = None ->
         hijackResponse env = false ->
         snd (do env req) = Some ErrSessionUnavailable
         /\ quiet (fst (do env req)) = true).
Proof.
  split.
  - intros env usage hostWithPort H. unfold tunnelConnect. rewrite H. simpl.
    split; reflexivity.
  - intros env req H Hw Hh. unfold do. rewrite Hw, Hh, H. simpl.
    split; reflexivity.
Qed.

Lemma empty_host_unavailable_witness :
  (tunnelConnect (plainEnv parseFails) true "no host"
   = ([Do (URLProxy (parseFails "no host"))], Some ErrSessionUnavailable)
   /\ quiet (fst (tunnelConnect (plainEnv parseFails) true "no host")) = true)
  /\ (snd (do (plainEnv parseFails) hostlessRequest) = Some ErrSessionUnavailable
      /\ quiet (fst (do (plainEnv parseFails) hostlessRequest)) = true).
Proof.
  split.
  - apply (proj1 empty_host_unavailable (plainEnv parseFails) true
             "no host"%string).
    reflexivity.
  - apply (proj2 empty_host_unavailable (plainEnv parseFails) hostlessRequest);
      reflexivity.
Defined.

(** C8 as stated fails for a plain HTTP request that the hijacker answers:
    the host is empty, and [do] calls [hijackClient.Do], which writes the
    response to the client, and returns its error, here nil. *)
Lemma hijacked_request_counterexample :
  HostWithPort (reqHostInfo hostlessRequest) = ""%string
  /\ snd (do (hijacks (plainEnv parseFails)) hostlessRequest) = None
  /\ snd (do (hijacks (plainEnv parseFails)) hostlessRequest)
     <> Some ErrSessionUnavailable
  /\ In (Do HijackClientDo) (fst (do (hijacks (plainEnv parseFails)) hostlessRequest))
  /\ quiet (fst (do (hijacks (plainEnv parseFails)) hostlessRequest)) = false.
Proof.
  split; [reflexivity|]. split; [reflexivity|]. split; [discriminate|].
  split; [simpl; tauto | reflexivity].
Qed.

(** C9: once the certificate is signed, if [targetServerName] is empty
    after [handShake], [decryptConnect] returns the error "client didn't
    provide a target server name" and has not acquired a reader, read a
    request, chosen a route or gone to the origin. *)
Theorem decryptConnect_no_server_name env usage hostWithPort req :
  signFakeCert env hostWithPort = None ->
  snd (fst (handShake env usage)) = ""%string ->
  snd (decryptConnect env usage hostWithPort req) = Some noServerName
  /\ noServerName = errors_New "client didn't provide a target server name"
  /\ stopsBeforeRequest (fst (decryptConnect env usage hostWithPort req)) = true.
Proof.
  intros Hs Hn. unfold decryptConnect. rewrite Hs.
  destruct (handShake env usage) as [[t1 name] err] eqn:Eh.
  simpl in Hn. subst name. simpl.
  split; [reflexivity|]. split; [reflexivity|].
  unfold handShake, sendHTTPSProxyStatusOK in Eh.
  destruct (writeClient env httpTunnelMadeOkBytes).
  - inversion Eh; subst. reflexivity.
  - destruct (handshake env); inversion Eh; subst; destruct usage; reflexivity.
Qed.

(** The client hello carries no server name ([GetCertificate] is not
    called): the TLS handshake itself succeeds, the session ends there. *)
Lemma decryptConnect_no_server_name_witness :
  snd (decryptConnect (plainEnv parseOk) true "example.test:443" hostlessRequest)
  = Some noServerName
  /\ noServerName = errors_New "client didn't provide a target server name"
  /\ stopsBeforeRequest
       (fst (decryptConnect (plainEnv parseOk) true "example.test:443"
               hostlessRequest)) = true.
Proof.
  apply (@decryptConnect_no_server_name (plainEnv parseOk) true
           "example.test:443" hostlessRequest); reflexivity.
Defined.

Lemma decryptConnect_no_server_name_trace :
  decryptConnect (plainEnv parseOk) true "example.test:443" hostlessRequest
  = ([Do (SignFakeCert "example.test:443");
      Do (ClientWrite tunnelOk);
      Go [AddOutgoingSize ProxyUsage 19];
      Do TLSHandshake],
     Some noServerName).
Proof. reflexivity. Qed.

End HandlerHost.

(** ** The decimal of a [Content-Length] line *)

Section Decimal.

Import header.

Lemma isDigit_range (d : byte) :
  isDigit d = true -> 48 <= Z.of_N (Byte.to_N d) <= 57.
Proof.
  unfold isDigit. intros H. apply andb_true_iff in H. destruct H as [H1 H2].
  apply Z.leb_le in H1. apply Z.leb_le in H2. lia.
Qed.

Lemma digit_isDigit (d : byte) :
  isDigit d = true -> strconv.digit d = Some (Z.of_N (Byte.to_N d) - 48).
Proof. unfold isDigit, strconv.digit. intros ->. reflexivity. Qed.

Lemma decimalFrom_grows (ds : byteslice) :
  forall n, 0 <= n -> forallb isDigit ds = true -> n <= decimalFrom n ds.
Proof.
  unfold decimalFrom.
  induction ds as [|d ds IH]; intros n Hn Hd; simpl; [lia|].
  simpl in Hd. apply andb_true_iff in Hd. destruct Hd as [Hd Hds].
  apply isDigit_range in Hd.
  specialize (IH (n * 10 + (Z.of_N (Byte.to_N d) - 48)) ltac:(lia) Hds). lia.
Qed.

Lemma parseUintLoop_cons (d : byte) (s : byteslice) (n : Z) :
  strconv.parseUintLoop (d :: s) n =
    match strconv.digit d with
    | None => (0, Some strconv.ErrSyntax)
    | Some v =>
        if v >=? 10 then (0, Some strconv.ErrSyntax)
        else if n >=? strconv.maxUint64 / 10 + 1
        then (strconv.maxUint64, Some strconv.ErrRange)
        else
          let n := n * 10 in
          let n1 := (n + v) mod 2 ^ 64 in
          if (n1 <? n) || (n1 >? strconv.maxUint64)
          then (strconv.maxUint64, Some strconv.ErrRange)
          else strconv.parseUintLoop s n1
    end.
Proof. reflexivity. Qed.

(** Digits whose number fits 64 bits go through the loop of [ParseUint]
    without error. *)
Lemma parseUintLoop_digits (ds : byteslice) :
  forall n, 0 <= n -> forallb isDigit ds = true ->
    decimalFrom n ds < 2 ^ 64 ->
    strconv.parseUintLoop ds n = (decimalFrom n ds, None).
Proof.
  induction ds as [|d ds IH]; intros n Hn Hd Hv; [reflexivity|].
  simpl in Hd. apply andb_true_iff in Hd. destruct Hd as [Hd Hds].
  pose proof (isDigit_range _ Hd) as Hr.
  set (v := Z.of_N (Byte.to_N d) - 48) in *.
  assert (Hstep : decimalFrom n (d :: ds) = decimalFrom (n * 10 + v) ds)
    by reflexivity.
  rewrite Hstep in *.
  pose proof (@decimalFrom_grows ds (n * 10 + v) ltac:(lia) Hds) as Hg.
  rewrite parseUintLoop_cons, (digit_isDigit _ Hd). fold v. cbv zeta.
  assert (E1 : (v >=? 10) = false).
  { destruct (Z.geb_spec v 10); [lia | reflexivity]. }
  rewrite E1.
  assert (Hc : strconv.maxUint64 / 10 + 1 = 1844674407370955162) by reflexivity.
  rewrite Hc.
  assert (E2 : (n >=? 1844674407370955162) = false).
  { destruct (Z.geb_spec n 1844674407370955162); [lia | reflexivity]. }
  rewrite E2.
  assert (Hm : (n * 10 + v) mod 2 ^ 64 = n * 10 + v)
    by (apply Z.mod_small; lia).
  rewrite Hm.
  assert (E3 : (n * 10 + v <? n * 10) = false) by (apply Z.ltb_ge; lia).
  assert (E4 : (n * 10 + v >? strconv.maxUint64) = false).
  { unfold strconv.maxUint64.
    destruct (Z.gtb_spec (n * 10 + v) (2 ^ 64 - 1)); [lia | reflexivity]. }
  rewrite E3, E4. cbv beta iota delta [orb]. apply IH; [lia | exact Hds | exact Hv].
Qed.

Lemma not_sign (d : byte) :
  isDigit d = true ->
  Byte.eqb d "+"%byte = false /\ Byte.eqb d "-"%byte = false.
Proof.
  intros Hd. apply isDigit_range in Hd.
  split; (destruct (Byte.eqb d _) eqn:E; [|reflexivity]);
    apply byte_dec_bl in E; subst d; simpl in Hd; lia.
Qed.

(** [strconv.ParseInt] on a string of digits whose number fits [int64]. *)
Lemma ParseInt_decimal (ds : byteslice) :
  ds <> [] -> forallb isDigit ds = true -> decimalValue ds < 2 ^ 63 ->
  strconv.ParseInt ds = (decimalValue ds, None).
Proof.
  intros Hne Hd Hv. destruct ds as [|d ds]; [congruence|].
  pose proof Hd as Hd0. simpl in Hd0. apply andb_true_iff in Hd0.
  destruct Hd0 as [Hd1 _]. destruct (not_sign _ Hd1) as [Ep Em].
  unfold strconv.ParseInt. rewrite Ep, Em.
  unfold strconv.ParseUint, decimalValue in *.
  assert (H0 : 0 <= decimalFrom 0 (d :: ds))
    by (apply decimalFrom_grows; [lia | exact Hd]).
  rewrite parseUintLoop_digits; [| lia | exact Hd | lia].
  set (u := decimalFrom 0 (d :: ds)) in *.
  assert (E1 : (u >=? 2 ^ 63) = false).
  { destruct (Z.geb_spec u (2 ^ 63)); [lia | reflexivity]. }
  rewrite E1. simpl andb. cbv iota.
  unfold strconv.int64. rewrite Z.mod_small by lia.
  assert (E2 : (u <? 2 ^ 63) = true) by (apply Z.ltb_lt; lia).
  rewrite E2. reflexivity.
Qed.

Lemma leadingSpace_ascii (c : byte) (t : byteslice) :
  asciiSpace c = true ->
  strings.leadingSpace strings.spaces (c :: t) = 1%nat
  /\ strings.leadingSpace (map (@rev byte) strings.spaces) (c :: t) = 1%nat.
Proof.
  intros H. destruct c; try discriminate H; split; reflexivity.
Qed.

Lemma leadingSpace_digit (c : byte) (t : byteslice) :
  isDigit c = true ->
  strings.leadingSpace strings.spaces (c :: t) = 0%nat
  /\ strings.leadingSpace (map (@rev byte) strings.spaces) (c :: t) = 0%nat.
Proof.
  intros H. destruct c; try discriminate H; split; reflexivity.
Qed.

Lemma trimLeft_step (fuel : nat) (table : list byteslice) (s : byteslice) :
  strings.trimLeft (S fuel) table s =
    match strings.leadingSpace table s with
    | O => s
    | S _ as w => strings.trimLeft fuel table (skipn w s)
    end.
Proof. reflexivity. Qed.

(** Leading ASCII spaces go, what begins with a digit stays. *)
Lemma trimLeft_spaces (table : list byteslice) (sp : byteslice) :
  (table = strings.spaces \/ table = map (@rev byte) strings.spaces) ->
  forall fuel d t,
    forallb asciiSpace sp = true -> isDigit d = true ->
    (length sp <= fuel)%nat ->
    strings.trimLeft fuel table (sp ++ d :: t) = d :: t.
Proof.
  intros Ht. induction sp as [|c sp IH]; intros fuel d t Hs Hd Hf.
  - simpl app. destruct fuel; [reflexivity|]. rewrite trimLeft_step.
    destruct (leadingSpace_digit d t Hd) as [E1 E2].
    destruct Ht as [-> | ->]; [rewrite E1 | rewrite E2]; reflexivity.
  - simpl in Hs. apply andb_true_iff in Hs. destruct Hs as [Hc Hs].
    destruct fuel as [|fuel]; [simpl in Hf; lia|].
    simpl in Hf. simpl app. rewrite trimLeft_step.
    destruct (leadingSpace_ascii c (sp ++ d :: t) Hc) as [E1 E2].
    destruct Ht as [-> | ->]; [rewrite E1 | rewrite E2]; simpl skipn;
      apply IH; auto; lia.
Qed.

(** [strings.TrimSpace] on digits between ASCII spaces. *)
Lemma TrimSpace_decimal (sp1 ds sp2 : byteslice) :
  forallb asciiSpace sp1 = true -> forallb asciiSpace sp2 = true ->
  ds <> [] -> forallb isDigit ds = true ->
  strings.TrimSpace (sp1 ++ ds ++ sp2) = ds.
Proof.
  intros H1 H2 Hne Hd. unfold strings.TrimSpace.
  destruct ds as [|d ds]; [congruence|].
  pose proof Hd as Hd0. simpl in Hd0. apply andb_true_iff in Hd0.
  destruct Hd0 as [Hd1 Hds].
  assert (El : strings.TrimLeftSpace (sp1 ++ (d :: ds) ++ sp2) = (d :: ds) ++ sp2).
  { unfold strings.TrimLeftSpace. simpl app.
    apply trimLeft_spaces; auto. rewrite length_app. lia. }
  rewrite El. unfold strings.TrimRightSpace.
  (* the last digit is the first byte of the reversed string *)
  destruct (rev (d :: ds)) as [|z zs] eqn:Er.
  { apply (f_equal (@length byte)) in Er. rewrite length_rev in Er. discriminate. }
  assert (Hz : isDigit z = true).
  { assert (Hin : In z (d :: ds))
      by (apply in_rev; rewrite Er; left; reflexivity).
    rewrite forallb_forall in Hd. apply Hd. exact Hin. }
  rewrite rev_app_distr, Er.
  rewrite trimLeft_spaces; auto.
  - rewrite <- Er. apply rev_involutive.
  - rewrite forallb_forall in *. intros x Hx. apply H2. apply in_rev. exact Hx.
  - rewrite length_rev, length_app. lia.
Qed.

(** The value of a line that has no [:] before its value, ASCII spaces
    around the digits (the CR LF of the line among them) and a number that
    fits [int64]: the decimal the digits write. *)
Theorem declaredLength_decimal (name sp1 ds sp2 : byteslice) :
  name <> [] -> ~ In ":"%byte name ->
  forallb asciiSpace sp1 = true -> forallb asciiSpace sp2 = true ->
  ds <> [] -> forallb isDigit ds = true -> decimalValue ds < 2 ^ 63 ->
  declaredLength (name ++ ":"%byte :: sp1 ++ ds ++ sp2) = decimalValue ds.
Proof.
  intros Hn Hc H1 H2 Hne Hd Hv. unfold declaredLength.
  rewrite IndexByte_first by exact Hc.
  assert (Hl : 0 < len name).
  { unfold len. destruct name; [congruence | simpl; lia]. }
  assert (E : (len name >? 0) = true) by (apply Z.gtb_lt; lia).
  rewrite E. unfold parseLength.
  replace (name ++ ":"%byte :: sp1 ++ ds ++ sp2)
    with ((name ++ [":"%byte]) ++ sp1 ++ ds ++ sp2)
    by (rewrite <- app_assoc; reflexivity).
  replace (len name + 1) with (len (name ++ [":"%byte]))
    by (rewrite len_app; reflexivity).
  rewrite slice_from_app, TrimSpace_decimal by assumption.
  rewrite ParseInt_decimal by assumption. reflexivity.
Qed.

Lemma declaredLength_example :
  declaredLength (line "Content-Length: 42") = 42.
Proof.
  apply (@declaredLength_decimal (bs "Content-Length") (bs " ") (bs "42") crlf);
    try reflexivity; try discriminate.
  vm_compute. intuition discriminate.
Qed.

End Decimal.

(** ** The rounds given to the loops of the library are enough *)

Section Rounds.

Import bufio.

(** [TrimSpace]: after [length s] rounds no space is left in front. *)
Lemma trimLeft_done (table : list byteslice) :
  (table = strings.spaces \/ table = map (@rev byte) strings.spaces) ->
  forall fuel s, (length s <= fuel)%nat ->
    strings.leadingSpace table (strings.trimLeft fuel table s) = 0%nat.
Proof.
  intros Ht. induction fuel as [|fuel IH]; intros s Hs.
  - destruct s; [|simpl in Hs; lia]. simpl.
    destruct Ht as [-> | ->]; reflexivity.
  - rewrite trimLeft_step.
    destruct (strings.leadingSpace table s) as [|w] eqn:E; [exact E|].
    apply IH. rewrite length_skipn. lia.
Qed.

(** [fill] ends with an error kept or with more bytes in the window. *)
Lemma fillTries_progress (i : nat) :
  forall r, err r = None ->
    err (fillTries i r) <> None
    \/ (length (buffered r) < length (buffered (fillTries i r)))%nat.
Proof.
  induction i as [|i IH]; intros r He; simpl; [left; discriminate|].
  destruct (srcRead (rd r) (size r - length (buffered r))) as [[d e] s'].
  destruct e as [e|]; simpl; [left; discriminate|].
  destruct (0 <? length d)%nat eqn:Ed; simpl.
  - right. apply Nat.ltb_lt in Ed. rewrite length_app. lia.
  - apply Nat.ltb_ge in Ed. destruct d; [|simpl in Ed; lia].
    rewrite app_nil_r.
    destruct (IH {| rd := s'; size := size r; buffered := buffered r;
                    err := err r |} He) as [H | H]; [left; exact H|].
    right. exact H.
Qed.

Lemma fill_progress (r : Reader) :
  err r = None ->
  err (fill r) <> None
  \/ (length (buffered r) < length (buffered (fill r)))%nat.
Proof. intros He. unfold fill. apply fillTries_progress. exact He. Qed.

(** [Peek]: when [peekFill] stops, the test of the loop of [Peek] is false;
    the rounds given were not too few. *)
Lemma peekFill_done (fuel : nat) (n : Z) :
  forall r, inBuffer r ->
    (size r - length (buffered r) < fuel)%nat ->
    peekMore (peekFill fuel r n) n = false.
Proof.
  induction fuel as [|fuel IH]; intros r Hr Hf; [lia|].
  rewrite peekFill_step. fold (peekMore r n).
  destruct (peekMore r n) eqn:Ec; [|exact Ec].
  assert (Eerr : err r = None).
  { unfold peekMore in Ec. apply andb_true_iff in Ec. destruct Ec as [_ He].
    destruct (err r); [discriminate | reflexivity]. }
  assert (Es : (length (buffered r) < size r)%nat).
  { unfold peekMore in Ec. apply andb_true_iff in Ec. destruct Ec as [Ec _].
    apply andb_true_iff in Ec. destruct Ec as [_ Es].
    apply Z.ltb_lt in Es. unfold Buffered, len in Es. lia. }
  clear Ec.
  generalize (fill_spec Hr) (fill_progress r Eerr).
  generalize (fill r). intros r1 (H1 & H2 & _ & _) Hp.
  destruct Hp as [Hp | Hp].
  - destruct (err r1) as [e1|] eqn:E1; [|congruence].
    rewrite (peekFill_pending _ _ _ E1). unfold peekMore. rewrite E1.
    apply andb_false_r.
  - apply IH; [exact H1 | lia].
Qed.

Lemma Peek_rounds (r : Reader) (n : Z) :
  inBuffer r -> peekMore (peekFill (S (size r)) r n) n = false.
Proof. intros Hr. apply peekFill_done; [exact Hr | lia]. Qed.

End Rounds.

(** * More properties of the code

    ** What [strconv.ParseInt] returns *)

Section Int64.

Import header.

Lemma int64_range (u : Z) : - 2 ^ 63 <= strconv.int64 u < 2 ^ 63.
Proof.
  unfold strconv.int64.
  pose proof (Z.mod_pos_bound u (2 ^ 64) eq_refl) as Hm.
  destruct (u mod 2 ^ 64 <? 2 ^ 63) eqn:E.
  - apply Z.ltb_lt in E. lia.
  - apply Z.ltb_ge in E. lia.
Qed.

Lemma parseUintLoop_range (s : byteslice) :
  forall n, 0 <= n <= strconv.maxUint64 ->
    0 <= fst (strconv.parseUintLoop s n) <= strconv.maxUint64.
Proof.
  induction s as [|d s IH]; intros n Hn; [exact Hn|].
  rewrite parseUintLoop_cons.
  assert (Hmax : 0 <= strconv.maxUint64) by (unfold strconv.maxUint64; lia).
  destruct (strconv.digit d) as [v|]; [|simpl; lia].
  destruct (v >=? 10); [cbn [fst]; lia|].
  destruct (n >=? strconv.maxUint64 / 10 + 1); [cbn [fst]; lia|].
  cbv zeta.
  destruct (_ || _); [cbn [fst]; lia|].
  apply IH.
  pose proof (Z.mod_pos_bound (n * 10 + v) (2 ^ 64) eq_refl).
  unfold strconv.maxUint64. lia.
Qed.

Lemma ParseUint_range (s : byteslice) :
  0 <= fst (strconv.ParseUint s) <= strconv.maxUint64.
Proof.
  unfold strconv.ParseUint.
  assert (Hmax : 0 <= strconv.maxUint64) by (unfold strconv.maxUint64; lia).
  destruct s; [cbn [fst]; lia|].
  apply parseUintLoop_range. lia.
Qed.

(** What [strconv.ParseInt] returns is an [int64]. *)
Lemma ParseInt_range (s : byteslice) :
  - 2 ^ 63 <= fst (strconv.ParseInt s) < 2 ^ 63.
Proof.
  unfold strconv.ParseInt. destruct s as [|c rest]; [cbn [fst]; lia|].
  set (s1 := if Byte.eqb c "+"%byte then (false, rest)
             else if Byte.eqb c "-"%byte then (true, rest)
             else (false, c :: rest)).
  destruct s1 as [neg s1].
  pose proof (ParseUint_range s1) as Hu.
  destruct (strconv.ParseUint s1) as [un err]. simpl in Hu.
  assert (Hgen : - 2 ^ 63 <=
                 fst (if negb neg && (un >=? 2 ^ 63) then (2 ^ 63 - 1, Some strconv.ErrRange)
                      else if neg && (un >? 2 ^ 63) then (- 2 ^ 63, Some strconv.ErrRange)
                      else (if neg then strconv.int64 (- strconv.int64 un)
                            else strconv.int64 un, @None strconv.NumError)) < 2 ^ 63).
  { destruct (negb neg && (un >=? 2 ^ 63)); [cbn [fst]; lia|].
    destruct (neg && (un >? 2 ^ 63)); [cbn [fst]; lia|].
    simpl. destruct neg; apply int64_range. }
  destruct err as [[|]|]; [cbn [fst]; lia | exact Hgen | exact Hgen].
Qed.

(** A minus sign in front: the value is not positive. *)
Lemma ParseInt_minus (rest : byteslice) :
  fst (strconv.ParseInt ("-"%byte :: rest)) <= 0.
Proof.
  unfold strconv.ParseInt.
  change (Byte.eqb "-"%byte "+"%byte) with false.
  change (Byte.eqb "-"%byte "-"%byte) with true. cbv iota.
  pose proof (ParseUint_range rest) as Hu.
  destruct (strconv.ParseUint rest) as [un err]. simpl in Hu.
  unfold strconv.maxUint64 in Hu.
  assert (Hgen : fst (if un >? 2 ^ 63 then (- 2 ^ 63, Some strconv.ErrRange)
                      else (strconv.int64 (- strconv.int64 un), @None strconv.NumError)) <= 0).
  { destruct (un >? 2 ^ 63) eqn:E; [cbn [fst]; lia|].
    assert (un <= 2 ^ 63) by (destruct (Z.gtb_spec un (2 ^ 63)); [discriminate | lia]).
    simpl fst. unfold strconv.int64.
    rewrite (Z.mod_small un) by lia.
    destruct (un <? 2 ^ 63) eqn:E1.
    - apply Z.ltb_lt in E1.
      destruct (Z.eq_dec un 0) as [-> | Hnz]; [reflexivity|].
      assert (Hm : (- un) mod 2 ^ 64 = 2 ^ 64 - un).
      { symmetry. apply (Z.mod_unique (- un) (2 ^ 64) (-1)); lia. }
      rewrite Hm.
      destruct (2 ^ 64 - un <? 2 ^ 63) eqn:E2; [apply Z.ltb_lt in E2; lia | lia].
    - apply Z.ltb_ge in E1. assert (un = 2 ^ 63) by lia. subst un.
      vm_compute. discriminate. }
  destruct err as [[|]|]; [cbn [fst]; lia | exact Hgen | exact Hgen].
Qed.

End Int64.

(** ** The scan as a function: what it does to a block *)

Section ScanRuns.

Import header bytebufferpool.

(** The scan is a function of the bytes, the header and the buffer. *)
Lemma Scan_functional b h bf ls1 b1 h1 bf1 e1 :
  Scan b h bf ls1 b1 h1 bf1 e1 ->
  forall ls2 b2 h2 bf2 e2,
    Scan b h bf ls2 b2 h2 bf2 e2 ->
    ls1 = ls2 /\ b1 = b2 /\ h1 = h2 /\ bf1 = bf2 /\ e1 = e2.
Proof.
  induction 1 as [b h bf Hi
                 | l rest h bf l' h' bf' e Hl Hp
                 | l rest h bf l' h' bf' Hl Hp He
                 | l rest h bf l' h' bf' ls rest' h'' bf'' e Hl Hp He Hs IH];
    intros ls2 b2 h2 bf2 e2 H2.
  - inversion H2 as [b0 h0 bf0 Hi2
                    | l2 rest2 h0 bf0 l1 h3 bf3 e3 Hl2 Hp2 Heq
                    | l2 rest2 h0 bf0 l1 h3 bf3 Hl2 Hp2 He2 Heq
                    | l2 rest2 h0 bf0 l1 h3 bf3 ls3 rest3 h4 bf4 e4 Hl2 Hp2 He2 Hs2 Heq];
      subst; try (repeat split; reflexivity);
      rewrite IndexByte_line in Hi by exact Hl2;
      pose proof (IsLine_len Hl2); lia.
  - inversion H2 as [b0 h0 bf0 Hi2
                    | l2 rest2 h0 bf0 l1 h3 bf3 e3 Hl2 Hp2 Heq
                    | l2 rest2 h0 bf0 l1 h3 bf3 Hl2 Hp2 He2 Heq
                    | l2 rest2 h0 bf0 l1 h3 bf3 ls3 rest3 h4 bf4 e4 Hl2 Hp2 He2 Hs2 Heq];
      subst.
    + rewrite IndexByte_line in Hi2 by exact Hl. pose proof (IsLine_len Hl). lia.
    + destruct (line_unique _ _ Hl2 Hl Heq) as [-> ->].
      rewrite Hp in Hp2. inversion Hp2; subst. repeat split; reflexivity.
    + destruct (line_unique _ _ Hl2 Hl Heq) as [-> ->].
      rewrite Hp in Hp2. discriminate.
    + destruct (line_unique _ _ Hl2 Hl Heq) as [-> ->].
      rewrite Hp in Hp2. discriminate.
  - inversion H2 as [b0 h0 bf0 Hi2
                    | l2 rest2 h0 bf0 l1 h3 bf3 e3 Hl2 Hp2 Heq
                    | l2 rest2 h0 bf0 l1 h3 bf3 Hl2 Hp2 He2 Heq
                    | l2 rest2 h0 bf0 l1 h3 bf3 ls3 rest3 h4 bf4 e4 Hl2 Hp2 He2 Hs2 Heq];
      subst.
    + rewrite IndexByte_line in Hi2 by exact Hl. pose proof (IsLine_len Hl). lia.
    + destruct (line_unique _ _ Hl2 Hl Heq) as [-> ->].
      rewrite Hp in Hp2. discriminate.
    + destruct (line_unique _ _ Hl2 Hl Heq) as [-> ->].
      rewrite Hp in Hp2. inversion Hp2; subst. repeat split; reflexivity.
    + destruct (line_unique _ _ Hl2 Hl Heq) as [-> ->].
      rewrite Hp in Hp2. inversion Hp2; subst. congruence.
  - inversion H2 as [b0 h0 bf0 Hi2
                    | l2 rest2 h0 bf0 l1 h3 bf3 e3 Hl2 Hp2 Heq
                    | l2 rest2 h0 bf0 l1 h3 bf3 Hl2 Hp2 He2 Heq
                    | l2 rest2 h0 bf0 l1 h3 bf3 ls3 rest3 h4 bf4 e4 Hl2 Hp2 He2 Hs2 Heq];
      subst.
    + rewrite IndexByte_line in Hi2 by exact Hl. pose proof (IsLine_len Hl). lia.
    + destruct (line_unique _ _ Hl2 Hl Heq) as [-> ->].
      rewrite Hp in Hp2. discriminate.
    + destruct (line_unique _ _ Hl2 Hl Heq) as [-> ->].
      rewrite Hp in Hp2. inversion Hp2; subst. congruence.
    + destruct (line_unique _ _ Hl2 Hl Heq) as [-> ->].
      rewrite Hp in Hp2. inversion Hp2; subst.
      destruct (IH _ _ _ _ _ Hs2) as (-> & -> & -> & -> & ->).
      repeat split; reflexivity.
Qed.

(** [readHeaders] on bytes whose first line is not empty is the scan of
    the bytes from a buffer reset first. *)
Lemma readHeaders_scan (l rest : byteslice) h bf ls b' h' bf' e :
  IsLine l -> endsBlock l = false ->
  Scan (l ++ rest) h (bytebufferpool.Reset bf) ls b' h' bf' e ->
  readHeaders (l ++ rest) h bf = Some (b', h', bf', scanned 0 ls e, e).
Proof.
  intros Hl He Hs.
  destruct (readHeaders_total (l ++ rest) h bf) as [r Hr].
  rewrite Hr. f_equal.
  pose proof (readHeaders_cases _ _ _ Hr) as Hc.
  inversion Hc as [Hi | l2 rest2 Hb Hl2 He2 | l2 rest2 ls2 b1 h1 bf1 e1 Hb Hl2 He2 Hs2];
    subst.
  - rewrite IndexByte_line in Hi by exact Hl. pose proof (IsLine_len Hl). lia.
  - destruct (line_unique _ _ Hl Hl2 Hb) as [-> _]. congruence.
  - destruct (Scan_functional Hs2 Hs) as (<- & -> & -> & -> & ->). reflexivity.
Qed.

(** One line: what [parseThenWriteBuffer] gives. *)
Lemma line_result (l : byteslice) h bf :
  exists bf' e,
    parseThenWriteBuffer l h bf = (lineAfter l, headerAfter l h, bf', e)
    /\ capacity bf' = capacity bf
    /\ ((e = None /\ B bf' = B bf ++ (if kept l then l else [])
         /\ (kept l = true -> (length (B bf) + length l <= capacity bf)%nat))
        \/ (e = Some io_ErrShortBuffer /\ kept l = true /\ bf' = bf
            /\ (capacity bf < length (B bf) + length l)%nat)).
Proof.
  destruct (parseThenWriteBuffer l h bf) as [[[l1 h1] bf1] e1] eqn:Ep.
  exists bf1, e1.
  rewrite (line_bytes Ep), (line_header _ _ _ Ep). split; [reflexivity|].
  destruct e1 as [x|].
  - destruct (line_buffer_err Ep eq_refl) as (-> & Hk & Hc).
    assert (Hbf : bf1 = bf).
    { unfold parseThenWriteBuffer, kept in *.
      destruct (isConnectionHeader l); [discriminate|].
      destruct (isProxyHeader l); simpl in *; [discriminate|].
      unfold Write in Ep.
      destruct (length (B bf) + length l <=? capacity bf)%nat;
        inversion Ep; reflexivity. }
    subst bf1. split; [reflexivity|]. right. tauto.
  - destruct (line_buffer_ok Ep eq_refl) as [HB Hc].
    split; [exact Hc|]. left. split; [reflexivity|]. split; [exact HB|].
    intros Hk. rewrite Hk in HB.
    unfold parseThenWriteBuffer, kept in *.
    apply andb_true_iff in Hk. destruct Hk as [H1 H2].
    apply negb_true_iff in H1. rewrite H1 in Ep. rewrite H2 in Ep.
    unfold Write in Ep.
    destruct (length (B bf) + length l <=? capacity bf)%nat eqn:E;
      [apply Nat.leb_le in E; exact E | inversion Ep].
Qed.

Lemma endsBlock_lineAfter (l : byteslice) : endsBlock (lineAfter l) = endsBlock l.
Proof.
  destruct (line_result l {| isConnectionClose := false; contentLength := 0 |}
              (MakeFixedSizeByteBuffer 0)) as (bf' & e & Hp & _).
  apply (line_endsBlock _ _ _ Hp).
Qed.

(** The scan of a block whose kept lines fit the buffer. *)
Lemma Scan_run (ls : list byteslice) :
  forall rest h bf,
    Forall IsLine ls -> isBlock ls = true ->
    (length (B bf) + length (concat (filter kept ls)) <= capacity bf)%nat ->
    Scan (concat ls ++ rest) h bf ls (concat (map lineAfter ls) ++ rest)
      (headersAfter ls h)
      {| B := B bf ++ concat (filter kept ls); capacity := capacity bf |} None.
Proof.
  induction ls as [|l ls IH]; intros rest h bf Hall Hblk Hcap; [discriminate|].
  inversion Hall as [|? ? Hl Hall']; subst.
  destruct (line_result l h bf) as (bf1 & e1 & Hp & Hc1 & Hres).
  assert (Hsum : length (concat (filter kept (l :: ls)))
                 = ((if kept l then length l else 0)
                    + length (concat (filter kept ls)))%nat).
  { simpl. destruct (kept l); simpl; rewrite ?length_app; reflexivity. }
  destruct Hres as [(-> & HB & _) | (_ & Hk & _ & Hover)];
    [|rewrite Hsum, Hk in Hcap; lia].
  assert (Ebf : {| B := B bf ++ concat (filter kept (l :: ls));
                   capacity := capacity bf |}
                = {| B := B bf1 ++ concat (filter kept ls);
                     capacity := capacity bf1 |}).
  { rewrite HB, Hc1. f_equal. simpl.
    destruct (kept l); simpl; rewrite ?app_nil_r, <- ?app_assoc; reflexivity. }
  rewrite Ebf.
  change (headersAfter (l :: ls) h) with (headersAfter ls (headerAfter l h)).
  change (concat (l :: ls)) with (l ++ concat ls).
  change (concat (map lineAfter (l :: ls)))
    with (lineAfter l ++ concat (map lineAfter ls)).
  rewrite <- !app_assoc.
  simpl in Hblk. destruct (endsBlock l) eqn:Eend.
  - destruct ls as [|x ls]; [|discriminate]. simpl.
    rewrite app_nil_r. destruct bf1 as [B1 c1].
    apply Scan_done; [exact Hl | exact Hp |].
    rewrite endsBlock_lineAfter. exact Eend.
  - assert (Hcap1 : (length (B bf1) + length (concat (filter kept ls))
                     <= capacity bf1)%nat).
    { rewrite HB, Hc1, length_app. rewrite Hsum in Hcap.
      destruct (kept l); simpl in *; lia. }
    apply Scan_next with (h' := headerAfter l h) (bf' := bf1);
      [exact Hl | exact Hp | | apply IH; assumption].
    rewrite endsBlock_lineAfter. exact Eend.
Qed.

(** The scan of a block whose kept lines do not fit the buffer. *)
Lemma Scan_short (ls : list byteslice) :
  forall rest h bf,
    Forall IsLine ls -> isBlock ls = true ->
    (length (B bf) <= capacity bf)%nat ->
    (capacity bf < length (B bf) + length (concat (filter kept ls)))%nat ->
    exists ls' b' h' bf',
      Scan (concat ls ++ rest) h bf ls' b' h' bf' (Some io_ErrShortBuffer).
Proof.
  induction ls as [|l ls IH]; intros rest h bf Hall Hblk Hin Hcap; [discriminate|].
  inversion Hall as [|? ? Hl Hall']; subst.
  destruct (line_result l h bf) as (bf1 & e1 & Hp & Hc1 & Hres).
  assert (Hsum : length (concat (filter kept (l :: ls)))
                 = ((if kept l then length l else 0)
                    + length (concat (filter kept ls)))%nat).
  { simpl. destruct (kept l); simpl; rewrite ?length_app; reflexivity. }
  change (concat (l :: ls)) with (l ++ concat ls). rewrite <- !app_assoc.
  destruct Hres as [(-> & HB & Hfit) | (-> & Hk & _ & Hover)].
  - simpl in Hblk. destruct (endsBlock l) eqn:Eend.
    + destruct ls as [|x ls]; [|discriminate]. rewrite Hsum in Hcap.
      simpl in Hcap. destruct (kept l) eqn:Ek.
      * specialize (Hfit eq_refl). lia.
      * lia.
    + assert (Hin1 : (length (B bf1) <= capacity bf1)%nat).
      { rewrite HB, Hc1, length_app.
        destruct (kept l); [specialize (Hfit eq_refl) | simpl]; lia. }
      assert (Hcap1 : (capacity bf1
                       < length (B bf1) + length (concat (filter kept ls)))%nat).
      { rewrite HB, Hc1, length_app. rewrite Hsum in Hcap.
        destruct (kept l); simpl in *; lia. }
      destruct (IH rest (headerAfter l h) bf1 Hall' Hblk Hin1 Hcap1)
        as (ls' & b' & h' & bf' & Hs).
      eexists _, _, _, _.
      apply Scan_next with (h' := headerAfter l h) (bf' := bf1);
        [exact Hl | exact Hp | | exact Hs].
      rewrite endsBlock_lineAfter. exact Eend.
  - eexists _, _, _, _. apply Scan_fail; [exact Hl | exact Hp].
Qed.

(** The scan of whole lines, none of them empty, with no line feed after
    them. *)
Lemma Scan_incomplete (ls : list byteslice) :
  forall rest h bf,
    Forall IsLine ls -> forallb (fun l => negb (endsBlock l)) ls = true ->
    bytes.IndexByte rest LF < 0 ->
    (length (B bf) + length (concat (filter kept ls)) <= capacity bf)%nat ->
    Scan (concat ls ++ rest) h bf ls (concat (map lineAfter ls) ++ rest)
      (headersAfter ls h)
      {| B := []; capacity := capacity bf |} (Some errNeedMore).
Proof.
  induction ls as [|l ls IH]; intros rest h bf Hall Hne Hlf Hcap.
  - simpl. apply Scan_more. exact Hlf.
  - inversion Hall as [|? ? Hl Hall']; subst.
    simpl in Hne. apply andb_true_iff in Hne. destruct Hne as [Hne1 Hne].
    apply negb_true_iff in Hne1.
    destruct (line_result l h bf) as (bf1 & e1 & Hp & Hc1 & Hres).
    assert (Hsum : length (concat (filter kept (l :: ls)))
                   = ((if kept l then length l else 0)
                      + length (concat (filter kept ls)))%nat).
    { simpl. destruct (kept l); simpl; rewrite ?length_app; reflexivity. }
    destruct Hres as [(-> & HB & _) | (_ & Hk & _ & Hover)];
      [|rewrite Hsum, Hk in Hcap; lia].
    change (headersAfter (l :: ls) h) with (headersAfter ls (headerAfter l h)).
    change (concat (l :: ls)) with (l ++ concat ls).
    change (concat (map lineAfter (l :: ls)))
      with (lineAfter l ++ concat (map lineAfter ls)).
    rewrite <- !app_assoc.
    assert (Hcap1 : (length (B bf1) + length (concat (filter kept ls))
                     <= capacity bf1)%nat).
    { rewrite HB, Hc1, length_app. rewrite Hsum in Hcap.
      destruct (kept l); simpl in *; lia. }
    pose proof (IH rest (headerAfter l h) bf1 Hall' Hne Hlf Hcap1) as Hs.
    rewrite Hc1 in Hs.
    apply Scan_next with (h' := headerAfter l h) (bf' := bf1);
      [exact Hl | exact Hp | | exact Hs].
    rewrite endsBlock_lineAfter. exact Hne1.
Qed.

End ScanRuns.

(** ** The two fields of the header *)

Section HeaderFields.

Import header bytebufferpool.

Lemma connection_not_framing (l : byteslice) :
  isConnectionHeader l = true ->
  isContentLengthHeader l = false /\ isTransferEncodingHeader l = false.
Proof.
  intros H. destruct (HasPrefix_inv _ _ H) as [t ->]. split; reflexivity.
Qed.

(** [isConnectionClose] after one line. *)
Lemma headerAfter_close (l : byteslice) (h : Header) :
  isConnectionClose (headerAfter l h) = isConnectionClose h || saysClose l.
Proof.
  unfold headerAfter, parseThenWriteBuffer, saysClose.
  destruct (isConnectionHeader l).
  - destruct (bytes.Contains (changeToLowerCase l) (bs "close")); simpl;
      [rewrite orb_true_r | rewrite orb_false_r]; reflexivity.
  - rewrite orb_false_r.
    destruct (negb (isProxyHeader l)).
    + destruct (Write _ l) as [b1 [e1|]];
        destruct (isContentLengthHeader l);
        try destruct (bytes.IndexByte l ":"%byte >? 0);
        try destruct (parseLength l _ >? 0);
        try destruct (isTransferEncodingHeader l);
        try destruct (bytes.Contains l (bs "chunked"));
        try destruct (bytes.Contains l (bs "identity")); reflexivity.
    + destruct (isContentLengthHeader l);
        try destruct (bytes.IndexByte l ":"%byte >? 0);
        try destruct (parseLength l _ >? 0);
        try destruct (isTransferEncodingHeader l);
        try destruct (bytes.Contains l (bs "chunked"));
        try destruct (bytes.Contains l (bs "identity")); reflexivity.
Qed.

Lemma headersAfter_close (ls : list byteslice) :
  forall h, isConnectionClose (headersAfter ls h)
            = isConnectionClose h || existsb saysClose ls.
Proof.
  induction ls as [|l ls IH]; intros h.
  - simpl. rewrite orb_false_r. reflexivity.
  - rewrite headersAfter_cons, IH, headerAfter_close. simpl.
    rewrite orb_assoc. reflexivity.
Qed.

(** [contentLength] after one line: what the line sets, or the value of
    before. *)
Lemma headerAfter_framing (l : byteslice) (h : Header) :
  contentLength (headerAfter l h)
  = if setsLength l then declaredLength l
    else if setsChunked l then -1
    else if setsIdentity l then -2
    else contentLength h.
Proof.
  destruct (setsLength l) eqn:E1; [apply headerAfter_length; exact E1|].
  destruct (setsChunked l) eqn:E2; [apply headerAfter_chunked; exact E2|].
  destruct (setsIdentity l) eqn:E3; [apply headerAfter_identity; exact E3|].
  apply headerAfter_keeps; assumption.
Qed.

Lemma headersAfter_unframed (ls : list byteslice) :
  forallb (fun l => negb (setsFraming l)) ls = true ->
  forall h, contentLength (headersAfter ls h) = contentLength h.
Proof.
  intros Hn h. apply headersAfter_stay; [|reflexivity].
  intros l h0 Hin Hh0. rewrite forallb_forall in Hn. specialize (Hn _ Hin).
  apply negb_true_iff in Hn. unfold setsFraming in Hn.
  apply orb_false_iff in Hn. destruct Hn as [Hn H3].
  apply orb_false_iff in Hn. destruct Hn as [H1 H2].
  rewrite headerAfter_keeps by assumption. exact Hh0.
Qed.

Lemma declaredLength_range (l : byteslice) :
  - 2 ^ 63 <= declaredLength l < 2 ^ 63.
Proof.
  unfold declaredLength, parseLength.
  destruct (bytes.IndexByte l ":"%byte >? 0); [apply ParseInt_range | lia].
Qed.

Lemma framed_headerAfter (l : byteslice) (h : Header) :
  framed h -> framed (headerAfter l h).
Proof.
  unfold framed. intros Hh. rewrite headerAfter_framing.
  destruct (setsLength l) eqn:E1.
  - unfold setsLength in E1. apply andb_true_iff in E1. destruct E1 as [_ E1].
    apply Z.gtb_lt in E1. pose proof (declaredLength_range l). lia.
  - destruct (setsChunked l); [lia|]. destruct (setsIdentity l); [lia | exact Hh].
Qed.

Lemma headersAfter_invariant (P : Header -> Prop) :
  (forall l h, P h -> P (headerAfter l h)) ->
  forall ls h, P h -> P (headersAfter ls h).
Proof.
  intros Hstep. induction ls as [|l ls IH]; intros h Hh; [exact Hh|].
  rewrite headersAfter_cons. apply IH, Hstep, Hh.
Qed.

(** The header after a scan is the header after its lines, with an error
    as without. *)
Lemma Scan_header b h bf ls b' h' bf' e :
  Scan b h bf ls b' h' bf' e -> h' = headersAfter ls h.
Proof.
  induction 1 as [b h bf Hi
                 | l rest h bf l' h' bf' e Hl Hp
                 | l rest h bf l' h' bf' Hl Hp He
                 | l rest h bf l' h' bf' ls rest' h'' bf'' e Hl Hp He Hs IH].
  - reflexivity.
  - apply (line_header _ _ _ Hp).
  - apply (line_header _ _ _ Hp).
  - rewrite headersAfter_cons, <- (line_header _ _ _ Hp). exact IH.
Qed.

Lemma readHeaders_header buf h bf b' h' bf' n e :
  readHeaders buf h bf = Some (b', h', bf', n, e) ->
  exists ls, h' = headersAfter ls h.
Proof.
  intros H. apply readHeaders_cases in H.
  inversion H as [Hi | l rest Hb Hl He | l rest ls b1 h1 bf1 e1 Hb Hl He Hs]; subst.
  - exists []. reflexivity.
  - exists []. reflexivity.
  - exists (l :: ls). apply (Scan_header Hs).
Qed.

(** Whatever [ParseHeaderFields] returns, the header is the one of before
    after some lines. *)
Lemma parseLoop_header (fuel : nat) :
  forall h r bf n h' r' bf' e,
    parseLoop fuel h r bf n = Some (Return (h', r', bf', e)) ->
    exists ls, h' = headersAfter ls h.
Proof.
  induction fuel as [|fuel IH]; intros h r bf n h' r' bf' e H; [discriminate|].
  rewrite parseLoop_unfold in H.
  destruct (tryRead h r bf n) as [res|] eqn:Et; [|discriminate].
  destruct (tryRead_cases _ _ _ _ Et)
    as [-> | [(rd1 & e1 & -> & Hne)
             | (rd1 & b1 & h1 & bf1 & k & pe & Hr & Hpe)]].
  - discriminate.
  - destruct (error_eqb e1 errNeedMore) eqn:E.
    + apply needMore_eqb in E. contradiction.
    + simpl in H. inversion H; subst. exists []. reflexivity.
  - destruct (readHeaders_header _ _ _ Hr) as [ls1 Hh1].
    destruct pe as [x|].
    + subst res. destruct (error_eqb x errNeedMore) eqn:E; simpl in H.
      * destruct (IH _ _ _ _ _ _ _ _ H) as [ls2 Hh2].
        exists (ls1 ++ ls2). rewrite headersAfter_app, <- Hh1. exact Hh2.
      * inversion H; subst. exists ls1. reflexivity.
    + destruct Hpe as (rd2 & k2 & _ & ->). inversion H; subst.
      exists ls1. reflexivity.
Qed.

End HeaderFields.

(** ** The reads of the connection *)

Section Chunks.

Import header bytebufferpool bufio.

(** A read that brings bytes which fit the room left ends [fill]. *)
Lemma fillTries_chunk (i : nat) (r : Reader) (d : byteslice) (rest : Source) :
  rd r = (d, None) :: rest -> d <> [] ->
  (length (buffered r) + length d <= size r)%nat ->
  fillTries (S i) r
  = {| rd := rest; size := size r; buffered := buffered r ++ d; err := err r |}.
Proof.
  intros Hrd Hd Hfit. destruct r as [s sz w e]. simpl in *. subst s.
  unfold srcRead.
  assert (E : (length d <=? sz - length w)%nat = true) by (apply Nat.leb_le; lia).
  rewrite E.
  assert (E2 : (0 <? length d)%nat = true).
  { apply Nat.ltb_lt. destruct d; [congruence | simpl; lia]. }
  rewrite E2. reflexivity.
Qed.

(** A read that brings more than the room left fills the buffer. *)
Lemma fillTries_over (i : nat) (r : Reader) (d : byteslice) (e : option error)
    (rest : Source) :
  rd r = (d, e) :: rest ->
  (length (buffered r) < size r)%nat ->
  (size r < length (buffered r) + length d)%nat ->
  fillTries (S i) r
  = {| rd := (skipn (size r - length (buffered r)) d, e) :: rest;
       size := size r;
       buffered := buffered r ++ firstn (size r - length (buffered r)) d;
       err := err r |}.
Proof.
  intros Hrd Hroom Hover. destruct r as [s sz w e0]. simpl in *. subst s.
  unfold srcRead.
  assert (E : (length d <=? sz - length w)%nat = false) by (apply Nat.leb_gt; lia).
  rewrite E.
  assert (E2 : (0 <? length (firstn (sz - length w) d))%nat = true).
  { apply Nat.ltb_lt. rewrite length_firstn. lia. }
  rewrite E2. reflexivity.
Qed.

(** A read that fails without a byte ends [fill] with the error kept. *)
Lemma fillTries_error (i : nat) (r : Reader) (e : error) (rest : Source) :
  rd r = ([], Some e) :: rest ->
  fillTries (S i) r
  = {| rd := rest; size := size r; buffered := buffered r; err := Some e |}.
Proof.
  intros Hrd. destruct r as [s sz w e0]. simpl in *. subst s.
  unfold setErr. simpl. rewrite app_nil_r. reflexivity.
Qed.

(** [Peek] for one byte more than the window when the next read brings
    bytes that fit the buffer. *)
Lemma Peek_chunk (r : Reader) (d : byteslice) (rest : Source) :
  err r = None -> rd r = (d, None) :: rest -> d <> [] ->
  (length (buffered r) + length d <= size r)%nat ->
  Peek r (Buffered r + 1)
  = ({| rd := rest; size := size r; buffered := buffered r ++ d; err := None |},
     slice_to (buffered r ++ d) (Buffered r + 1), None).
Proof.
  intros He Hrd Hd Hfit. unfold Peek.
  assert (H0 : 0 <= Buffered r) by apply len_nonneg.
  assert (Hdl : (0 < length d)%nat) by (destruct d; [congruence | simpl; lia]).
  destruct (Buffered r + 1 <? 0) eqn:E0; [apply Z.ltb_lt in E0; lia|].
  assert (Hf : peekFill (S (size r)) r (Buffered r + 1)
               = {| rd := rest; size := size r; buffered := buffered r ++ d;
                    err := None |}).
  { assert (E1 : (Buffered r <? Buffered r + 1) = true) by (apply Z.ltb_lt; lia).
    assert (E2 : (Buffered r <? Z.of_nat (size r)) = true)
      by (apply Z.ltb_lt; unfold Buffered, len; lia).
    rewrite peekFill_step, E1, E2, He. cbv beta iota delta [andb].
    unfold fill, maxConsecutiveEmptyReads.
    rewrite (fillTries_chunk _ r Hrd Hd Hfit), He.
    apply peekFill_enough. unfold Buffered, len. simpl.
    rewrite length_app. lia. }
  rewrite Hf. simpl size. simpl buffered.
  destruct (Buffered r + 1 >? Z.of_nat (size r)) eqn:E3.
  { apply Z.gtb_lt in E3. unfold Buffered, len in E3. lia. }
  unfold Buffered at 1. simpl buffered.
  destruct (len (buffered r ++ d) <? Buffered r + 1) eqn:E4.
  { apply Z.ltb_lt in E4. rewrite len_app in E4. unfold Buffered, len in E4. lia. }
  reflexivity.
Qed.

(** What [tryRead] does once the two calls of [Peek] have left the window
    [buffered r]: it is [tryRead] with [n = 1] on that window. *)
Lemma tryRead_window h (r : Reader) bf :
  buffered r <> [] -> inBuffer r ->
  tryRead h r bf 1 =
    match readHeaders (buffered r) h bf with
    | None => None
    | Some (b, header, buffer, headersLen, errParse) =>
        match errParse with
        | Some x =>
            Some (Return (header, setBuffered r b, buffer,
                          Some (if error_eqb x errNeedMore then errNeedMore
                                else errWrapper (Some x))))
        | None =>
            match Discard (setBuffered r b) headersLen with
            | None => None
            | Some (_, _, Some _) => Some Panic
            | Some (reader, _, None) => Some (Return (header, reader, buffer, None))
            end
        end
    end.
Proof.
  intros Hne Hsz. unfold tryRead.
  assert (Hb : 1 <= Buffered r).
  { unfold Buffered, len. destruct (buffered r); [congruence | simpl; lia]. }
  assert (Hp1 : Peek r 1 = (r, slice_to (buffered r) 1, None)).
  { unfold Peek. simpl (1 <? 0). rewrite peekFill_enough by exact Hb.
    destruct (1 >? Z.of_nat (size r)) eqn:E1.
    { apply Z.gtb_lt in E1. unfold inBuffer in Hsz. unfold Buffered, len in Hb. lia. }
    destruct (Buffered r <? 1) eqn:E2; [apply Z.ltb_lt in E2; lia|].
    reflexivity. }
  rewrite Hp1.
  assert (Hl1 : (len (slice_to (buffered r) 1) =? 0) = false).
  { destruct (buffered r); [congruence | reflexivity]. }
  rewrite Hl1, (Peek_window _ Hsz).
  assert (Hl2 : (len (buffered r) =? 0) = false)
    by (apply Z.eqb_neq; unfold Buffered in Hb; lia).
  rewrite Hl2. simpl orb. cbv iota.
  destruct (readHeaders (buffered r) h bf) as [[[[[b1 h1] bf1] k] [x|]]|];
    try reflexivity.
  destruct (error_eqb x errNeedMore); reflexivity.
Qed.

(** A round that reads the next bytes of the connection into the window is
    the round with [n = 1] on the window that results. *)
Lemma tryRead_chunk h (r : Reader) bf (d : byteslice) (rest : Source) :
  err r = None -> rd r = (d, None) :: rest -> d <> [] ->
  (length (buffered r) + length d <= size r)%nat ->
  tryRead h r bf (Buffered r + 1)
  = tryRead h {| rd := rest; size := size r; buffered := buffered r ++ d;
                 err := None |} bf 1.
Proof.
  intros He Hrd Hd Hfit.
  set (r1 := {| rd := rest; size := size r; buffered := buffered r ++ d;
                err := None |}).
  assert (Hne : buffered r1 <> []).
  { simpl. destruct (buffered r); [simpl; exact Hd | discriminate]. }
  assert (Hin : inBuffer r1) by (unfold inBuffer; simpl; rewrite length_app; lia).
  rewrite (tryRead_window h bf Hne Hin).
  unfold tryRead. rewrite (Peek_chunk r He Hrd Hd Hfit). fold r1.
  assert (Hl1 : (len (slice_to (buffered r ++ d) (Buffered r + 1)) =? 0) = false).
  { apply Z.eqb_neq. unfold slice_to, len.
    pose proof (len_nonneg (buffered r)) as H0. unfold Buffered.
    rewrite length_firstn, length_app.
    assert (0 < length d)%nat by (destruct d; [congruence | simpl; lia]).
    unfold len. lia. }
  rewrite Hl1, (Peek_window _ Hin).
  assert (Hl2 : (len (buffered r1) =? 0) = false).
  { apply Z.eqb_neq. unfold len. destruct (buffered r1); [congruence | simpl; lia]. }
  rewrite Hl2. simpl orb. cbv iota.
  destruct (readHeaders (buffered r1) h bf) as [[[[[b1 h1] bf1] k] [x|]]|];
    try reflexivity.
  destruct (error_eqb x errNeedMore); reflexivity.
Qed.

End Chunks.

(** ** [readHeaders] on a block *)

Section Blocks.

Import header bytebufferpool bufio.

Lemma block_first (ls : list byteslice) :
  isBlock ls = true -> (1 < length ls)%nat ->
  exists l ls', ls = l :: ls' /\ endsBlock l = false.
Proof.
  destruct ls as [|l ls]; [discriminate|]. simpl. intros Hb Hlen.
  exists l, ls. split; [reflexivity|].
  destruct (endsBlock l); [|reflexivity].
  destruct ls; [simpl in Hlen; lia | discriminate].
Qed.

(** [readHeaders] on a block with a header line whose kept lines fit the
    buffer. *)
Lemma readHeaders_run (ls : list byteslice) (rest : byteslice) h bf :
  Forall IsLine ls -> isBlock ls = true -> (1 < length ls)%nat ->
  (length (concat (filter kept ls)) <= capacity bf)%nat ->
  readHeaders (concat ls ++ rest) h bf
  = Some (concat (map lineAfter ls) ++ rest, headersAfter ls h,
          {| B := concat (filter kept ls); capacity := capacity bf |},
          len (concat ls), None).
Proof.
  intros Hall Hblk Hlen Hcap.
  destruct (block_first ls Hblk Hlen) as (l & ls' & -> & He).
  inversion Hall as [|? ? Hl Hall']; subst.
  pose proof (@Scan_run (l :: ls') rest h (bytebufferpool.Reset bf) Hall Hblk Hcap)
    as Hs.
  change (concat (l :: ls') ++ rest) with ((l ++ concat ls') ++ rest) in *.
  rewrite <- app_assoc in *.
  rewrite (@readHeaders_scan _ _ _ bf _ _ _ _ _ Hl He Hs). reflexivity.
Qed.

(** The same when the kept lines do not fit. *)
Lemma readHeaders_short (ls : list byteslice) (rest : byteslice) h bf :
  Forall IsLine ls -> isBlock ls = true -> (1 < length ls)%nat ->
  (capacity bf < length (concat (filter kept ls)))%nat ->
  exists b' h' bf',
    readHeaders (concat ls ++ rest) h bf
    = Some (b', h', bf', 0, Some io_ErrShortBuffer)
    /\ B bf' = [] /\ capacity bf' = capacity bf.
Proof.
  intros Hall Hblk Hlen Hcap.
  destruct (block_first ls Hblk Hlen) as (l & ls' & -> & He).
  inversion Hall as [|? ? Hl Hall']; subst.
  destruct (@Scan_short (l :: ls') rest h (bytebufferpool.Reset bf) Hall Hblk)
    as (ls2 & b' & h' & bf' & Hs); [simpl; lia | exact Hcap |].
  change (concat (l :: ls') ++ rest) with ((l ++ concat ls') ++ rest) in *.
  rewrite <- app_assoc in *.
  exists b', h', bf'. rewrite (@readHeaders_scan _ _ _ bf _ _ _ _ _ Hl He Hs).
  destruct (Scan_err Hs) as (HB & Hc & _). repeat split; assumption.
Qed.

(** Whole lines, the empty one not among them, and no line feed after
    them: more is needed. *)
Lemma readHeaders_incomplete (ls : list byteslice) (part : byteslice) h bf :
  Forall IsLine ls -> forallb (fun l => negb (endsBlock l)) ls = true ->
  bytes.IndexByte part LF < 0 ->
  (length (concat (filter kept ls)) <= capacity bf)%nat ->
  readHeaders (concat ls ++ part) h bf
  = Some (concat (map lineAfter ls) ++ part, headersAfter ls h,
          match ls with [] => bf | _ :: _ => bytebufferpool.Reset bf end,
          0, Some errNeedMore).
Proof.
  intros Hall Hne Hlf Hcap. destruct ls as [|l ls'].
  - simpl. unfold readHeaders.
    assert (E : (bytes.IndexByte part LF <? 0) = true) by (apply Z.ltb_lt; lia).
    rewrite E. reflexivity.
  - inversion Hall as [|? ? Hl Hall']; subst.
    pose proof Hne as Hne'. simpl in Hne'. apply andb_true_iff in Hne'.
    destruct Hne' as [He _]. apply negb_true_iff in He.
    pose proof (@Scan_incomplete (l :: ls') part h (bytebufferpool.Reset bf)
                  Hall Hne Hlf Hcap) as Hs.
    change (concat (l :: ls') ++ part) with ((l ++ concat ls') ++ part) in *.
    rewrite <- app_assoc in *.
    rewrite (@readHeaders_scan _ _ _ bf _ _ _ _ _ Hl He Hs). reflexivity.
Qed.

Lemma block_len_pos (ls : list byteslice) :
  Forall IsLine ls -> ls <> [] -> 0 < len (concat ls).
Proof.
  intros Hall Hne. destruct ls as [|l ls]; [congruence|].
  inversion Hall; subst. simpl. rewrite len_app.
  pose proof (IsLine_len H1). pose proof (len_nonneg (concat ls)). lia.
Qed.

Lemma lineAfter_length (l : byteslice) : length (lineAfter l) = length l.
Proof.
  unfold lineAfter. destruct (isConnectionHeader l); [apply length_map | reflexivity].
Qed.

Lemma linesAfter_len (ls : list byteslice) :
  len (concat (map lineAfter ls)) = len (concat ls).
Proof.
  unfold len. f_equal.
  induction ls as [|l ls IH]; simpl; [reflexivity|].
  rewrite !length_app, lineAfter_length, IH. reflexivity.
Qed.

(** A round on a window that begins with a block whose kept lines fit. *)
Lemma tryRead_run h (r : Reader) bf (ls : list byteslice) (rest : byteslice) :
  buffered r = concat ls ++ rest -> inBuffer r ->
  Forall IsLine ls -> isBlock ls = true -> (1 < length ls)%nat ->
  (length (concat (filter kept ls)) <= capacity bf)%nat ->
  tryRead h r bf 1
  = Some (Return (headersAfter ls h, setBuffered r rest,
                  {| B := concat (filter kept ls); capacity := capacity bf |},
                  None)).
Proof.
  intros Hw Hin Hall Hblk Hlen Hcap.
  assert (Hpos : 0 < len (concat ls))
    by (apply block_len_pos; [exact Hall | destruct ls; [discriminate | congruence]]).
  assert (Hne : buffered r <> []).
  { rewrite Hw. intros E. apply (f_equal len) in E. rewrite len_app in E.
    pose proof (len_nonneg rest). unfold len at 3 in E. simpl in E. lia. }
  rewrite (tryRead_window h bf Hne Hin), Hw.
  rewrite (readHeaders_run rest h bf Hall Hblk Hlen Hcap).
  rewrite Discard_buffered.
  - simpl. rewrite <- linesAfter_len, slice_from_app. reflexivity.
  - exact Hpos.
  - unfold Buffered. simpl. rewrite len_app, linesAfter_len.
    pose proof (len_nonneg rest). lia.
Qed.

End Blocks.

(** ** A block that comes in two reads *)

Section Deliveries.

Import header bytebufferpool bufio.

Lemma toLower_LF (c : byte) : toLower c = LF -> c = LF.
Proof. destruct c; intros H; try reflexivity; discriminate H. Qed.

Lemma IsLine_lineAfter (l : byteslice) : IsLine l -> IsLine (lineAfter l).
Proof.
  unfold lineAfter. destruct (isConnectionHeader l); [|tauto].
  intros (body & -> & Hn). exists (map toLower body). split.
  - unfold changeToLowerCase. rewrite map_app. reflexivity.
  - intros Hin. apply in_map_iff in Hin. destruct Hin as (c & Hc & Hin).
    apply toLower_LF in Hc. subst c. contradiction.
Qed.

(** A [Connection] line, once in small letters, is a line like any other. *)
Lemma lowered_plain (l : byteslice) :
  isConnectionHeader l = true ->
  kept (changeToLowerCase l) = true
  /\ isContentLengthHeader (changeToLowerCase l) = false
  /\ isTransferEncodingHeader (changeToLowerCase l) = false.
Proof.
  intros H. destruct (HasPrefix_inv _ _ H) as [t ->]. repeat split; reflexivity.
Qed.

Lemma kept_linesAfter (ls : list byteslice) :
  (length (concat (filter kept ls))
   <= length (concat (filter kept (map lineAfter ls))))%nat.
Proof.
  induction ls as [|l ls IH]; simpl; [lia|].
  destruct (kept l) eqn:Ek.
  - rewrite (kept_lineAfter _ Ek), Ek. simpl. rewrite !length_app. lia.
  - destruct (kept (lineAfter l)); simpl; rewrite ?length_app; lia.
Qed.

Lemma isBlock_app (ls1 ls2 : list byteslice) :
  forallb (fun l => negb (endsBlock l)) ls1 = true ->
  isBlock (ls1 ++ ls2) = isBlock ls2.
Proof.
  induction ls1 as [|l ls1 IH]; simpl; intros H; [reflexivity|].
  apply andb_true_iff in H. destruct H as [H1 H].
  apply negb_true_iff in H1. rewrite H1. apply IH, H.
Qed.

Lemma linesAfter_not_ending (ls : list byteslice) :
  forallb (fun l => negb (endsBlock l)) ls = true ->
  forallb (fun l => negb (endsBlock l)) (map lineAfter ls) = true.
Proof.
  induction ls as [|l ls IH]; simpl; intros H; [reflexivity|].
  apply andb_true_iff in H. destruct H as [H1 H].
  rewrite endsBlock_lineAfter, H1. apply IH, H.
Qed.

(** The header after a line gone over before. *)
Lemma headerAfter_lineAfter (l : byteslice) (h : Header) :
  headerAfter (lineAfter l) h = if isConnectionHeader l then h else headerAfter l h.
Proof.
  unfold lineAfter. destruct (isConnectionHeader l) eqn:Ec; [|reflexivity].
  destruct (lowered_plain _ Ec) as (Hk & H1 & H2).
  unfold kept in Hk. apply andb_true_iff in Hk. destruct Hk as [Hk1 Hk2].
  apply negb_true_iff in Hk1.
  unfold headerAfter, parseThenWriteBuffer. rewrite Hk1, H1, H2, Hk2.
  destruct (Write _ _) as [b1 [e1|]]; reflexivity.
Qed.

Lemma Header_ext (a b : Header) :
  isConnectionClose a = isConnectionClose b ->
  contentLength a = contentLength b -> a = b.
Proof. destruct a, b. simpl. intros -> ->. reflexivity. Qed.

Lemma contentLength_fold (ls : list byteslice) :
  forall h, contentLength (headersAfter ls h)
            = fold_left framingAfter ls (contentLength h).
Proof.
  induction ls as [|l ls IH]; intros h; [reflexivity|].
  rewrite headersAfter_cons, IH. simpl. f_equal. apply headerAfter_framing.
Qed.

Lemma framingAfter_cases (l : byteslice) :
  (forall v, framingAfter v l = v)
  \/ (exists c, forall v, framingAfter v l = c).
Proof.
  unfold framingAfter.
  destruct (setsLength l); [right; eexists; reflexivity|].
  destruct (setsChunked l); [right; eexists; reflexivity|].
  destruct (setsIdentity l); [right; eexists; reflexivity|].
  left. reflexivity.
Qed.

(** The lines either leave the value as it is or decide it. *)
Lemma framing_fold_cases (ls : list byteslice) :
  (forall v, fold_left framingAfter ls v = v)
  \/ (forall v w, fold_left framingAfter ls v = fold_left framingAfter ls w).
Proof.
  induction ls as [|l ls IH]; [left; reflexivity|].
  simpl. destruct (framingAfter_cases l) as [Hl | [c Hc]].
  - destruct IH as [IH | IH].
    + left. intros v. rewrite Hl. apply IH.
    + right. intros v w. apply IH.
  - right. intros v w. rewrite (Hc v), (Hc w). reflexivity.
Qed.

Lemma framingAfter_lineAfter (ls : list byteslice) :
  forall v, fold_left framingAfter (map lineAfter ls) v
            = fold_left framingAfter ls v.
Proof.
  induction ls as [|l ls IH]; intros v; [reflexivity|].
  simpl. rewrite IH. f_equal.
  pose proof (headerAfter_framing (lineAfter l)
                {| isConnectionClose := false; contentLength := v |}) as H1.
  pose proof (headerAfter_framing l
                {| isConnectionClose := false; contentLength := v |}) as H2.
  simpl in H1, H2. unfold framingAfter. rewrite <- H1, <- H2.
  rewrite headerAfter_lineAfter.
  destruct (isConnectionHeader l) eqn:Ec; [|reflexivity].
  rewrite headerAfter_contentLength, Ec. reflexivity.
Qed.

Lemma saysClose_lineAfter (l : byteslice) : saysClose (lineAfter l) = false.
Proof.
  unfold lineAfter, saysClose.
  destruct (isConnectionHeader l) eqn:Ec; [|rewrite Ec; reflexivity].
  destruct (lowered_plain _ Ec) as (Hk & _).
  unfold kept in Hk. apply andb_true_iff in Hk. destruct Hk as [Hk _].
  apply negb_true_iff in Hk. rewrite Hk. reflexivity.
Qed.

Lemma saysClose_linesAfter (ls : list byteslice) :
  existsb saysClose (map lineAfter ls) = false.
Proof.
  induction ls as [|l ls IH]; simpl; [reflexivity|].
  rewrite saysClose_lineAfter, IH. reflexivity.
Qed.

(** Going over lines a second time, the [Connection] lines in small
    letters, changes nothing in the header. *)
Lemma headersAfter_again (ls1 ls2 : list byteslice) (h : Header) :
  headersAfter (map lineAfter ls1 ++ ls2) (headersAfter ls1 h)
  = headersAfter (ls1 ++ ls2) h.
Proof.
  rewrite !headersAfter_app. f_equal. apply Header_ext.
  - rewrite !headersAfter_close, saysClose_linesAfter. apply orb_false_r.
  - rewrite !contentLength_fold, framingAfter_lineAfter.
    destruct (framing_fold_cases ls1) as [H | H]; [rewrite !H; reflexivity | apply H].
Qed.

(** A header block that comes in two reads, the first of which ends
    before the empty line: the lines whole in the first read are gone over
    twice, the second time as the first left them. *)
Lemma parse_two_reads fuel h sz (c1 c2 : byteslice) (src : Source) bf
    (ls1 ls2 : list byteslice) (part rest : byteslice) :
  c1 = concat ls1 ++ part -> c1 <> [] -> c2 <> [] ->
  Forall IsLine ls1 -> forallb (fun l => negb (endsBlock l)) ls1 = true ->
  bytes.IndexByte part LF < 0 ->
  part ++ c2 = concat ls2 ++ rest ->
  Forall IsLine ls2 -> isBlock ls2 = true ->
  (1 < length ls1 + length ls2)%nat ->
  (length c1 + length c2 <= sz)%nat ->
  (length (concat (filter kept (map lineAfter ls1 ++ ls2))) <= capacity bf)%nat ->
  ParseHeaderFields (S (S fuel)) h
    (newReader sz ((c1, None) :: (c2, None) :: src)) bf
  = Some (Return (headersAfter (ls1 ++ ls2) h,
                  {| rd := src; size := sz; buffered := rest; err := None |},
                  {| B := concat (filter kept (map lineAfter ls1 ++ ls2));
                     capacity := capacity bf |},
                  None)).
Proof.
  intros Hc1 Hne1 Hne2 Hall1 Hopen Hlf Hc2 Hall2 Hblk Hlen Hsz Hcap.
  assert (Hcap1 : (length (concat (filter kept ls1)) <= capacity bf)%nat).
  { pose proof (kept_linesAfter ls1) as Hk.
    rewrite filter_app, concat_app, length_app in Hcap. lia. }
  unfold ParseHeaderFields. rewrite parseLoop_unfold.
  (* the first round *)
  change (tryRead h (newReader sz ((c1, None) :: (c2, None) :: src)) bf 1)
    with (tryRead h (newReader sz ((c1, None) :: (c2, None) :: src)) bf
            (Buffered (newReader sz ((c1, None) :: (c2, None) :: src)) + 1)).
  rewrite (@tryRead_chunk h (newReader sz ((c1, None) :: (c2, None) :: src)) bf
             c1 ((c2, None) :: src) eq_refl eq_refl Hne1)
    by (simpl; lia).
  simpl buffered. simpl size. simpl app.
  rewrite tryRead_window; [|simpl; exact Hne1 | unfold inBuffer; simpl; lia].
  simpl buffered. rewrite Hc1 at 1.
  rewrite (readHeaders_incomplete part h bf Hall1 Hopen Hlf Hcap1).
  simpl error_eqb. simpl negb. cbv iota.
  set (bf1 := match ls1 with [] => bf | _ :: _ => bytebufferpool.Reset bf end).
  assert (Hbf1 : capacity bf1 = capacity bf) by (subst bf1; destruct ls1; reflexivity).
  set (w1 := concat (map lineAfter ls1) ++ part).
  assert (Hw1 : length w1 = length c1).
  { subst w1. rewrite Hc1, !length_app.
    pose proof (linesAfter_len ls1) as Hl. unfold len in Hl. lia. }
  (* the second round *)
  rewrite parseLoop_unfold.
  set (r1 := setBuffered {| rd := (c2, None) :: src; size := sz; buffered := c1;
                            err := None |} w1).
  rewrite (@tryRead_chunk (headersAfter ls1 h) r1 bf1 c2 src eq_refl eq_refl Hne2)
    by (simpl; lia).
  simpl buffered. simpl size.
  assert (Hw2 : w1 ++ c2 = concat (map lineAfter ls1 ++ ls2) ++ rest).
  { subst w1. rewrite concat_app, <- !app_assoc, Hc2. reflexivity. }
  rewrite (@tryRead_run (headersAfter ls1 h)
             {| rd := src; size := sz; buffered := w1 ++ c2; err := None |}
             bf1 (map lineAfter ls1 ++ ls2) rest Hw2).
  - rewrite headersAfter_again, Hbf1. reflexivity.
  - unfold inBuffer. simpl. rewrite length_app. lia.
  - apply Forall_app. split; [|exact Hall2].
    apply Forall_forall. intros x Hx. apply in_map_iff in Hx.
    destruct Hx as (l & <- & Hin). apply IsLine_lineAfter.
    rewrite Forall_forall in Hall1. apply Hall1, Hin.
  - rewrite isBlock_app; [exact Hblk | apply linesAfter_not_ending, Hopen].
  - rewrite length_app, length_map. exact Hlen.
  - rewrite Hbf1. exact Hcap.
Qed.

End Deliveries.

(** ** The lines [ParseHeaderFields] writes *)

Section KeptLines.

Import header bytebufferpool bufio.

Lemma nonempty_length (A : Type) (x : list A) : (0 < length x)%nat -> x <> [].
Proof. destruct x; simpl; [lia | discriminate]. Qed.

Lemma forallb_IsLine (ls : list byteslice) :
  forallb isLineb ls = true -> Forall IsLine ls.
Proof.
  intros H. apply Forall_forall. intros l Hin. apply isLineb_IsLine.
  rewrite forallb_forall in H. apply H, Hin.
Qed.

(** X1: a complete header block that has a line before its empty line and
    lies in the window of the reader is parsed in one round whenever the
    lines to keep fit the target buffer, whatever the length of the lines
    that are stripped: [ParseHeaderFields] returns nil, the buffer holds
    the lines that are neither [Connection] lines nor proxy headers, in
    their order and as they came, and nothing of what it held before; the
    header is the one of before after the lines of the block; the reader is
    past the block and nothing else. *)
Theorem ParseHeaderFields_writes_kept_lines fuel h (rd : Reader) bf blk rest :
  buffered rd = blk ++ rest -> (length (buffered rd) <= size rd)%nat ->
  completeBlock blk = true ->
  (1 < length (splitLines blk))%nat ->
  (length (concat (filter kept (splitLines blk))) <= capacity bf)%nat ->
  ParseHeaderFields (S fuel) h rd bf
  = Some (Return (headersAfter (splitLines blk) h,
                  setBuffered rd rest,
                  {| B := concat (filter kept (splitLines blk));
                     capacity := capacity bf |},
                  None)).
Proof.
  intros Hw Hsz Hblk Hlen Hcap.
  destruct (completeBlock_lines _ Hblk) as (Hc & Hall & Hb).
  unfold ParseHeaderFields. rewrite parseLoop_unfold.
  rewrite (@tryRead_run h rd bf (splitLines blk) rest); try assumption.
  - reflexivity.
  - rewrite <- Hc. exact Hw.
Qed.

Lemma ParseHeaderFields_writes_kept_lines_witness :
  ParseHeaderFields 1 freshHeader
    {| rd := []; size := 4096; buffered := plainRequest ++ bs "hi"; err := None |}
    (usedBuffer "old" 32)
  = Some (Return ({| isConnectionClose := true; contentLength := 0 |},
                  {| rd := []; size := 4096; buffered := bs "hi"; err := None |},
                  {| B := line "Host: example.test" ++ crlf; capacity := 32 |},
                  None)).
Proof.
  apply (@ParseHeaderFields_writes_kept_lines 0 freshHeader
           {| rd := []; size := 4096; buffered := plainRequest ++ bs "hi";
              err := None |}
           (usedBuffer "old" 32) plainRequest (bs "hi"));
    try reflexivity; vm_compute; lia.
Defined.

(** X2: the same block when the lines to keep do not fit the target buffer:
    [ParseHeaderFields] returns the short buffer error, wrapped, the buffer
    is empty, and the reader is past nothing: its window holds the bytes of
    before, but for the case of letters. *)
Theorem ParseHeaderFields_short_buffer fuel h (rd : Reader) bf blk rest :
  buffered rd = blk ++ rest -> (length (buffered rd) <= size rd)%nat ->
  completeBlock blk = true ->
  (1 < length (splitLines blk))%nat ->
  (capacity bf < length (concat (filter kept (splitLines blk))))%nat ->
  exists h' w,
    ParseHeaderFields (S fuel) h rd bf
    = Some (Return (h', setBuffered rd w,
                    {| B := []; capacity := capacity bf |},
                    Some (Errorf headersFormat io_ErrShortBuffer)))
    /\ sameCase w (buffered rd).
Proof.
  intros Hw Hsz Hblk Hlen Hcap.
  destruct (completeBlock_lines _ Hblk) as (Hc & Hall & Hb).
  destruct (@readHeaders_short (splitLines blk) rest h bf Hall Hb Hlen Hcap)
    as (b' & h' & bf' & Hr & HB & Hcp).
  rewrite <- Hc, <- Hw in Hr.
  destruct (readHeaders_sameCase _ _ _ Hr) as [Hsame _].
  exists h', b'. split; [|exact Hsame].
  assert (Hne : buffered rd <> []).
  { rewrite Hw, Hc. intros E. apply (f_equal (@length byte)) in E.
    rewrite length_app in E. simpl in E.
    assert (length (concat (filter kept (splitLines blk)))
            <= length (concat (splitLines blk)))%nat.
    { clear. induction (splitLines blk) as [|l ls IH]; simpl; [lia|].
      destruct (kept l); simpl; rewrite ?length_app; lia. }
    lia. }
  unfold ParseHeaderFields. rewrite parseLoop_unfold.
  rewrite (tryRead_window h bf Hne Hsz), Hr. simpl.
  destruct bf' as [B1 c1]. simpl in *. subst. reflexivity.
Qed.

Lemma ParseHeaderFields_short_buffer_witness :
  exists h' w,
    ParseHeaderFields 1 freshHeader
      {| rd := []; size := 4096; buffered := plainRequest ++ bs "hi"; err := None |}
      (usedBuffer "old" 21)
    = Some (Return (h',
                    setBuffered {| rd := []; size := 4096;
                                   buffered := plainRequest ++ bs "hi";
                                   err := None |} w,
                    {| B := []; capacity := 21 |},
                    Some (Errorf headersFormat io_ErrShortBuffer)))
    /\ sameCase w (plainRequest ++ bs "hi").
Proof.
  apply (@ParseHeaderFields_short_buffer 0 freshHeader
           {| rd := []; size := 4096; buffered := plainRequest ++ bs "hi";
              err := None |}
           (usedBuffer "old" 21) plainRequest (bs "hi"));
    try reflexivity; vm_compute; lia.
Defined.

End KeptLines.

(** ** The header from one call to the next *)

Section HeaderState.

Import header bytebufferpool bufio.

(** X3: after a successful [readHeaders], [IsConnectionClose()] is true
    exactly when it was true before or a line of the block begins with
    [Connection] and has [close] in it, in small or capital letters:
    parsing never clears it. *)
Theorem readHeaders_connection_close buf h bf b' h' bf' n :
  readHeaders buf h bf = Some (b', h', bf', n, None) ->
  IsConnectionClose h'
  = IsConnectionClose h || existsb saysClose (splitLines (slice_to buf n)).
Proof.
  intros H. rewrite (readHeaders_lines _ _ _ H).
  unfold IsConnectionClose. apply headersAfter_close.
Qed.

Lemma readHeaders_connection_close_witness :
  exists b' h' bf' n,
    readHeaders (line "Host: example.test" ++ line "Connection: Keep-Alive, CLOSE"
                 ++ crlf)
      freshHeader (MakeFixedSizeByteBuffer 64)
    = Some (b', h', bf', n, None)
    /\ IsConnectionClose h' = true.
Proof.
  eexists _, _, _, _. split; [vm_compute; reflexivity|].
  eapply eq_trans;
    [eapply (@readHeaders_connection_close
               (line "Host: example.test" ++ line "Connection: Keep-Alive, CLOSE"
                ++ crlf) freshHeader (MakeFixedSizeByteBuffer 64));
     vm_compute; reflexivity
    | reflexivity].
Defined.

(** X4: [contentLength] stays in its range.  Whatever [ParseHeaderFields]
    returns, nil or an error, a stored value that was [-2], [-1] or from
    [0] to [2^63 - 1] is so again: no negative [Content-Length] is ever
    stored, and [ContentLength()] is between [0] and [2^63 - 1]. *)
Theorem ParseHeaderFields_keeps_framed fuel h r bf h' r' bf' e :
  ParseHeaderFields fuel h r bf = Some (Return (h', r', bf', e)) ->
  framed h ->
  framed h' /\ 0 <= ContentLength h' < 2 ^ 63.
Proof.
  intros H Hh. destruct (parseLoop_header _ _ _ _ _ H) as [ls ->].
  assert (Hf : framed (headersAfter ls h))
    by (apply headersAfter_invariant; [apply framed_headerAfter | exact Hh]).
  split; [exact Hf|]. unfold framed in Hf. unfold ContentLength.
  destruct (contentLength (headersAfter ls h) >? 0) eqn:E.
  - apply Z.gtb_lt in E. lia.
  - lia.
Qed.

Lemma ParseHeaderFields_keeps_framed_witness :
  exists h' r' bf',
    ParseHeaderFields 1 freshHeader
      (newReader 4096 [(line "Content-Length: -7" ++ crlf, None)])
      (MakeFixedSizeByteBuffer 64)
    = Some (Return (h', r', bf', None))
    /\ framed h' /\ 0 <= ContentLength h' < 2 ^ 63.
Proof.
  eexists _, _, _.
  assert (H : ParseHeaderFields 1 freshHeader
                (newReader 4096 [(line "Content-Length: -7" ++ crlf, None)])
                (MakeFixedSizeByteBuffer 64)
              = Some (Return (_, _, _, None)))
    by (vm_compute; reflexivity).
  split; [exact H|].
  apply (@ParseHeaderFields_keeps_framed _ _ _ _ _ _ _ _ H).
  unfold framed. simpl. lia.
Defined.

(** X7: [readHeaders] does not reset the header.  After a block in which no
    line sets the framing (no [Content-Length] line of positive value, no
    [Transfer-Encoding] line with [chunked] or [identity]), [contentLength]
    is what it was before the call. *)
Theorem readHeaders_keeps_contentLength buf h bf b' h' bf' n :
  readHeaders buf h bf = Some (b', h', bf', n, None) ->
  forallb (fun l => negb (setsFraming l)) (splitLines (slice_to buf n)) = true ->
  contentLength h' = contentLength h.
Proof.
  intros H Hn. rewrite (readHeaders_lines _ _ _ H).
  apply headersAfter_unframed. exact Hn.
Qed.

Lemma readHeaders_keeps_contentLength_witness :
  exists b' h' bf' n,
    readHeaders (line "Host: example.test" ++ crlf)
      {| isConnectionClose := false; contentLength := 42 |}
      (MakeFixedSizeByteBuffer 64)
    = Some (b', h', bf', n, None)
    /\ contentLength h' = 42.
Proof.
  eexists _, _, _, _. split; [vm_compute; reflexivity|].
  eapply (@readHeaders_keeps_contentLength (line "Host: example.test" ++ crlf)
            {| isConnectionClose := false; contentLength := 42 |}
            (MakeFixedSizeByteBuffer 64));
    [vm_compute; reflexivity | reflexivity].
Defined.

End HeaderState.

(** ** Values of [Content-Length] that are no lengths *)

Section LengthValues.

Import header bytebufferpool.

(** Digits whose number does not fit 64 bits end the loop of [ParseUint]
    with the range error. *)
Lemma parseUintLoop_overflow (ds : byteslice) :
  forall n, 0 <= n < 2 ^ 64 -> forallb isDigit ds = true ->
    2 ^ 64 <= decimalFrom n ds ->
    strconv.parseUintLoop ds n = (strconv.maxUint64, Some strconv.ErrRange).
Proof.
  induction ds as [|d ds IH]; intros n Hn Hd Hv.
  { unfold decimalFrom in Hv. simpl in Hv. lia. }
  simpl in Hd. apply andb_true_iff in Hd. destruct Hd as [Hd Hds].
  pose proof (isDigit_range _ Hd) as Hr.
  set (v := Z.of_N (Byte.to_N d) - 48) in *.
  assert (Hstep : decimalFrom n (d :: ds) = decimalFrom (n * 10 + v) ds)
    by reflexivity.
  rewrite Hstep in Hv.
  rewrite parseUintLoop_cons, (digit_isDigit _ Hd). fold v. cbv zeta.
  assert (E1 : (v >=? 10) = false).
  { destruct (Z.geb_spec v 10); [lia | reflexivity]. }
  rewrite E1.
  assert (Hc : strconv.maxUint64 / 10 + 1 = 1844674407370955162) by reflexivity.
  rewrite Hc.
  destruct (Z.geb_spec n 1844674407370955162) as [Hbig | Hsmall]; [reflexivity|].
  destruct (Z_lt_le_dec (n * 10 + v) (2 ^ 64)) as [Hfit | Hwrap].
  - assert (Hm : (n * 10 + v) mod 2 ^ 64 = n * 10 + v)
      by (apply Z.mod_small; lia).
    rewrite Hm.
    assert (E3 : (n * 10 + v <? n * 10) = false) by (apply Z.ltb_ge; lia).
    assert (E4 : (n * 10 + v >? strconv.maxUint64) = false).
    { unfold strconv.maxUint64.
      destruct (Z.gtb_spec (n * 10 + v) (2 ^ 64 - 1)); [lia | reflexivity]. }
    rewrite E3, E4. cbv beta iota delta [orb].
    apply IH; [lia | exact Hds | exact Hv].
  - assert (Hm : (n * 10 + v) mod 2 ^ 64 = n * 10 + v - 2 ^ 64).
    { symmetry. apply (Z.mod_unique (n * 10 + v) (2 ^ 64) 1); lia. }
    rewrite Hm.
    assert (E3 : (n * 10 + v - 2 ^ 64 <? n * 10) = true) by (apply Z.ltb_lt; lia).
    rewrite E3. reflexivity.
Qed.

(** [strconv.ParseInt] on digits whose number does not fit [int64]: the
    largest [int64], with the range error. *)
Lemma ParseInt_clamped (ds : byteslice) :
  forallb isDigit ds = true -> 2 ^ 63 <= decimalValue ds ->
  fst (strconv.ParseInt ds) = 2 ^ 63 - 1.
Proof.
  intros Hd Hv. destruct ds as [|d ds]; [vm_compute in Hv; congruence|].
  pose proof Hd as Hd0. simpl in Hd0. apply andb_true_iff in Hd0.
  destruct Hd0 as [Hd1 _]. destruct (not_sign _ Hd1) as [Ep Em].
  unfold strconv.ParseInt. rewrite Ep, Em.
  unfold strconv.ParseUint, decimalValue in *.
  destruct (Z_lt_le_dec (decimalFrom 0 (d :: ds)) (2 ^ 64)) as [Hfit | Hover].
  - rewrite parseUintLoop_digits; [| lia | exact Hd | exact Hfit].
    set (u := decimalFrom 0 (d :: ds)) in *.
    assert (E1 : (u >=? 2 ^ 63) = true).
    { destruct (Z.geb_spec u (2 ^ 63)); [reflexivity | lia]. }
    rewrite E1. reflexivity.
  - rewrite parseUintLoop_overflow; [| lia | exact Hd | exact Hover].
    reflexivity.
Qed.

Lemma HasPrefix_longer (s p t : byteslice) :
  bytes.HasPrefix s p = true -> bytes.HasPrefix (s ++ t) p = true.
Proof.
  intros H. destruct (HasPrefix_inv _ _ H) as [u ->].
  rewrite <- app_assoc. apply HasPrefix_app.
Qed.

Lemma digits_nonempty (ds : byteslice) : 0 < decimalValue ds -> ds <> [].
Proof. intros H ->. vm_compute in H. discriminate. Qed.

(** X5: a [Content-Length] line whose digits write a number of [2^63] or
    more: the range error of [strconv.ParseInt] is dropped, the value it
    returns with it, the largest [int64], is stored. *)
Theorem parseThenWriteBuffer_length_clamped (sp1 ds sp2 : byteslice)
    h bf l' h' bf' e :
  forallb asciiSpace sp1 = true -> forallb asciiSpace sp2 = true ->
  forallb isDigit ds = true -> 2 ^ 63 <= decimalValue ds ->
  parseThenWriteBuffer (contentLengthHeader ++ ":"%byte :: sp1 ++ ds ++ sp2) h bf
  = (l', h', bf', e) ->
  contentLength h' = 2 ^ 63 - 1 /\ ContentLength h' = 9223372036854775807.
Proof.
  intros H1 H2 Hd Hv Hp.
  set (l := contentLengthHeader ++ ":"%byte :: sp1 ++ ds ++ sp2) in *.
  assert (Hne : ds <> []) by (apply digits_nonempty; lia).
  assert (Hcl : isContentLengthHeader l = true) by apply HasPrefix_app.
  assert (Hv2 : declaredLength l = 2 ^ 63 - 1).
  { unfold declaredLength, l.
    rewrite IndexByte_first by (vm_compute; intuition discriminate).
    change (len contentLengthHeader >? 0) with true. cbv iota.
    unfold parseLength.
    replace (contentLengthHeader ++ ":"%byte :: sp1 ++ ds ++ sp2)
      with ((contentLengthHeader ++ [":"%byte]) ++ sp1 ++ ds ++ sp2)
      by (rewrite <- app_assoc; reflexivity).
    replace (len contentLengthHeader + 1)
      with (len (contentLengthHeader ++ [":"%byte])) by reflexivity.
    rewrite slice_from_app, TrimSpace_decimal by assumption.
    apply ParseInt_clamped; assumption. }
  assert (Hc : contentLength h' = 2 ^ 63 - 1).
  { rewrite (line_header _ _ _ Hp), headerAfter_length; [exact Hv2|].
    unfold setsLength. rewrite Hcl, Hv2. reflexivity. }
  split; [exact Hc|]. unfold ContentLength. rewrite Hc. reflexivity.
Qed.

Lemma parseThenWriteBuffer_length_clamped_witness :
  exists l' h' bf' e,
    parseThenWriteBuffer (line "Content-Length: 99999999999999999999")
      freshHeader (MakeFixedSizeByteBuffer 64)
    = (l', h', bf', e)
    /\ contentLength h' = 2 ^ 63 - 1 /\ ContentLength h' = 9223372036854775807.
Proof.
  eexists _, _, _, _. split; [vm_compute; reflexivity|].
  eapply (@parseThenWriteBuffer_length_clamped (bs " ")
            (bs "99999999999999999999") crlf freshHeader
            (MakeFixedSizeByteBuffer 64));
    [reflexivity | reflexivity | reflexivity | vm_compute; discriminate
    | vm_compute; reflexivity].
Defined.

(** X6: a [Content-Length] line whose value, once trimmed, begins with a
    minus sign leaves the header as it is, whatever follows the sign. *)
Theorem parseThenWriteBuffer_negative_length (l rest : byteslice)
    h bf l' h' bf' e :
  isContentLengthHeader l = true ->
  lengthText l = "-"%byte :: rest ->
  parseThenWriteBuffer l h bf = (l', h', bf', e) ->
  h' = h.
Proof.
  intros Hcl Ht Hp. rewrite (line_header _ _ _ Hp).
  pose proof (contentLength_not_connection _ Hcl) as Hnc.
  apply Header_ext.
  - rewrite headerAfter_close. unfold saysClose. rewrite Hnc. apply orb_false_r.
  - apply headerAfter_keeps.
    + unfold setsLength. rewrite Hcl. simpl.
      destruct (Z.gtb_spec (declaredLength l) 0) as [Hpos|]; [|reflexivity].
      exfalso. unfold declaredLength in Hpos.
      destruct (bytes.IndexByte l ":"%byte >? 0); [|lia].
      unfold parseLength in Hpos. fold (lengthText l) in Hpos.
      rewrite Ht in Hpos. pose proof (ParseInt_minus rest). lia.
    + unfold setsIdentity.
      destruct (isTransferEncodingHeader l) eqn:E; [|reflexivity].
      destruct (transferEncoding_not_others _ E). congruence.
    + unfold setsChunked.
      destruct (isTransferEncodingHeader l) eqn:E; [|reflexivity].
      destruct (transferEncoding_not_others _ E). congruence.
Qed.

Lemma parseThenWriteBuffer_negative_length_witness :
  exists l' h' bf' e,
    parseThenWriteBuffer (line "Content-Length: -5")
      {| isConnectionClose := false; contentLength := 42 |}
      (MakeFixedSizeByteBuffer 64)
    = (l', h', bf', e)
    /\ h' = {| isConnectionClose := false; contentLength := 42 |}.
Proof.
  eexists _, _, _, _. split; [vm_compute; reflexivity|].
  eapply (@parseThenWriteBuffer_negative_length (line "Content-Length: -5")
            (bs "5") {| isConnectionClose := false; contentLength := 42 |}
            (MakeFixedSizeByteBuffer 64));
    [reflexivity | vm_compute; reflexivity | vm_compute; reflexivity].
Defined.

End LengthValues.

(** ** Values of [Content-Length] that are lengths *)

Section LengthDecimal.

Import header bytebufferpool.

(** X30: a [Content-Length] line whose value is digits between ASCII
    spaces (the CR LF of the line among them), the number below [2^63].
    When the number is positive it is stored, and [ContentLength()] returns
    it; when it is [0] nothing is stored and the header stays as it is,
    with the length it had before. *)
Theorem parseThenWriteBuffer_length_decimal (sp1 ds sp2 : byteslice)
    h bf l' h' bf' e :
  forallb asciiSpace sp1 = true -> forallb asciiSpace sp2 = true ->
  (0 < length ds)%nat -> forallb isDigit ds = true -> decimalValue ds < 2 ^ 63 ->
  parseThenWriteBuffer (contentLengthHeader ++ ":"%byte :: sp1 ++ ds ++ sp2) h bf
  = (l', h', bf', e) ->
  (0 < decimalValue ds ->
   contentLength h' = decimalValue ds /\ ContentLength h' = decimalValue ds
   /\ isConnectionClose h' = isConnectionClose h)
  /\ (decimalValue ds = 0 -> h' = h).
Proof.
  intros H1 H2 Hlen Hd Hv Hp.
  set (l := contentLengthHeader ++ ":"%byte :: sp1 ++ ds ++ sp2) in *.
  assert (Hne : ds <> []) by (apply nonempty_length; exact Hlen).
  assert (Hcl : isContentLengthHeader l = true) by apply HasPrefix_app.
  pose proof (contentLength_not_connection _ Hcl) as Hnc.
  assert (Hv2 : declaredLength l = decimalValue ds).
  { apply declaredLength_decimal; try assumption.
    - discriminate.
    - vm_compute. intuition discriminate. }
  assert (Hclose : isConnectionClose h' = isConnectionClose h).
  { rewrite (line_header _ _ _ Hp), headerAfter_close.
    unfold saysClose. rewrite Hnc. apply orb_false_r. }
  split.
  - intros Hpos.
    assert (Hc : contentLength h' = decimalValue ds).
    { rewrite (line_header _ _ _ Hp), headerAfter_length; [exact Hv2|].
      unfold setsLength. rewrite Hcl, Hv2. simpl. apply Z.gtb_lt. lia. }
    split; [exact Hc|]. split; [|exact Hclose].
    unfold ContentLength. rewrite Hc.
    destruct (Z.gtb_spec (decimalValue ds) 0); [reflexivity | lia].
  - intros Hz. apply Header_ext; [exact Hclose|].
    rewrite (line_header _ _ _ Hp). apply headerAfter_keeps.
    + unfold setsLength. rewrite Hcl, Hv2, Hz. reflexivity.
    + unfold setsIdentity.
      destruct (isTransferEncodingHeader l) eqn:E; [|reflexivity].
      destruct (transferEncoding_not_others _ E). congruence.
    + unfold setsChunked.
      destruct (isTransferEncodingHeader l) eqn:E; [|reflexivity].
      destruct (transferEncoding_not_others _ E). congruence.
Qed.

Lemma parseThenWriteBuffer_length_decimal_witness :
  exists l' h' bf' e,
    parseThenWriteBuffer (line "Content-Length: 0")
      {| isConnectionClose := false; contentLength := 42 |}
      (MakeFixedSizeByteBuffer 64)
    = (l', h', bf', e)
    /\ (0 < decimalValue (bs "0") ->
        contentLength h' = decimalValue (bs "0")
        /\ ContentLength h' = decimalValue (bs "0")
        /\ isConnectionClose h' = false)
    /\ (decimalValue (bs "0") = 0 ->
        h' = {| isConnectionClose := false; contentLength := 42 |}).
Proof.
  eexists _, _, _, _. split; [vm_compute; reflexivity|].
  eapply (@parseThenWriteBuffer_length_decimal (bs " ") (bs "0") crlf
            {| isConnectionClose := false; contentLength := 42 |}
            (MakeFixedSizeByteBuffer 64));
    [reflexivity | reflexivity | vm_compute; lia | reflexivity
    | vm_compute; reflexivity | vm_compute; reflexivity].
Defined.

End LengthDecimal.

(** ** What [ParseHeaderFields] returns, and when it does not *)

Section Returns.

Import header bytebufferpool bufio.

(** X8: on a reader whose window is within its buffer [ParseHeaderFields]
    never panics: neither of the two [panic] calls of [tryRead] is reached,
    after any number of rounds. *)
Theorem ParseHeaderFields_never_panics fuel h (r : Reader) bf :
  inBuffer r -> ParseHeaderFields fuel h r bf <> Some Panic.
Proof.
  intros Hr H.
  destruct (ParseHeaderFields_frame _ _ _ Hr H) as (h' & r' & bf' & e & Heq & _).
  discriminate.
Qed.

Lemma ParseHeaderFields_never_panics_witness :
  ParseHeaderFields 3 freshHeader (newReader 16 longLine)
    (MakeFixedSizeByteBuffer 128) <> Some Panic.
Proof.
  apply ParseHeaderFields_never_panics. unfold inBuffer. simpl. lia.
Defined.

(** X9: "treat all errors on the first byte read as EOF".  When the first
    read of the connection fails without a byte, whatever its error,
    [ParseHeaderFields] returns the end-of-file error, wrapped, and not the
    error of the connection, which the reader no longer holds; the header
    is untouched and the buffer reset. *)
Theorem ParseHeaderFields_first_read_error fuel h sz (e : error)
    (src : Source) bf :
  (0 < sz)%nat ->
  ParseHeaderFields (S fuel) h (newReader sz (([], Some e) :: src)) bf
  = Some (Return (h, newReader sz src, bytebufferpool.Reset bf,
                  Some (Errorf headersFormat io_EOF))).
Proof.
  intros Hsz. unfold ParseHeaderFields. rewrite parseLoop_unfold.
  set (r := newReader sz (([], Some e) :: src)).
  assert (Hp : Peek r 1 = (newReader sz src, [], Some e)).
  { unfold Peek. simpl (1 <? 0).
    assert (Hf : peekFill (S (size r)) r 1
                 = {| rd := src; size := sz; buffered := []; err := Some e |}).
    { rewrite peekFill_step.
      assert (E2 : (Buffered r <? Z.of_nat (size r)) = true)
        by (apply Z.ltb_lt; unfold Buffered, len; simpl; lia).
      rewrite E2. change (Buffered r <? 1) with true. simpl err.
      cbv beta iota delta [andb].
      unfold fill, maxConsecutiveEmptyReads.
      rewrite (@fillTries_error _ r e src eq_refl).
      apply peekFill_pending with (e := e). reflexivity. }
    rewrite Hf. simpl size.
    destruct (1 >? Z.of_nat sz) eqn:E3; [apply Z.gtb_lt in E3; lia|].
    reflexivity. }
  unfold tryRead. rewrite Hp. reflexivity.
Qed.

Lemma ParseHeaderFields_first_read_error_witness :
  ParseHeaderFields 1 freshHeader
    (newReader 4096 [([], Some (conn_error 104))]) (usedBuffer "old" 64)
  = Some (Return (freshHeader, newReader 4096 [], MakeFixedSizeByteBuffer 64,
                  Some (Errorf headersFormat io_EOF))).
Proof.
  apply (@ParseHeaderFields_first_read_error 0 freshHeader 4096
           (conn_error 104) [] (usedBuffer "old" 64)).
  lia.
Defined.

(** X10: the connection sends bytes without a line feed, fewer than the
    buffer of the reader holds, and is closed.  Every round ends in
    [errNeedMore], the end-of-file error of [Peek] is not looked at, and
    [ParseHeaderFields] is still in its loop after any number of rounds: it
    does not return. *)
Theorem ParseHeaderFields_no_line_feed_never_returns fuel h sz
    (d : byteslice) bf :
  (0 < length d)%nat -> bytes.IndexByte d LF < 0 -> (length d < sz)%nat ->
  ParseHeaderFields fuel h (newReader sz [(d, None)]) bf = None.
Proof.
  intros Hd Hlf Hsz. destruct fuel as [|fuel]; [reflexivity|].
  pose proof (nonempty_length Hd) as Hne.
  unfold ParseHeaderFields. rewrite parseLoop_unfold.
  change (tryRead h (newReader sz [(d, None)]) bf 1)
    with (tryRead h (newReader sz [(d, None)]) bf
            (Buffered (newReader sz [(d, None)]) + 1)).
  rewrite (@tryRead_chunk h (newReader sz [(d, None)]) bf d [] eq_refl eq_refl Hne)
    by (simpl; lia).
  simpl buffered. simpl size.
  rewrite tryRead_window; [|simpl; exact Hne | unfold inBuffer; simpl; lia].
  simpl buffered.
  pose proof (@readHeaders_incomplete [] d h bf (Forall_nil _) eq_refl Hlf) as Hr.
  simpl in Hr. rewrite Hr by lia.
  simpl error_eqb. simpl negb. cbv iota.
  apply parseLoop_stalled.
  - reflexivity.
  - exact Hne.
  - exact Hlf.
  - left. split; [reflexivity | simpl; lia].
Qed.

Lemma ParseHeaderFields_no_line_feed_never_returns_witness :
  ParseHeaderFields 1000 freshHeader (newReader 4096 truncatedRequest)
    (MakeFixedSizeByteBuffer 128) = None.
Proof.
  apply (@ParseHeaderFields_no_line_feed_never_returns 1000 freshHeader 4096
           (bs "Host: example.test") (MakeFixedSizeByteBuffer 128)).
  - vm_compute. lia.
  - vm_compute. reflexivity.
  - vm_compute. lia.
Defined.

(** X11: a read brings more bytes than the buffer of the reader holds, and
    the bytes that fill the buffer have no line feed: a header line longer
    than the buffer.  The window can grow no more, every round ends in
    [errNeedMore], the buffer-full error of [Peek] is not looked at, and
    [ParseHeaderFields] does not return. *)
Theorem ParseHeaderFields_line_over_buffer_never_returns fuel h sz
    (d : byteslice) (e : option error) (src : Source) bf :
  (0 < sz)%nat -> (sz < length d)%nat ->
  bytes.IndexByte (firstn sz d) LF < 0 ->
  ParseHeaderFields fuel h (newReader sz ((d, e) :: src)) bf = None.
Proof.
  intros Hsz Hd Hlf. destruct fuel as [|fuel]; [reflexivity|].
  unfold ParseHeaderFields. rewrite parseLoop_unfold.
  set (r := newReader sz ((d, e) :: src)).
  set (r1 := {| rd := (skipn sz d, e) :: src; size := sz;
                buffered := firstn sz d; err := None |}).
  assert (Hlen : length (firstn sz d) = sz) by (rewrite length_firstn; lia).
  assert (Hne : buffered r1 <> []).
  { simpl. intros E. rewrite E in Hlen. simpl in Hlen. lia. }
  assert (Hin : inBuffer r1) by (unfold inBuffer; simpl; lia).
  assert (Hp : Peek r 1 = (r1, slice_to (buffered r1) 1, None)).
  { unfold Peek. simpl (1 <? 0).
    assert (Hf : peekFill (S (size r)) r 1 = r1).
    { rewrite peekFill_step.
      assert (E2 : (Buffered r <? Z.of_nat (size r)) = true)
        by (apply Z.ltb_lt; unfold Buffered, len; simpl; lia).
      rewrite E2. change (Buffered r <? 1) with true. simpl err.
      cbv beta iota delta [andb].
      unfold fill, maxConsecutiveEmptyReads.
      rewrite (@fillTries_over _ r d e src eq_refl) by (simpl; lia).
      simpl. rewrite Nat.sub_0_r. fold r1.
      apply peekFill_full. unfold Buffered, len. simpl. lia. }
    rewrite Hf. simpl size.
    destruct (1 >? Z.of_nat sz) eqn:E3; [apply Z.gtb_lt in E3; lia|].
    destruct (Buffered r1 <? 1) eqn:E4.
    { apply Z.ltb_lt in E4. unfold Buffered, len in E4. simpl in E4. lia. }
    reflexivity. }
  assert (Ht : tryRead h r bf 1 = tryRead h r1 bf 1).
  { rewrite (tryRead_window h bf Hne Hin).
    unfold tryRead. rewrite Hp.
    assert (Hl1 : (len (slice_to (buffered r1) 1) =? 0) = false).
    { destruct (buffered r1); [congruence | reflexivity]. }
    rewrite Hl1, (Peek_window _ Hin).
    assert (Hl2 : (len (buffered r1) =? 0) = false).
    { apply Z.eqb_neq. unfold len. destruct (buffered r1); [congruence | simpl; lia]. }
    rewrite Hl2. simpl orb. cbv iota.
    destruct (readHeaders (buffered r1) h bf) as [[[[[b1 h1] bf1] k] [x|]]|];
      try reflexivity.
    destruct (error_eqb x errNeedMore); reflexivity. }
  rewrite Ht, (tryRead_window h bf Hne Hin).
  pose proof (@readHeaders_incomplete [] (firstn sz d) h bf (Forall_nil _)
                eq_refl Hlf) as Hr.
  simpl in Hr. simpl buffered. rewrite Hr by lia.
  simpl error_eqb. simpl negb. cbv iota.
  apply parseLoop_stalled.
  - reflexivity.
  - exact Hne.
  - exact Hlf.
  - right. simpl. exact Hlen.
Qed.

Lemma ParseHeaderFields_line_over_buffer_never_returns_witness :
  ParseHeaderFields 1000 freshHeader (newReader 16 longLine)
    (MakeFixedSizeByteBuffer 128) = None.
Proof.
  apply (@ParseHeaderFields_line_over_buffer_never_returns 1000 freshHeader 16
           (line "Cookie: 0123456789abcdef0123456789abcdef" ++ crlf) None []
           (MakeFixedSizeByteBuffer 128)).
  - lia.
  - vm_compute. lia.
  - vm_compute. reflexivity.
Defined.

End Returns.

(** ** Two reads against one *)

Section TwoReads.

Import header bytebufferpool bufio.

Lemma linesAfter_plain (ls : list byteslice) :
  forallb (fun l => negb (isConnectionHeader l)) ls = true ->
  map lineAfter ls = ls.
Proof.
  induction ls as [|l ls IH]; simpl; intros H; [reflexivity|].
  apply andb_true_iff in H. destruct H as [H1 H].
  apply negb_true_iff in H1. unfold lineAfter at 1. rewrite H1, IH by exact H.
  reflexivity.
Qed.

(** X12: a header block that comes in two reads, the first of which ends
    before the empty line and holds no whole [Connection] line, is parsed
    as when it comes in one read: after a first round that ends in
    [errNeedMore], the second round gives nil, the header after the lines
    of the block, the kept lines in the buffer, and the reader past the
    block.  ([ls1] are the lines whole in the first read, [part] the
    beginning of a line after them, [ls2] the other lines of the block.) *)
Theorem ParseHeaderFields_two_reads fuel h sz (c1 c2 : byteslice)
    (src : Source) bf (ls1 ls2 : list byteslice) (part rest : byteslice) :
  c1 = concat ls1 ++ part -> (0 < length c1)%nat -> (0 < length c2)%nat ->
  forallb isLineb ls1 = true ->
  forallb (fun l => negb (endsBlock l)) ls1 = true ->
  forallb (fun l => negb (isConnectionHeader l)) ls1 = true ->
  bytes.IndexByte part LF < 0 ->
  part ++ c2 = concat ls2 ++ rest ->
  forallb isLineb ls2 = true -> isBlock ls2 = true ->
  (1 < length ls1 + length ls2)%nat ->
  (length c1 + length c2 <= sz)%nat ->
  (length (concat (filter kept (ls1 ++ ls2))) <= capacity bf)%nat ->
  ParseHeaderFields (S (S fuel)) h
    (newReader sz ((c1, None) :: (c2, None) :: src)) bf
  = ParseHeaderFields (S fuel) h (newReader sz ((c1 ++ c2, None) :: src)) bf
  /\ ParseHeaderFields (S fuel) h (newReader sz ((c1 ++ c2, None) :: src)) bf
     = Some (Return (headersAfter (ls1 ++ ls2) h,
                     {| rd := src; size := sz; buffered := rest; err := None |},
                     {| B := concat (filter kept (ls1 ++ ls2));
                        capacity := capacity bf |},
                     None)).
Proof.
  intros Hc1 Hn1 Hn2 Hl1 Hopen Hplain Hlf Hc2 Hl2 Hblk Hlen Hsz Hcap.
  pose proof (nonempty_length Hn1) as Hne1.
  pose proof (nonempty_length Hn2) as Hne2.
  pose proof (forallb_IsLine _ Hl1) as Hall1.
  pose proof (forallb_IsLine _ Hl2) as Hall2.
  assert (Hone : ParseHeaderFields (S fuel) h
                   (newReader sz ((c1 ++ c2, None) :: src)) bf
                 = Some (Return (headersAfter (ls1 ++ ls2) h,
                                 {| rd := src; size := sz; buffered := rest;
                                    err := None |},
                                 {| B := concat (filter kept (ls1 ++ ls2));
                                    capacity := capacity bf |},
                                 None))).
  { unfold ParseHeaderFields. rewrite parseLoop_unfold.
    change (tryRead h (newReader sz ((c1 ++ c2, None) :: src)) bf 1)
      with (tryRead h (newReader sz ((c1 ++ c2, None) :: src)) bf
              (Buffered (newReader sz ((c1 ++ c2, None) :: src)) + 1)).
    rewrite (@tryRead_chunk h (newReader sz ((c1 ++ c2, None) :: src)) bf
               (c1 ++ c2) src eq_refl eq_refl).
    - simpl buffered. simpl size.
      change ([] ++ c1 ++ c2) with (c1 ++ c2).
      rewrite (@tryRead_run h
                 {| rd := src; size := sz; buffered := c1 ++ c2; err := None |}
                 bf (ls1 ++ ls2) rest).
      + reflexivity.
      + simpl. rewrite Hc1, concat_app, <- !app_assoc, Hc2. reflexivity.
      + unfold inBuffer. simpl. rewrite length_app. lia.
      + apply Forall_app. split; assumption.
      + rewrite isBlock_app; assumption.
      + rewrite length_app. exact Hlen.
      + exact Hcap.
    - destruct c1; [congruence | discriminate].
    - simpl. rewrite length_app. lia. }
  split; [|exact Hone]. rewrite Hone.
  rewrite <- (linesAfter_plain _ Hplain) at 2.
  rewrite (@parse_two_reads fuel h sz c1 c2 src bf ls1 ls2 part rest);
    try assumption.
  - rewrite (linesAfter_plain _ Hplain). reflexivity.
  - rewrite (linesAfter_plain _ Hplain). exact Hcap.
Qed.

Lemma ParseHeaderFields_two_reads_witness :
  ParseHeaderFields 2 freshHeader
    (newReader 4096 [(line "Host: example.test" ++ bs "Content-Le", None);
                     (bs "ngth: 2" ++ crlf ++ crlf ++ bs "hi", None)])
    (MakeFixedSizeByteBuffer 128)
  = ParseHeaderFields 1 freshHeader
      (newReader 4096 [((line "Host: example.test" ++ bs "Content-Le")
                        ++ (bs "ngth: 2" ++ crlf ++ crlf ++ bs "hi"), None)])
      (MakeFixedSizeByteBuffer 128)
  /\ ParseHeaderFields 1 freshHeader
       (newReader 4096 [((line "Host: example.test" ++ bs "Content-Le")
                         ++ (bs "ngth: 2" ++ crlf ++ crlf ++ bs "hi"), None)])
       (MakeFixedSizeByteBuffer 128)
     = Some (Return ({| isConnectionClose := false; contentLength := 2 |},
                     {| rd := []; size := 4096; buffered := bs "hi"; err := None |},
                     {| B := line "Host: example.test" ++ line "Content-Length: 2"
                             ++ crlf;
                        capacity := 128 |},
                     None)).
Proof.
  apply (@ParseHeaderFields_two_reads 0 freshHeader 4096
           (line "Host: example.test" ++ bs "Content-Le")
           (bs "ngth: 2" ++ crlf ++ crlf ++ bs "hi") []
           (MakeFixedSizeByteBuffer 128)
           [line "Host: example.test"] [line "Content-Length: 2"; crlf]
           (bs "Content-Le") (bs "hi"));
    try reflexivity; vm_compute; lia.
Defined.

(** X13: when the first of the two reads holds a whole [Connection] line,
    that line is not stripped.  The first round puts it in small letters in
    the window of the reader and ends in [errNeedMore]; the second round
    goes over the window again, finds a line that no longer begins with
    [Connection] and writes it: [ParseHeaderFields] returns nil and the
    buffer has the line, in small letters, among its lines. *)
Theorem ParseHeaderFields_split_connection_line fuel h sz (c1 c2 : byteslice)
    (src : Source) bf (ls1 ls2 : list byteslice) (part rest l : byteslice) :
  c1 = concat ls1 ++ part -> (0 < length c2)%nat ->
  forallb isLineb ls1 = true ->
  forallb (fun l => negb (endsBlock l)) ls1 = true ->
  In l ls1 -> isConnectionHeader l = true ->
  bytes.IndexByte part LF < 0 ->
  part ++ c2 = concat ls2 ++ rest ->
  forallb isLineb ls2 = true -> isBlock ls2 = true ->
  (length c1 + length c2 <= sz)%nat ->
  (length (concat (filter kept (map lineAfter ls1 ++ ls2))) <= capacity bf)%nat ->
  exists h' r' bf',
    ParseHeaderFields (S (S fuel)) h
      (newReader sz ((c1, None) :: (c2, None) :: src)) bf
    = Some (Return (h', r', bf', None))
    /\ In (changeToLowerCase l) (splitLines (B bf'))
    /\ bytes.HasPrefix (changeToLowerCase l) (bs "connection") = true.
Proof.
  intros Hc1 Hn2 Hl1 Hopen Hin Hconn Hlf Hc2 Hl2 Hblk Hsz Hcap.
  pose proof (nonempty_length Hn2) as Hne2.
  pose proof (forallb_IsLine _ Hl1) as Hall1.
  pose proof (forallb_IsLine _ Hl2) as Hall2.
  assert (Hne1 : c1 <> []).
  { rewrite Hc1. destruct ls1 as [|x ls1]; [contradiction|].
    inversion Hall1; subst. destruct x; [|discriminate].
    pose proof (IsLine_len H1) as Hx. unfold len in Hx. simpl in Hx. lia. }
  assert (Hlen : (1 < length ls1 + length ls2)%nat).
  { destruct ls1; [contradiction|]. destruct ls2; [discriminate|]. simpl. lia. }
  eexists _, _, _. split.
  - apply (@parse_two_reads fuel h sz c1 c2 src bf ls1 ls2 part rest);
      assumption.
  - simpl B. split.
    + rewrite splitLines_concat.
      * apply filter_In. split.
        -- apply in_or_app. left. apply in_map_iff. exists l.
           split; [|exact Hin]. unfold lineAfter. rewrite Hconn. reflexivity.
        -- apply (lowered_plain _ Hconn).
      * apply Forall_forall. intros x Hx. apply filter_In in Hx.
        destruct Hx as [Hx _]. apply in_app_or in Hx. destruct Hx as [Hx | Hx].
        -- apply in_map_iff in Hx. destruct Hx as (y & <- & Hy).
           apply IsLine_lineAfter. rewrite Forall_forall in Hall1.
           apply Hall1, Hy.
        -- rewrite Forall_forall in Hall2. apply Hall2, Hx.
    + destruct (HasPrefix_inv _ _ Hconn) as [t ->]. reflexivity.
Qed.

Lemma ParseHeaderFields_split_connection_line_witness :
  exists h' r' bf',
    ParseHeaderFields 2 freshHeader
      (newReader 4096 [(line "Connection: close", None);
                       (line "Host: example.test" ++ crlf, None)])
      (MakeFixedSizeByteBuffer 128)
    = Some (Return (h', r', bf', None))
    /\ In (changeToLowerCase (line "Connection: close")) (splitLines (B bf'))
    /\ bytes.HasPrefix (changeToLowerCase (line "Connection: close"))
         (bs "connection") = true.
Proof.
  apply (@ParseHeaderFields_split_connection_line 0 freshHeader 4096
           (line "Connection: close") (line "Host: example.test" ++ crlf) []
           (MakeFixedSizeByteBuffer 128)
           [line "Connection: close"] [line "Host: example.test"; crlf]
           [] [] (line "Connection: close"));
    try reflexivity; try (vm_compute; lia).
  left. reflexivity.
Defined.

End TwoReads.

(** ** Names in small letters *)

Section SmallLetters.

Import header bytebufferpool.

(** X29: names are told by their capitals.  A line that begins with one of
    the names the scanner knows written in small letters ([connection],
    [content-length], [transfer-encoding], [accept-encoding],
    [proxy-...]) is a line like any other: it is not put in small letters,
    it leaves the header as it is, whatever its value, and it is written to
    the buffer when it fits. *)
Theorem parseThenWriteBuffer_small_names (name t : byteslice) h bf l' h' bf' e :
  In name smallNames ->
  parseThenWriteBuffer (name ++ t) h bf = (l', h', bf', e) ->
  l' = name ++ t /\ h' = h
  /\ (e = None -> B bf' = B bf ++ name ++ t)
  /\ (e <> None -> e = Some io_ErrShortBuffer).
Proof.
  intros Hin Hp.
  assert (Hk : kept (name ++ t) = true
               /\ isConnectionHeader (name ++ t) = false
               /\ isContentLengthHeader (name ++ t) = false
               /\ isTransferEncodingHeader (name ++ t) = false).
  { unfold smallNames in Hin. simpl in Hin.
    repeat (destruct Hin as [<- | Hin]; [repeat split; reflexivity|]).
    contradiction. }
  destruct Hk as (Hk & Hc & Hcl & Hte).
  destruct (line_result (name ++ t) h bf) as (bf1 & e1 & Hp1 & _ & Hres).
  rewrite Hp in Hp1. inversion Hp1; subst. clear Hp1.
  split; [unfold lineAfter; rewrite Hc; reflexivity|]. split.
  - apply Header_ext.
    + rewrite headerAfter_close. unfold saysClose. rewrite Hc. apply orb_false_r.
    + apply headerAfter_keeps; unfold setsLength, setsIdentity, setsChunked;
        rewrite ?Hcl, ?Hte; reflexivity.
  - destruct Hres as [(-> & HB & _) | (-> & _)].
    + split; [|congruence]. intros _. rewrite HB, Hk. reflexivity.
    + split; [discriminate | reflexivity].
Qed.

Lemma parseThenWriteBuffer_small_names_witness :
  exists l' h' bf' e,
    parseThenWriteBuffer (bs "content-length" ++ bs ": 5" ++ crlf) freshHeader
      (MakeFixedSizeByteBuffer 64)
    = (l', h', bf', e)
    /\ l' = bs "content-length" ++ bs ": 5" ++ crlf /\ h' = freshHeader
    /\ (e = None -> B bf' = B (MakeFixedSizeByteBuffer 64)
                            ++ bs "content-length" ++ bs ": 5" ++ crlf)
    /\ (e <> None -> e = Some io_ErrShortBuffer).
Proof.
  eexists _, _, _, _. split; [vm_compute; reflexivity|].
  eapply (@parseThenWriteBuffer_small_names (bs "content-length")
            (bs ": 5" ++ crlf) freshHeader (MakeFixedSizeByteBuffer 64));
    [simpl; tauto | vm_compute; reflexivity].
Defined.

End SmallLetters.

(** ** The handler: tokens of the upstream proxy *)

Section Tokens.

Import proxy.

(** X14: tokens of the upstream proxy.  [tunnelConnect] and [do] take a
    token at most once and, when they took one, push it back once, after
    it and on every path, with an error as without; they push back none
    they did not take.  When an upstream proxy is routed, every call that
    goes through it ([MakeTunnel], [client.Do]) is made while the token is
    held. *)
Theorem upstream_tokens_balanced env usage hostWithPort req :
  (tokenCalls (fst (tunnelConnect env usage hostWithPort)) = []
   \/ exists p, tokenCalls (fst (tunnelConnect env usage hostWithPort))
                = [(true, p); (false, p)])
  /\ (tokenCalls (fst (do env req)) = []
      \/ exists p, tokenCalls (fst (do env req)) = [(true, p); (false, p)])
  /\ (urlProxy env (ParseHostWithPort env hostWithPort) <> None ->
      filter upstream (inLine (fst (tunnelConnect env usage hostWithPort)))
      = filter upstream
          (heldCalls false (inLine (fst (tunnelConnect env usage hostWithPort)))))
  /\ (urlProxy env (reqHostInfo req) <> None ->
      filter upstream (inLine (fst (do env req)))
      = filter upstream (heldCalls false (inLine (fst (do env req))))).
Proof.
  split; [|split; [|split]].
  - unfold tunnelConnect.
    destruct (String.length _ =? 0)%nat; [left; reflexivity|].
    destruct (urlProxy env (ParseHostWithPort env hostWithPort)) as [p|].
    + right. exists p.
      destruct (SplitHostPort env _) as [[host port] e0].
      destruct ((0 <? String.length host)%nat && negb (ParseIP env host));
        [destruct (lookupIP env host)|];
        (destruct (makeTunnel env);
         [destruct usage; reflexivity
         | unfold sendHTTPSProxyStatusOK;
           destruct (writeClient env httpTunnelMadeOkBytes);
           [destruct usage; reflexivity
           | destruct (forwardToOrigin env) as [a [ea|]];
             destruct (forwardToClient env) as [b [eb|]];
             destruct usage; reflexivity]]).
    + left.
      destruct (dial env);
        [destruct usage; reflexivity
        | unfold sendHTTPSProxyStatusOK;
          destruct (writeClient env httpTunnelMadeOkBytes);
          [destruct usage; reflexivity
          | destruct (forwardToOrigin env) as [a [ea|]];
            destruct (forwardToClient env) as [b [eb|]];
            destruct usage; reflexivity]].
  - unfold do.
    destruct (responseWriteTo env); [left; reflexivity|].
    destruct (hijackResponse env).
    { destruct (hijackClientDo env) as [[[a b] c] e]. left. reflexivity. }
    destruct (String.length _ =? 0)%nat; [left; reflexivity|].
    destruct (clientDo env) as [[[a b] c] e].
    destruct (urlProxy env (reqHostInfo req)) as [p|].
    + right. exists p.
      destruct (0 <? String.length (Domain (reqHostInfo req)))%nat; reflexivity.
    + left. reflexivity.
  - intros Hp. unfold tunnelConnect.
    destruct (String.length _ =? 0)%nat; [reflexivity|].
    destruct (urlProxy env (ParseHostWithPort env hostWithPort)) as [p|];
      [|congruence].
    destruct (SplitHostPort env _) as [[host port] e0].
    destruct ((0 <? String.length host)%nat && negb (ParseIP env host));
      [destruct (lookupIP env host)|];
      (destruct (makeTunnel env);
       [destruct usage; reflexivity
       | unfold sendHTTPSProxyStatusOK;
         destruct (writeClient env httpTunnelMadeOkBytes);
         [destruct usage; reflexivity
         | destruct (forwardToOrigin env) as [a [ea|]];
           destruct (forwardToClient env) as [b [eb|]];
           destruct usage; reflexivity]]).
  - intros Hp. unfold do.
    destruct (responseWriteTo env); [reflexivity|].
    destruct (hijackResponse env).
    { destruct (hijackClientDo env) as [[[a b] c] e]. reflexivity. }
    destruct (String.length _ =? 0)%nat; [reflexivity|].
    destruct (clientDo env) as [[[a b] c] e].
    destruct (urlProxy env (reqHostInfo req)) as [p|]; [|congruence].
    destruct (0 <? String.length (Domain (reqHostInfo req)))%nat; reflexivity.
Qed.

Lemma upstream_tokens_balanced_witness :
  (tokenCalls (fst (tunnelConnect (routed (plainEnv parseOk)) true
                      "example.test:443")) = []
   \/ exists p, tokenCalls (fst (tunnelConnect (routed (plainEnv parseOk)) true
                                   "example.test:443"))
                = [(true, p); (false, p)])
  /\ (tokenCalls (fst (do (routed (plainEnv parseOk)) hostRequest)) = []
      \/ exists p, tokenCalls (fst (do (routed (plainEnv parseOk)) hostRequest))
                   = [(true, p); (false, p)])
  /\ filter upstream
       (inLine (fst (tunnelConnect (routed (plainEnv parseOk)) true
                       "example.test:443")))
     = filter upstream
         (heldCalls false
            (inLine (fst (tunnelConnect (routed (plainEnv parseOk)) true
                            "example.test:443"))))
  /\ filter upstream (inLine (fst (do (routed (plainEnv parseOk)) hostRequest)))
     = filter upstream
         (heldCalls false (inLine (fst (do (routed (plainEnv parseOk)) hostRequest)))).
Proof.
  destruct (@upstream_tokens_balanced (routed (plainEnv parseOk)) true
              "example.test:443" hostRequest) as (H1 & H2 & H3 & H4).
  split; [exact H1|]. split; [exact H2|]. split.
  - apply H3. simpl. discriminate.
  - apply H4. simpl. discriminate.
Defined.

End Tokens.

(** ** The handler: [do] *)

Section Do.

Import proxy.

(** X15: what [do] defers runs on every path, in the reverse order of the
    [defer] statements: whatever the response, the hijacker, the route and
    the client answer, the trace of [do] begins with the writer and the
    response being acquired and ends with the response released, the
    writer flushed and the writer released; a hijacker is put back exactly
    when one was got, once, as the last call before those. *)
Theorem do_releases env req :
  firstn 3 (fst (do env req))
  = [Do AcquireWriter; Do AcquireResponse; Do ResponseWriteTo]
  /\ lastEvents 3 (fst (do env req))
     = [Do ReleaseResponse; Do Flush; Do ReleaseWriter]
  /\ (filter hijackerCall (inLine (fst (do env req))) = []
      \/ (filter hijackerCall (inLine (fst (do env req)))
          = [GetHijacker; PutHijacker]
          /\ lastEvents 4 (fst (do env req))
             = [Do PutHijacker; Do ReleaseResponse; Do Flush; Do ReleaseWriter])).
Proof.
  unfold do.
  destruct (responseWriteTo env).
  { repeat split. left. reflexivity. }
  destruct (hijackResponse env).
  { destruct (hijackClientDo env) as [[[a b] c] e].
    repeat split. right. split; reflexivity. }
  destruct (String.length _ =? 0)%nat.
  { repeat split. right. split; reflexivity. }
  destruct (clientDo env) as [[[a b] c] e].
  destruct (urlProxy env (reqHostInfo req)) as [p|].
  - destruct (0 <? String.length (Domain (reqHostInfo req)))%nat;
      (repeat split; right; split; reflexivity).
  - repeat split. right. split; reflexivity.
Qed.

(** X16: a request the hijacker answers never reaches the routing: when
    the response was set up and [HijackResponse()] is not nil, [do] returns
    the error of [hijackClient.Do], nil or not, having asked for no route,
    looked up no address, taken no token and not called [client.Do]; the
    sizes [hijackClient.Do] returned go to the counters of the client. *)
Theorem do_hijacked env req :
  responseWriteTo env = None -> hijackResponse env = true ->
  snd (do env req) = snd (hijackClientDo env)
  /\ filter routes (inLine (fst (do env req))) = []
  /\ started (fst (do env req))
     = [[AddIncomingSize ClientUsage (uint64 (fst (fst (fst (hijackClientDo env)))));
         AddOutgoingSize ClientUsage (uint64 (snd (fst (hijackClientDo env))))]].
Proof.
  intros Hw Hh. unfold do. rewrite Hw, Hh.
  destruct (hijackClientDo env) as [[[a b] c] e]. repeat split.
Qed.

Lemma do_hijacked_witness :
  snd (do (hijacks (plainEnv parseOk)) hostRequest)
  = snd (hijackClientDo (hijacks (plainEnv parseOk)))
  /\ filter routes (inLine (fst (do (hijacks (plainEnv parseOk)) hostRequest))) = []
  /\ started (fst (do (hijacks (plainEnv parseOk)) hostRequest))
     = [[AddIncomingSize ClientUsage
           (uint64 (fst (fst (fst (hijackClientDo (hijacks (plainEnv parseOk)))))));
         AddOutgoingSize ClientUsage
           (uint64 (snd (fst (hijackClientDo (hijacks (plainEnv parseOk))))))]].
Proof.
  apply (@do_hijacked (hijacks (plainEnv parseOk)) hostRequest); reflexivity.
Defined.

(** X17: the sizes of a proxied request.  When the request goes to
    [client.Do], [do] returns the error of that call as it is, and starts
    one goroutine that adds the request bytes read to the incoming counter
    of the client and the response bytes to its outgoing counter and, when
    an upstream proxy is routed, the response bytes to the incoming counter
    of the upstream proxy and the request bytes written to its outgoing
    counter.  This is so when [client.Do] fails, too; the counters of
    the [usage] argument are not touched. *)
Theorem do_usage env req :
  responseWriteTo env = None -> hijackResponse env = false ->
  HostWithPort (reqHostInfo req) <> ""%string ->
  snd (do env req) = snd (clientDo env)
  /\ started (fst (do env req))
     = [[AddIncomingSize ClientUsage (uint64 (fst (fst (fst (clientDo env)))));
         AddOutgoingSize ClientUsage (uint64 (snd (fst (clientDo env))))]
        ++ match urlProxy env (reqHostInfo req) with
           | Some p =>
               [AddIncomingSize (SuperProxyUsage p) (uint64 (snd (fst (clientDo env))));
                AddOutgoingSize (SuperProxyUsage p)
                  (uint64 (snd (fst (fst (clientDo env)))))]
           | None => []
           end]
  /\ filter proxyUsageOf (inLine (fst (do env req)) ++ concat (started (fst (do env req))))
     = [].
Proof.
  intros Hw Hh Hhost. unfold do. rewrite Hw, Hh.
  destruct (String.length _ =? 0)%nat eqn:E.
  { apply length_zero_empty in E. contradiction. }
  destruct (clientDo env) as [[[a b] c] e].
  destruct (urlProxy env (reqHostInfo req)) as [p|].
  - destruct (0 <? String.length (Domain (reqHostInfo req)))%nat; repeat split.
  - repeat split.
Qed.

Lemma do_usage_witness :
  snd (do (routed (plainEnv parseOk)) hostRequest) = Some (conn_error 110)
  /\ started (fst (do (routed (plainEnv parseOk)) hostRequest))
     = [[AddIncomingSize ClientUsage 40; AddOutgoingSize ClientUsage 500;
         AddIncomingSize (SuperProxyUsage upstreamProxy) 500;
         AddOutgoingSize (SuperProxyUsage upstreamProxy) 60]]
  /\ filter proxyUsageOf
       (inLine (fst (do (routed (plainEnv parseOk)) hostRequest))
        ++ concat (started (fst (do (routed (plainEnv parseOk)) hostRequest))))
     = [].
Proof.
  apply (@do_usage (routed (plainEnv parseOk)) hostRequest);
    [reflexivity | reflexivity | simpl; discriminate].
Defined.

End Do.

(** ** The handler: [tunnelConnect] *)

Section Tunnel.

Import proxy.

Lemma uint64_again (x : Z) : uint64 (uint64 x) = uint64 x.
Proof. unfold uint64. apply Z.mod_mod. lia. Qed.

(** X18: the sizes of a tunnel that was made.  After the [200] reply is
    written, whatever the two [transport.Forward] calls return, bytes and
    errors, one goroutine adds to [usage] (when it is not nil) the bytes
    forwarded to the origin as incoming and the [19] bytes of the reply
    plus the bytes forwarded to the client as outgoing, and to the upstream
    proxy (when one is routed) the bytes to the origin as outgoing and the
    bytes to the client as incoming; sums are those of [uint64]. *)
Theorem tunnelConnect_accounting env usage hostWithPort :
  HostWithPort (ParseHostWithPort env hostWithPort) <> ""%string ->
  openError env hostWithPort = None ->
  writeClient env httpTunnelMadeOkBytes = None ->
  started (fst (tunnelConnect env usage hostWithPort))
  = [[Forward true]; [Forward false];
     (if usage
      then [AddIncomingSize ProxyUsage (uint64 (fst (forwardToOrigin env)));
            AddOutgoingSize ProxyUsage
              (uint64 (19 + uint64 (fst (forwardToClient env))))]
      else [])
     ++ match urlProxy env (ParseHostWithPort env hostWithPort) with
        | Some p =>
            [AddOutgoingSize (SuperProxyUsage p) (uint64 (fst (forwardToOrigin env)));
             AddIncomingSize (SuperProxyUsage p) (uint64 (fst (forwardToClient env)))]
        | None => []
        end].
Proof.
  intros Hhost Hopen Hw. unfold openError in Hopen. unfold tunnelConnect.
  destruct (String.length _ =? 0)%nat eqn:E.
  { apply length_zero_empty in E. contradiction. }
  unfold sendHTTPSProxyStatusOK. rewrite Hw.
  destruct (urlProxy env (ParseHostWithPort env hostWithPort)) as [p|].
  - rewrite Hopen.
    destruct (SplitHostPort env _) as [[host port] e0].
    destruct (forwardToOrigin env) as [a ea]. destruct (forwardToClient env) as [b eb].
    simpl fst.
    destruct ((0 <? String.length host)%nat && negb (ParseIP env host));
      [destruct (lookupIP env host)|];
      destruct ea, eb, usage; cbn -[uint64]; rewrite ?uint64_again; reflexivity.
  - rewrite Hopen.
    destruct (forwardToOrigin env) as [a ea]. destruct (forwardToClient env) as [b eb].
    simpl fst.
    destruct ea, eb, usage; cbn -[uint64]; rewrite ?uint64_again; reflexivity.
Qed.

Lemma tunnelConnect_accounting_witness :
  started (fst (tunnelConnect (routed (plainEnv parseOk)) true "example.test:443"))
  = [[Forward true]; [Forward false];
     [AddIncomingSize ProxyUsage 120; AddOutgoingSize ProxyUsage 4019;
      AddOutgoingSize (SuperProxyUsage upstreamProxy) 120;
      AddIncomingSize (SuperProxyUsage upstreamProxy) 4000]].
Proof.
  apply (@tunnelConnect_accounting (routed (plainEnv parseOk)) true
           "example.test:443");
    [simpl; discriminate | reflexivity | reflexivity].
Defined.

(** X19: the [200] reply cannot be written.  The origin connection was
    opened and the write of the reply to the client fails: [tunnelConnect]
    returns that error, wrapped, forwards nothing, closes the origin
    connection, and the counters get no byte: the [19] bytes of the reply
    are counted only once written. *)
Theorem tunnelConnect_reply_fails env usage hostWithPort (e : error) :
  HostWithPort (ParseHostWithPort env hostWithPort) <> ""%string ->
  openError env hostWithPort = None ->
  writeClient env httpTunnelMadeOkBytes = Some e ->
  snd (tunnelConnect env usage hostWithPort)
  = Some (ErrWrapper e "error occurred when handshaking with client")
  /\ filter tunnels (fst (tunnelConnect env usage hostWithPort))
     = [Do CloseTunnelConn]
  /\ started (fst (tunnelConnect env usage hostWithPort))
     = [(if usage
         then [AddIncomingSize ProxyUsage 0; AddOutgoingSize ProxyUsage 0]
         else [])
        ++ match urlProxy env (ParseHostWithPort env hostWithPort) with
           | Some p => [AddOutgoingSize (SuperProxyUsage p) 0;
                        AddIncomingSize (SuperProxyUsage p) 0]
           | None => []
           end].
Proof.
  intros Hhost Hopen Hw. unfold openError in Hopen. unfold tunnelConnect.
  destruct (String.length _ =? 0)%nat eqn:E.
  { apply length_zero_empty in E. contradiction. }
  unfold sendHTTPSProxyStatusOK. rewrite Hw.
  destruct (urlProxy env (ParseHostWithPort env hostWithPort)) as [p|].
  - rewrite Hopen.
    destruct (SplitHostPort env _) as [[host port] e0].
    destruct ((0 <? String.length host)%nat && negb (ParseIP env host));
      [destruct (lookupIP env host)|];
      destruct usage; repeat split.
  - rewrite Hopen. destruct usage; repeat split.
Qed.

Lemma tunnelConnect_reply_fails_witness :
  snd (tunnelConnect (writeFails (plainEnv parseOk)) true "example.test:443")
  = Some (ErrWrapper (conn_error 32) "error occurred when handshaking with client")
  /\ filter tunnels
       (fst (tunnelConnect (writeFails (plainEnv parseOk)) true "example.test:443"))
     = [Do CloseTunnelConn]
  /\ started
       (fst (tunnelConnect (writeFails (plainEnv parseOk)) true "example.test:443"))
     = [[AddIncomingSize ProxyUsage 0; AddOutgoingSize ProxyUsage 0] ++ []].
Proof.
  apply (@tunnelConnect_reply_fails (writeFails (plainEnv parseOk)) true
           "example.test:443" (conn_error 32));
    [simpl; discriminate | reflexivity | reflexivity].
Defined.

(** X20: where the tunnel goes.  Without an upstream proxy the handler
    dials the host as [ParseHostWithPort] gave it and looks up no address.
    With an upstream proxy it dials nothing itself: it asks the proxy for a
    tunnel, to the host as given when the host part is empty, is an IP
    address or has no address in [LookupIP], and to the address found, with
    the port, otherwise. *)
Theorem tunnelConnect_routing env usage hostWithPort :
  HostWithPort (ParseHostWithPort env hostWithPort) <> ""%string ->
  filter contacts (inLine (fst (tunnelConnect env usage hostWithPort)))
  = match urlProxy env (ParseHostWithPort env hostWithPort) with
    | None => [Dial (HostWithPort (ParseHostWithPort env hostWithPort))]
    | Some p =>
        let '(host, port, _) :=
          SplitHostPort env (HostWithPort (ParseHostWithPort env hostWithPort)) in
        if (0 <? String.length host)%nat && negb (ParseIP env host)
        then [LookupIP host;
              MakeTunnel p
                match lookupIP env host with
                | Some ip => (ip ++ ":" ++ port)%string
                | None => HostWithPort (ParseHostWithPort env hostWithPort)
                end]
        else [MakeTunnel p (HostWithPort (ParseHostWithPort env hostWithPort))]
    end.
Proof.
  intros Hhost. unfold tunnelConnect.
  destruct (String.length _ =? 0)%nat eqn:E.
  { apply length_zero_empty in E. contradiction. }
  unfold sendHTTPSProxyStatusOK, sendHTTPSProxyStatusBadGateway.
  destruct (urlProxy env (ParseHostWithPort env hostWithPort)) as [p|].
  - destruct (SplitHostPort env _) as [[host port] e0].
    destruct ((0 <? String.length host)%nat && negb (ParseIP env host));
      [destruct (lookupIP env host)|];
      (destruct (makeTunnel env);
       [destruct usage; reflexivity
       | destruct (writeClient env httpTunnelMadeOkBytes);
         [destruct usage; reflexivity
         | destruct (forwardToOrigin env) as [a [ea|]];
           destruct (forwardToClient env) as [b [eb|]];
           destruct usage; reflexivity]]).
  - destruct (dial env);
      [destruct usage; reflexivity
      | destruct (writeClient env httpTunnelMadeOkBytes);
        [destruct usage; reflexivity
        | destruct (forwardToOrigin env) as [a [ea|]];
          destruct (forwardToClient env) as [b [eb|]];
          destruct usage; reflexivity]].
Qed.

Lemma tunnelConnect_routing_witness :
  filter contacts
    (inLine (fst (tunnelConnect (routed (plainEnv parseOk)) true "example.test:443")))
  = [LookupIP "example.test"; MakeTunnel upstreamProxy "192.0.2.7:443"].
Proof.
  apply (@tunnelConnect_routing (routed (plainEnv parseOk)) true "example.test:443").
  simpl. discriminate.
Defined.

(** X21: the two directions of a tunnel.  Once the [200] reply is written,
    [tunnelConnect] starts the forwarding to the origin and the forwarding
    to the client, each in a goroutine, waits for both, and closes the
    origin connection after the wait, whatever the two return; of their
    errors it returns the one of the forwarding to the origin when there is
    one, and the one of the forwarding to the client otherwise. *)
Theorem tunnelConnect_forwards env usage hostWithPort :
  HostWithPort (ParseHostWithPort env hostWithPort) <> ""%string ->
  openError env hostWithPort = None ->
  writeClient env httpTunnelMadeOkBytes = None ->
  filter tunnels (fst (tunnelConnect env usage hostWithPort))
  = [Go [Forward true]; Go [Forward false]; Do Wait; Do CloseTunnelConn]
  /\ snd (tunnelConnect env usage hostWithPort)
     = match snd (forwardToOrigin env), snd (forwardToClient env) with
       | Some e, _ =>
           Some (ErrWrapper e "error occurred when tunneling client request to client")
       | None, Some e =>
           Some (ErrWrapper e "error occurred when tunneling client response to client")
       | None, None => None
       end.
Proof.
  intros Hhost Hopen Hw. unfold openError in Hopen. unfold tunnelConnect.
  destruct (String.length _ =? 0)%nat eqn:E.
  { apply length_zero_empty in E. contradiction. }
  unfold sendHTTPSProxyStatusOK. rewrite Hw.
  destruct (urlProxy env (ParseHostWithPort env hostWithPort)) as [p|].
  - rewrite Hopen.
    destruct (SplitHostPort env _) as [[host port] e0].
    destruct (forwardToOrigin env) as [a ea]. destruct (forwardToClient env) as [b eb].
    destruct ((0 <? String.length host)%nat && negb (ParseIP env host));
      [destruct (lookupIP env host)|];
      destruct ea, eb, usage; split; reflexivity.
  - rewrite Hopen.
    destruct (forwardToOrigin env) as [a ea]. destruct (forwardToClient env) as [b eb].
    destruct ea, eb, usage; split; reflexivity.
Qed.

Lemma tunnelConnect_forwards_witness :
  filter tunnels
    (fst (tunnelConnect (routed (plainEnv parseOk)) true "example.test:443"))
  = [Go [Forward true]; Go [Forward false]; Do Wait; Do CloseTunnelConn]
  /\ snd (tunnelConnect (routed (plainEnv parseOk)) true "example.test:443")
     = Some (ErrWrapper (conn_error 104)
               "error occurred when tunneling client response to client").
Proof.
  apply (@tunnelConnect_forwards (routed (plainEnv parseOk)) true
           "example.test:443");
    [simpl; discriminate | reflexivity | reflexivity].
Defined.

End Tunnel.

(** ** The handler: [decryptConnect] and [handleHTTPSConns] *)

Section Decrypt.

Import proxy.

(** X22: the certificate cannot be made.  When [signFakeCert] fails (the
    host has no port to split off, or [cert.GenCert] fails),
    [decryptConnect] writes the [501] reply to the client, adds its [28]
    bytes to the outgoing counter of [usage] when there is one, and returns
    the error wrapped; it writes no [200] reply, makes no TLS handshake and
    reads no request. *)
Theorem decryptConnect_sign_fails env usage hostWithPort req (e : error) :
  signFakeCert env hostWithPort = Some e ->
  snd (decryptConnect env usage hostWithPort req)
  = Some (ErrWrapper e "fail to sign fake certificate for client")
  /\ clientWrites (fst (decryptConnect env usage hostWithPort req)) = [badGateway]
  /\ outgoingAdded (fst (decryptConnect env usage hostWithPort req))
     = (if usage then [28] else [])
  /\ filter isTLSHandshake (inLine (fst (decryptConnect env usage hostWithPort req)))
     = []
  /\ stopsBeforeRequest (fst (decryptConnect env usage hostWithPort req)) = true.
Proof.
  intros Hs. unfold decryptConnect. rewrite Hs.
  destruct usage; repeat split.
Qed.

Lemma decryptConnect_sign_fails_witness :
  snd (decryptConnect (certFails (plainEnv parseOk)) true "example.test:443"
         hostRequest)
  = Some (ErrWrapper (errors_New "x509: cannot sign")
            "fail to sign fake certificate for client")
  /\ clientWrites (fst (decryptConnect (certFails (plainEnv parseOk)) true
                          "example.test:443" hostRequest)) = [badGateway]
  /\ outgoingAdded (fst (decryptConnect (certFails (plainEnv parseOk)) true
                           "example.test:443" hostRequest))
     = [28]
  /\ filter isTLSHandshake
       (inLine (fst (decryptConnect (certFails (plainEnv parseOk)) true
                       "example.test:443" hostRequest)))
     = []
  /\ stopsBeforeRequest (fst (decryptConnect (certFails (plainEnv parseOk)) true
                                "example.test:443" hostRequest)) = true.
Proof.
  apply (@decryptConnect_sign_fails (certFails (plainEnv parseOk)) true
           "example.test:443" hostRequest (errors_New "x509: cannot sign")).
  reflexivity.
Defined.



(** X24: the reply to a CONNECT.  [handleHTTPSConns] writes at most one
    status line to the client itself: none when the tunnel host is empty;
    [501 Bad Gateway] when the certificate cannot be made (decrypting) or
    the origin connection cannot be opened (tunneling); [200 OK] in every
    other case, whether the write succeeds or not and whatever happens
    after it. *)
Theorem handleHTTPSConns_replies env decrypt usage hostWithPort req :
  clientWrites (fst (handleHTTPSConns env decrypt usage hostWithPort req))
  = if decrypt then
      match signFakeCert env hostWithPort with
      | Some _ => [badGateway]
      | None => [tunnelOk]
      end
    else if (String.length (HostWithPort (ParseHostWithPort env hostWithPort)) =? 0)%nat
    then []
    else match openError env hostWithPort with
         | Some _ => [badGateway]
         | None => [tunnelOk]
         end.
Proof.
  unfold handleHTTPSConns. destruct decrypt.
  - unfold decryptConnect, handShake, sendHTTPSProxyStatusOK.
    destruct (signFakeCert env hostWithPort) as [es|].
    { destruct usage; reflexivity. }
    destruct (writeClient env httpTunnelMadeOkBytes) as [ew|].
    { reflexivity. }
    destruct (handshake env) as [eh|].
    + destruct (String.length _ =? 0)%nat; destruct usage; reflexivity.
    + destruct (String.length _ =? 0)%nat.
      * destruct usage; reflexivity.
      * destruct (readFrom env) as [rn [er|]].
        -- destruct usage; reflexivity.
        -- unfold do.
           destruct (responseWriteTo env); [destruct usage; reflexivity|].
           destruct (hijackResponse env).
           { destruct (hijackClientDo env) as [[[a b] c] e].
             destruct usage; reflexivity. }
           cbn [reqHostInfo].
           destruct (String.length (HostWithPort _) =? 0)%nat;
             [destruct usage; reflexivity|].
           destruct (clientDo env) as [[[a b] c] e].
           destruct (urlProxy env _) as [p|].
           ++ destruct (0 <? String.length _)%nat; destruct usage; reflexivity.
           ++ destruct usage; reflexivity.
  - destruct (String.length _ =? 0)%nat eqn:E.
    + unfold tunnelConnect. rewrite E. reflexivity.
    + assert (Hhost : HostWithPort (ParseHostWithPort env hostWithPort) <> ""%string).
      { intros H. rewrite H in E. discriminate. }
      unfold openError, tunnelConnect. rewrite E.
      unfold sendHTTPSProxyStatusOK, sendHTTPSProxyStatusBadGateway.
      destruct (urlProxy env (ParseHostWithPort env hostWithPort)) as [p|].
      * destruct (SplitHostPort env _) as [[host port] e0].
        destruct ((0 <? String.length host)%nat && negb (ParseIP env host));
          [destruct (lookupIP env host)|];
          (destruct (makeTunnel env);
           [destruct usage; reflexivity
           | destruct (writeClient env httpTunnelMadeOkBytes);
             [destruct usage; reflexivity
             | destruct (forwardToOrigin env) as [a [ea|]];
               destruct (forwardToClient env) as [b [eb|]];
               destruct usage; reflexivity]]).
      * destruct (dial env);
          [destruct usage; reflexivity
          | destruct (writeClient env httpTunnelMadeOkBytes);
            [destruct usage; reflexivity
            | destruct (forwardToOrigin env) as [a [ea|]];
              destruct (forwardToClient env) as [b [eb|]];
              destruct usage; reflexivity]].
Qed.

End Decrypt.

(** ** The handler: what is taken from the pools *)

Section Pools.

Import proxy.

(** X25: pooled resources.  On every path of [handleHTTPConns] and of
    [handleHTTPSConns], with an error as without, what the handler takes
    (writer, response, hijacker, upstream token, reader, request) it gives
    back before it returns, each resource once and in the reverse order of
    the taking. *)
Theorem pools_released_nested env decrypt usage hostWithPort req :
  nested [] (map stepOf (inLine (fst (handleHTTPConns env req)))) = true
  /\ nested []
       (map stepOf
          (inLine (fst (handleHTTPSConns env decrypt usage hostWithPort req))))
     = true.
Proof.
  assert (Hdo : forall r, nested [] (map stepOf (inLine (fst (do env r)))) = true).
  { intros r. unfold do.
    destruct (responseWriteTo env); [reflexivity|].
    destruct (hijackResponse env).
    { destruct (hijackClientDo env) as [[[a b] c] e]. reflexivity. }
    destruct (String.length _ =? 0)%nat; [reflexivity|].
    destruct (clientDo env) as [[[a b] c] e].
    destruct (urlProxy env (reqHostInfo r)) as [p|].
    - destruct (0 <? String.length (Domain (reqHostInfo r)))%nat; reflexivity.
    - reflexivity. }
  split; [apply Hdo|].
  unfold handleHTTPSConns. destruct decrypt.
  - unfold decryptConnect, handShake, sendHTTPSProxyStatusOK.
    destruct (signFakeCert env hostWithPort) as [es|].
    { destruct usage; reflexivity. }
    destruct (writeClient env httpTunnelMadeOkBytes) as [ew|].
    { reflexivity. }
    destruct (handshake env) as [eh|].
    + destruct (String.length _ =? 0)%nat; destruct usage; reflexivity.
    + destruct (String.length _ =? 0)%nat.
      * destruct usage; reflexivity.
      * destruct (readFrom env) as [rn [er|]].
        -- destruct usage; reflexivity.
        -- unfold do.
           destruct (responseWriteTo env); [destruct usage; reflexivity|].
           destruct (hijackResponse env).
           { destruct (hijackClientDo env) as [[[a b] c] e].
             destruct usage; reflexivity. }
           cbn [reqHostInfo].
           destruct (String.length (HostWithPort _) =? 0)%nat;
             [destruct usage; reflexivity|].
           destruct (clientDo env) as [[[a b] c] e].
           destruct (urlProxy env _) as [p|].
           ++ destruct (0 <? String.length _)%nat; destruct usage; reflexivity.
           ++ destruct usage; reflexivity.
  - unfold tunnelConnect.
    destruct (String.length _ =? 0)%nat; [reflexivity|].
    unfold sendHTTPSProxyStatusOK, sendHTTPSProxyStatusBadGateway.
    destruct (urlProxy env (ParseHostWithPort env hostWithPort)) as [p|].
    + destruct (SplitHostPort env _) as [[host port] e0].
      destruct ((0 <? String.length host)%nat && negb (ParseIP env host));
        [destruct (lookupIP env host)|];
        (destruct (makeTunnel env);
         [destruct usage; reflexivity
         | destruct (writeClient env httpTunnelMadeOkBytes);
           [destruct usage; reflexivity
           | destruct (forwardToOrigin env) as [a [ea|]];
             destruct (forwardToClient env) as [b [eb|]];
             destruct usage; reflexivity]]).
    + destruct (dial env);
        [destruct usage; reflexivity
        | destruct (writeClient env httpTunnelMadeOkBytes);
          [destruct usage; reflexivity
          | destruct (forwardToOrigin env) as [a [ea|]];
            destruct (forwardToClient env) as [b [eb|]];
            destruct usage; reflexivity]].
Qed.

End Pools.

(** ** The earlier handler *)

Section EarlierHandler.

Import handler.


(** X27: the errors of [decryptConnect] of the earlier handler.  Every
    error it returns is wrapped under the message of the phase that failed,
    one of five.  When the client named no server the error is the one of
    the handshake phase around "client didn't provide a target server
    name", whatever the handshake itself returned, and nothing is taken
    from the pools, read or sent to the origin. *)
Theorem handler_decryptConnect_errors env hostWithPort :
  (snd (decryptConnect env hostWithPort) = None
   \/ exists msg e,
        snd (decryptConnect env hostWithPort) = Some (Errorf2 "%s: %s" msg e)
        /\ In msg handlerPhases)
  /\ (signFakeCert env hostWithPort = None ->
      snd (fst (handShake env)) = ""%string ->
      snd (decryptConnect env hostWithPort)
      = Some (Errorf2 "%s: %s" "error occurred when handshaking with client"
                noServerName)
      /\ filter handlerServes (handlerLine (fst (decryptConnect env hostWithPort)))
         = []).
Proof.
  split.
  - unfold decryptConnect, handShake, sendHTTPSProxyStatusOK.
    destruct (signFakeCert env hostWithPort) as [es|].
    { right. eexists _, _. split; [reflexivity | simpl; tauto]. }
    destruct (write env statusOK) as [ew|].
    { right. eexists _, _. split; [reflexivity | simpl; tauto]. }
    destruct (handshake env) as [eh|].
    { destruct (String.length _ =? 0)%nat;
        right; eexists _, _; (split; [reflexivity | simpl; tauto]). }
    destruct (String.length _ =? 0)%nat.
    { right. eexists _, _. split; [reflexivity | simpl; tauto]. }
    destruct (initWithTLSClientReader env) as [e1|].
    { right. eexists _, _. split; [reflexivity | simpl; tauto]. }
    destruct (initWithWriter env) as [e2|].
    { right. eexists _, _. split; [reflexivity | simpl; tauto]. }
    destruct (clientDo env) as [e3|].
    { right. eexists _, _. split; [reflexivity | simpl; tauto]. }
    left. reflexivity.
  - intros Hs Hn. unfold decryptConnect. rewrite Hs.
    destruct (handShake env) as [[t1 name] err] eqn:Eh.
    simpl in Hn. subst name. simpl. split; [reflexivity|].
    unfold handShake, sendHTTPSProxyStatusOK in Eh.
    destruct (write env statusOK).
    + inversion Eh; subst. reflexivity.
    + destruct (handshake env); inversion Eh; subst; reflexivity.
Qed.

Lemma handler_decryptConnect_errors_witness :
  snd (decryptConnect handlerEnv "example.test:443")
  = Some (Errorf2 "%s: %s" "error occurred when handshaking with client"
            noServerName)
  /\ filter handlerServes
       (handlerLine (fst (decryptConnect handlerEnv "example.test:443")))
     = [].
Proof.
  apply (proj2 (@handler_decryptConnect_errors handlerEnv "example.test:443"));
    reflexivity.
Defined.

(** X28: what [decryptConnect] of the earlier handler defers.  On every
    path the reader, the request, the writer and the response it took are
    given back before it returns, in the reverse order of the taking, and
    the writer is flushed before it is released.  The TLS connection it
    made is closed on every path but one: when the handshake succeeds and
    the client named no server, it returns without closing it. *)
Theorem handler_decryptConnect_releases env hostWithPort :
  nested [] (map handlerStepOf (handlerLine (fst (decryptConnect env hostWithPort))))
  = true
  /\ (In (Do AcquireWriter) (fst (decryptConnect env hostWithPort)) ->
      exists pre post,
        fst (decryptConnect env hostWithPort)
        = pre ++ [Do Flush; Do ReleaseWriter] ++ post)
  /\ (signFakeCert env hostWithPort = None -> write env statusOK = None ->
      filter handlerClosesTLS (handlerLine (fst (decryptConnect env hostWithPort)))
      = match handshake env with
        | Some _ => [CloseTLSConn]
        | None =>
            match helloServerName env with
            | None | Some EmptyString => []
            | Some (String _ _) => [CloseTLSConn]
            end
        end).
Proof.
  split; [|split].
  - unfold decryptConnect, handShake, sendHTTPSProxyStatusOK.
    destruct (signFakeCert env hostWithPort) as [es|]; [reflexivity|].
    destruct (write env statusOK) as [ew|]; [reflexivity|].
    destruct (handshake env) as [eh|].
    { destruct (String.length _ =? 0)%nat; reflexivity. }
    destruct (String.length _ =? 0)%nat; [reflexivity|].
    destruct (initWithTLSClientReader env) as [e1|]; [reflexivity|].
    destruct (initWithWriter env) as [e2|]; [reflexivity|].
    destruct (clientDo env) as [e3|]; reflexivity.
  - unfold decryptConnect, handShake, sendHTTPSProxyStatusOK.
    destruct (signFakeCert env hostWithPort) as [es|].
    { simpl. intuition discriminate. }
    destruct (write env statusOK) as [ew|].
    { simpl. intuition discriminate. }
    destruct (handshake env) as [eh|].
    { destruct (String.length _ =? 0)%nat; simpl; intuition discriminate. }
    destruct (String.length _ =? 0)%nat.
    { simpl. intuition discriminate. }
    destruct (initWithTLSClientReader env) as [e1|].
    { simpl. intuition discriminate. }
    destruct (initWithWriter env) as [e2|].
    + intros _.
      exists [Do (SignFakeCert hostWithPort); Do (Write statusOK); Do TLSHandshake;
              Do AcquireReader; Do AcquireRequest;
              Do (InitWithTLSClientReader hostWithPort
                    match helloServerName env with
                    | Some name => name
                    | None => ""%string
                    end);
              Do AcquireWriter; Do AcquireResponse; Do InitWithWriter;
              Do ReleaseResponse],
             [Do ReleaseRequest; Do ReleaseReader; Do CloseTLSConn].
      reflexivity.
    + intros _.
      exists [Do (SignFakeCert hostWithPort); Do (Write statusOK); Do TLSHandshake;
              Do AcquireReader; Do AcquireRequest;
              Do (InitWithTLSClientReader hostWithPort
                    match helloServerName env with
                    | Some name => name
                    | None => ""%string
                    end);
              Do AcquireWriter; Do AcquireResponse; Do InitWithWriter;
              Do ClientDo; Do ReleaseResponse],
             [Do ReleaseRequest; Do ReleaseReader; Do CloseTLSConn].
      destruct (clientDo env); reflexivity.
  - intros Hs Hw. unfold decryptConnect, handShake, sendHTTPSProxyStatusOK.
    rewrite Hs, Hw.
    destruct (handshake env) as [eh|].
    { destruct (String.length _ =? 0)%nat; reflexivity. }
    destruct (helloServerName env) as [[|c name]|]; try reflexivity.
    simpl String.length. cbv iota beta.
    change ((S (String.length name) =? 0)%nat) with false. cbv iota.
    destruct (initWithTLSClientReader env) as [e1|]; [reflexivity|].
    destruct (initWithWriter env) as [e2|]; [reflexivity|].
    destruct (clientDo env) as [e3|]; reflexivity.
Qed.

Lemma handler_decryptConnect_releases_witness :
  filter handlerClosesTLS
    (handlerLine (fst (decryptConnect handlerEnv "example.test:443")))
  = [].
Proof.
  apply (proj2 (proj2 (@handler_decryptConnect_releases handlerEnv
                         "example.test:443")));
    reflexivity.
Defined.

End EarlierHandler.
